(** * Verification of jaxlib/gpu/triton_kernels.cc

    A shallow embedding of the Triton kernel dispatcher of jaxlib: the
    assembly cache ([GetModuleImage]), the per-context function loader
    ([GetFunctionForContext]), [Kernel], [KernelCall], the autotuner
    ([AutotunedKernelCall]) and [ZlibUncompress], followed by the
    properties of these functions.

    The CUDA driver, the PTX assembler and zlib are external to the
    repository.  They are modelled by an [Oracle]: every external call is
    appended to a trace together with the result the oracle chose for it,
    so that a theorem quantified over the oracle holds for every behaviour
    of the device.

    A method runs on the value of its object, which it may update; where
    the address of the object matters, it is a parameter [self] of the
    method.  It matters in one place: the assembly cache keeps a
    [std::string_view] into the ptx string of the kernel that asked first,
    and the autotuner later moves and destroys kernels. *)

From stdpp Require Import base gmap strings list.
From Stdlib Require Import ZArith Lia Bool HexString DecimalString.

Local Open Scope string_scope.
Local Open Scope list_scope.
Local Open Scope Z_scope.

(* ===================================================================== *)
(** * Machine integers and bytes *)
(* ===================================================================== *)

Definition wrap32 (z : Z) : Z := z mod 2 ^ 32.
Definition wrap64 (z : Z) : Z := z mod 2 ^ 64.

Definition kNumThreadsPerWarp : Z := 32.
Definition kMaxStaticSharedMemBytes : Z := 49152.

(** A byte of device or host memory. *)
Definition byte : Type := Byte.byte.
Definition zero_byte : byte := Byte.x00.

#[global] Instance byte_eq_dec : EqDecision byte := Byte.byte_eq_dec.

(* ===================================================================== *)
(** * absl::Status *)
(* ===================================================================== *)

(** [CUresult]: 0 is [CUDA_SUCCESS]. *)
Definition CUresult : Type := Z.
Definition CUDA_SUCCESS : CUresult := 0.

(** The statuses that occur in this translation unit.
    [InvalidArgumentError] is absl's, with its message.
    [ResourceExhaustedError] is absl's too; no line of the unit builds it.
    Modelled from the spec: [DriverError] is the status that the macro
    [JAX_AS_STATUS] (gpu_kernel_helpers.h, not part of this unit) builds
    from a failed driver result, carrying the driver's error, and
    [CompilationError] is the failure status of the external assembler. *)
Inductive Status : Type :=
| OkStatus
| InvalidArgumentError (msg : string)
| ResourceExhaustedError (msg : string)
| DriverError (rc : CUresult)
| CompilationError (msg : string).

#[global] Instance Status_eq_dec : EqDecision Status.
Proof. solve_decision. Defined.

Definition JAX_AS_STATUS (rc : CUresult) : Status :=
  if decide (rc = CUDA_SUCCESS) then OkStatus else DriverError rc.

Definition ok (s : Status) : bool :=
  match s with OkStatus => true | _ => false end.

(** Behaviour that C++ leaves undefined. *)
Inductive Undefined : Type :=
| VectorIndexOutOfRange      (* configs_[0] on an empty vector *)
| BufferIndexOutOfRange      (* buffers[i] past the caller's array *)
| HostReadOutOfRange         (* reading more bytes than a host vector holds *)
| InvalidPointer             (* a ModuleImage* that points to no object *)
| InvalidatedView            (* a string_view of a moved or destroyed string *)
| SignedOverflow             (* int arithmetic whose result is no int *)
| ConversionOutOfRange.      (* a float converted to int that is no int *)

(** Result of a call: a value, a failure status, or undefined behaviour. *)
Inductive Res (A : Type) : Type :=
| Ret (a : A)
| Fail (s : Status)
| UB (u : Undefined).
Arguments Ret {A} a.
Arguments Fail {A} s.
Arguments UB {A} u.

(** The status a call of return type [absl::Status] hands back. *)
Definition status_of {A} (r : Res A) : option Status :=
  match r with
  | Ret _ => Some OkStatus
  | Fail s => Some s
  | UB _ => None
  end.

(* ===================================================================== *)
(** * State and error monad *)
(* ===================================================================== *)

Definition M (S A : Type) : Type := S -> Res A * S.

Definition ret {S A} (a : A) : M S A := fun s => (Ret a, s).
Definition fail {S A} (e : Status) : M S A := fun s => (Fail e, s).
Definition undefined {S A} (u : Undefined) : M S A := fun s => (UB u, s).

Definition bind {S A B} (m : M S A) (k : A -> M S B) : M S B :=
  fun s =>
    match m s with
    | (Ret a, s') => k a s'
    | (Fail e, s') => (Fail e, s')
    | (UB u, s') => (UB u, s')
    end.

Notation "'do' x <- m ; k" := (bind m (fun x => k))
  (at level 10, x name, m at level 100, k at level 200).
Notation "'run' m ; k" := (bind m (fun _ => k))
  (at level 10, m at level 100, k at level 200).

Definition get {S} : M S S := fun s => (Ret s, s).
Definition put {S} (s : S) : M S unit := fun _ => (Ret tt, s).
Definition modify {S} (f : S -> S) : M S unit := fun s => (Ret tt, f s).

(** [JAX_RETURN_IF_ERROR(status)]. *)
Definition JAX_RETURN_IF_ERROR {S} (st : Status) : M S unit :=
  if ok st then ret tt else fail st.

(** Runs [m] on a component of the state: a method called on a member. *)
Definition zoom {S T A} (proj : S -> T) (upd : T -> S -> S) (m : M T A)
  : M S A :=
  fun s => let '(r, t') := m (proj s) in (r, upd t' s).

(** [absl::Cleanup]: [c] runs on every exit path and its result is dropped. *)
Definition with_cleanup {S A} (c : S -> S) (m : M S A) : M S A :=
  fun s => let '(r, s') := m s in (r, c s').

(** A [for] loop over the elements of a list, threading an accumulator. *)
Fixpoint for_each {S A B} (l : list A) (acc : B) (body : A -> B -> M S B)
  : M S B :=
  match l with
  | [] => ret acc
  | a :: l' => do acc' <- body a acc; for_each l' acc' body
  end.

(* ===================================================================== *)
(** * Single-precision times *)
(* ===================================================================== *)

(** The unit handles [float] values only through [<], [std::min], the
    constant infinity and one division converted to [int].  The type is
    kept abstract: an instance supplies the comparison of IEEE-754 (false
    whenever an operand is a NaN) and the conversion
    [static_cast<int>(kBenchmarkTimeMillis / best)], which truncates and
    has no result when the truncated quotient is no [int] (a NaN, an
    infinity or a number beyond the range of [int]): the conversion is
    then undefined. *)
Class Float32 : Type := {
  float : Type;
  float_ltb : float -> float -> bool;
  float_infinity : float;
  float_is_nan : float -> bool;
  benchmark_time_div : float -> option Z;
  (* the order of the numbers, NaN apart *)
  float_ltb_irrefl : forall a, float_ltb a a = false;
  float_ltb_trans : forall a b c,
    float_ltb a b = true -> float_ltb b c = true -> float_ltb a c = true;
  float_ltb_total : forall a b c,
    float_is_nan b = false ->
    float_ltb a c = true -> float_ltb a b = true \/ float_ltb b c = true;
  float_infinity_max : forall a, float_ltb float_infinity a = false;
  float_infinity_not_nan : float_is_nan float_infinity = false
}.

(** [std::min(a, b)]: [b] when [b < a], else [a]. *)
Definition std_min `{Float32} (a b : float) : float :=
  if float_ltb b a then b else a.

(** A small instance: integer times, infinity and NaN. *)
Inductive ztime : Type := ZFin (t : Z) | ZInf | ZNaN.

Definition ztime_ltb (a b : ztime) : bool :=
  match a, b with
  | ZFin x, ZFin y => x <? y
  | ZFin _, ZInf => true
  | _, _ => false
  end.

Definition ztime_is_nan (a : ztime) : bool :=
  match a with ZNaN => true | _ => false end.

Definition ztime_div (a : ztime) : option Z :=
  match a with
  | ZFin t => if decide (t = 0) then None else Some (Z.quot 10 t)
  | ZInf => Some 0
  | ZNaN => None
  end.

#[global, refine] Instance ztime_Float32 : Float32 := {|
  float := ztime;
  float_ltb := ztime_ltb;
  float_infinity := ZInf;
  float_is_nan := ztime_is_nan;
  benchmark_time_div := ztime_div
|}.
Proof.
  - intros []; simpl; auto. apply Z.ltb_irrefl.
  - intros [x| |] [y| |] [z| |]; simpl; try discriminate; auto.
    rewrite !Z.ltb_lt. lia.
  - intros [x| |] [y| |] [z| |]; simpl; try discriminate; auto.
    rewrite !Z.ltb_lt. lia.
  - intros []; reflexivity.
  - reflexivity.
Defined.

(* ===================================================================== *)
(** * Parameters of a kernel call *)
(* ===================================================================== *)

(** [KernelCall::Parameter] (named [Param] here): the variant
    [std::variant<Array, bool, int32_t, uint32_t, int64_t, uint64_t>]. *)
Inductive Param : Type :=
| Array (bytes_to_zero ptr_divisibility : Z)
| PBool (b : bool)
| PI32 (v : Z)
| PU32 (v : Z)
| PI64 (v : Z)
| PU64 (v : Z).

#[global] Instance Param_eq_dec : EqDecision Param.
Proof. solve_decision. Defined.

(** One slot of the argument-pointer array handed to the launch: what the
    pointer in the slot points to, a buffer address or a stored scalar. *)
Inductive Arg : Type :=
| ArgBuffer (ptr : Z)
| ArgScalar (p : Param).

(* ===================================================================== *)
(** * The external world: driver, assembler, log *)
(* ===================================================================== *)

Inductive DeviceAttribute : Type :=
| MAX_SHARED_MEMORY_PER_BLOCK_OPTIN
| MAX_SHARED_MEMORY_PER_MULTIPROCESSOR.

Inductive FuncAttribute : Type :=
| SHARED_SIZE_BYTES
| MAX_DYNAMIC_SHARED_SIZE_BYTES.

(** The driver entry points the unit calls, with their inputs. *)
Inductive DriverCall : Type :=
| cuEventCreate
| cuEventRecord (event stream : Z)
| cuEventSynchronize (event : Z)
| cuEventElapsedTime (start stop : Z)
| cuEventDestroy (event : Z)
| cuStreamGetCtx (stream : Z)
| cuStreamSynchronize (stream : Z)
| cuCtxPushCurrent (context : Z)
| cuCtxPopCurrent
| cuCtxGetDevice
| cuModuleLoadData (image : list byte)
| cuModuleGetFunction (module : Z) (name : string)
| cuDeviceGetAttribute (attr : DeviceAttribute) (device : Z)
| cuFuncSetCacheConfig (function : Z)
| cuFuncGetAttribute (attr : FuncAttribute) (function : Z)
| cuFuncSetAttribute (function : Z) (attr : FuncAttribute) (value : Z)
| cuMemsetD8Async (ptr : Z) (value : byte) (n : Z) (stream : Z)
| cuMemcpyDtoHAsync (ptr : Z) (n : Z) (stream : Z)
| cuMemcpyHtoDAsync (ptr : Z) (data : list byte) (stream : Z)
| cuLaunchKernel (function : Z) (grid : Z * Z * Z) (block_dim_x : Z)
    (shared_mem_bytes : Z) (stream : Z) (params : list Arg).

Definition is_launch (c : DriverCall) : bool :=
  match c with cuLaunchKernel _ _ _ _ _ _ => true | _ => false end.

Definition is_memset (c : DriverCall) : bool :=
  match c with cuMemsetD8Async _ _ _ _ => true | _ => false end.

Definition is_event_create (c : DriverCall) : bool :=
  match c with cuEventCreate => true | _ => false end.

Definition is_ctx_pop (c : DriverCall) : bool :=
  match c with cuCtxPopCurrent => true | _ => false end.

(** Device memory: a byte at every address. *)
Definition Memory : Type := Z -> byte.

Definition mem_read (m : Memory) (p : Z) (n : nat) : list byte :=
  map (fun k => m (p + Z.of_nat k)) (seq 0 n).

Definition mem_write (m : Memory) (p : Z) (data : list byte) : Memory :=
  fun a =>
    if decide (p <= a < p + Z.of_nat (length data))
    then default zero_byte (data !! Z.to_nat (a - p))
    else m a.

(** Key of the assembly cache:
    (kernel name, shared-memory bytes, ptx, compute capability), as the
    table of [absl::flat_hash_map] hashes and compares it: the kernel name
    is a [std::string] of the key's own, the ptx is the text that the
    key's [std::string_view] shows. *)
Abbreviation Key := (string * Z * string * Z)%type.

(** Where an object that holds a [Kernel] lives: an object of its own on
    the heap (the [p]-th one allocated), or element [i] of the vector
    [configs_] of the object at [v].  A [KernelCall] has one [Kernel] and a
    [Kernel] one [ptx_], so the place also names that [std::string]. *)
Inductive Place : Type :=
| Heap (p : nat)
| Element (v : Place) (i : nat).

#[global] Instance Place_eq_dec : EqDecision Place.
Proof. solve_decision. Defined.

(** [std::string_view]: a pointer into the characters of a [std::string]
    and a length.  [sv_text] is the text the view shows, [sv_string] the
    string it points into. *)
Record string_view : Type := {
  sv_text : string;
  sv_string : Place
}.

(** The [std::string_view] that a key stored in the table holds: the
    string it points into and whether the pointer is still valid.
    References into a [std::string] are invalidated when the string is
    moved from, assigned to or destroyed ([string.require]). *)
Record StoredView : Type := {
  stored_string : Place;
  stored_valid : bool
}.

Section Program.

Context `{F32 : Float32}.

(** Lines written with [LOG(INFO)]. *)
Inductive LogLine : Type :=
| LogAutotuning (name : string)
| LogRanOne (description : string) (t : float)
| LogItersCapped
| LogIters (timed_iters : Z)
| LogRan (description : string) (timed_iters : Z) (t : float)
| LogNewBest (description : string)
| LogFinished (name description : string).

(** What the process did to the outside, newest first. *)
Inductive Event : Type :=
| EvDriver (c : DriverCall) (rc : CUresult)
| EvCompile (cc_major cc_minor : Z) (ptx : string) (success : bool)
| EvLog (l : LogLine).

(** The answers of the outside.  The first argument is the number of events
    issued before the call, so an answer may depend on the whole past. *)
Record Oracle : Type := {
  drv_result : nat -> DriverCall -> CUresult;
  drv_out : nat -> DriverCall -> Z;
  drv_elapsed : nat -> DriverCall -> float;
  launch_effect : nat -> DriverCall -> Memory -> Memory;
  asm_result : nat -> Z -> Z -> string -> string + list byte
}.

Context (orc : Oracle).

(** [ModuleImage]: the compiled image and, per context, the loaded module
    and the resolved function. *)
Record ModuleImage : Type := {
  mi_kernel_name_ : string;
  mi_module_image_ : list byte;
  mi_shared_mem_bytes_ : Z;
  mi_modules_ : list Z;
  mi_functions_ : gmap Z Z
}.


(** The process: the events issued so far, device memory, the static map
    of [GetModuleImage] and the [ModuleImage] objects it owns.  A
    [ModuleImage*] is the index of the object in [image_heap].  The keys of
    the map are [module_images]'s; [key_views] holds, for each stored key,
    the [std::string_view] that is its third component. *)
Record World : Type := {
  trace : list Event;
  dev_mem : Memory;
  module_images : gmap Key nat;
  key_views : gmap Key StoredView;
  image_heap : list ModuleImage
}.

Definition set_trace (t : list Event) (w : World) : World :=
  {| trace := t; dev_mem := dev_mem w;
     module_images := module_images w; key_views := key_views w;
     image_heap := image_heap w |}.

Definition set_dev_mem (m : Memory) (w : World) : World :=
  {| trace := trace w; dev_mem := m;
     module_images := module_images w; key_views := key_views w;
     image_heap := image_heap w |}.

Definition set_images (c : gmap Key nat) (h : list ModuleImage) (w : World)
  : World :=
  {| trace := trace w; dev_mem := dev_mem w;
     module_images := c; key_views := key_views w; image_heap := h |}.

Definition set_key_views (v : gmap Key StoredView) (w : World) : World :=
  {| trace := trace w; dev_mem := dev_mem w;
     module_images := module_images w; key_views := v;
     image_heap := image_heap w |}.

(** Every key stored in the table holds a view that is still valid. *)
Definition views_valid (w : World) : bool :=
  bool_decide (map_Forall (fun _ v => stored_valid v = true) (key_views w)).

(** The string at [p] is moved from, assigned to or destroyed: the views
    into it that the table holds are no longer valid. *)
Definition invalidate (p : Place) (w : World) : World :=
  set_key_views
    ((fun v => if decide (stored_string v = p)
               then {| stored_string := p; stored_valid := false |}
               else v) <$> key_views w) w.

(** Effect of a successful driver call on device memory.  Work on a stream
    runs in issue order, so an asynchronous call takes effect at once. *)
Definition effect (n : nat) (c : DriverCall) (m : Memory) : Memory :=
  match c with
  | cuMemsetD8Async p v k _ => mem_write m p (replicate (Z.to_nat k) v)
  | cuMemcpyHtoDAsync p data _ => mem_write m p data
  | cuLaunchKernel _ _ _ _ _ _ => launch_effect orc n c m
  | _ => m
  end.

(** Issues one driver call: the oracle picks the result, the call is
    recorded, and a successful call acts on device memory. *)
Definition issue (c : DriverCall) (w : World) : CUresult * nat * World :=
  let n := length (trace w) in
  let rc := drv_result orc n c in
  let m := if decide (rc = CUDA_SUCCESS) then effect n c (dev_mem w)
           else dev_mem w in
  (rc, n, set_trace (EvDriver c rc :: trace w) (set_dev_mem m w)).

(** [CUDA_RETURN_IF_ERROR(call)]; yields the position of the call, under
    which the oracle holds its outputs. *)
Definition CUDA_RETURN_IF_ERROR (c : DriverCall) : M World nat :=
  fun w =>
    let '(rc, n, w') := issue c w in
    match JAX_AS_STATUS rc with
    | OkStatus => (Ret n, w')
    | st => (Fail st, w')
    end.

(** A driver call whose result is dropped. *)
Definition unchecked (c : DriverCall) (w : World) : World :=
  snd (issue c w).

Definition LOG (l : LogLine) : M World unit :=
  modify (fun w => set_trace (EvLog l :: trace w) w).

(** A call with an output parameter: the output of the [n]-th event. *)
Definition with_out (c : DriverCall) : M World Z :=
  do n <- CUDA_RETURN_IF_ERROR c; ret (drv_out orc n c).

(** [int] outputs of the driver. *)
Definition as_int (z : Z) : Z := (z + 2 ^ 31) mod 2 ^ 32 - 2 ^ 31.

(** The C string at the start of a buffer: what a [const char*] shows. *)
Fixpoint c_str (s : string) : string :=
  match s with
  | EmptyString => EmptyString
  | String c r => if Ascii.eqb c Ascii.zero then EmptyString
                  else String c (c_str r)
  end.

(** [stream_executor::CompileGpuAsm(cc_major, cc_minor, ptx, opts)]. *)
Definition CompileGpuAsm (cc_major cc_minor : Z) (ptx : string)
  : M World (list byte) :=
  fun w =>
    let r := asm_result orc (length (trace w)) cc_major cc_minor ptx in
    let ev b := EvCompile cc_major cc_minor ptx b :: trace w in
    match r with
    | inr image => (Ret image, set_trace (ev true) w)
    | inl msg => (Fail (CompilationError msg), set_trace (ev false) w)
    end.

(** [GetModuleImage], lines 47-77.  [int] division and remainder of C++
    truncate towards zero.

    The key of line 52 holds the caller's [std::string_view], not a copy
    of the text, and line 70 moves it into the table, which keeps it for
    the life of the process.  [absl::flat_hash_map] (external) hashes and
    compares its keys by value, here by the text that their views show,
    and asks that a key does not change while it is stored; which of the
    stored keys a [find] or an [insert] reads depends on the hash values
    and on the layout of the table, which this unit does not fix.  A
    table that holds a key whose view was invalidated is outside that
    contract: a lookup in it is undefined. *)
Definition GetModuleImage (kernel_name : string) (shared_mem_bytes : Z)
    (ptx : string_view) (compute_capability : Z) : M World nat :=
  let key : Key :=
    (kernel_name, shared_mem_bytes, sv_text ptx, compute_capability) in
  do w <- get;
  if negb (views_valid w) then undefined InvalidatedView
  else
    match module_images w !! key with
    | Some it => ret it
    | None =>
        let cc_major := Z.quot compute_capability 10 in
        let cc_minor := Z.rem compute_capability 10 in
        do module_image <- CompileGpuAsm cc_major cc_minor
                             (c_str (sv_text ptx));
        do w <- get;
        let it2 := length (image_heap w) in
        let image := {| mi_kernel_name_ := kernel_name;
                        mi_module_image_ := module_image;
                        mi_shared_mem_bytes_ := shared_mem_bytes;
                        mi_modules_ := [];
                        mi_functions_ := ∅ |} in
        let view := {| stored_string := sv_string ptx;
                       stored_valid := true |} in
        run modify (fun w =>
                      set_key_views (<[key := view]> (key_views w))
                        (set_images (<[key := it2]> (module_images w))
                                    (image_heap w ++ [image]) w));
        ret it2
    end.

Definition update_image (this : nat) (f : ModuleImage -> ModuleImage)
  : M World unit :=
  modify (fun w => set_images (module_images w) (alter f this (image_heap w)) w).

Definition push_module (module : Z) (img : ModuleImage) : ModuleImage :=
  {| mi_kernel_name_ := mi_kernel_name_ img;
     mi_module_image_ := mi_module_image_ img;
     mi_shared_mem_bytes_ := mi_shared_mem_bytes_ img;
     mi_modules_ := mi_modules_ img ++ [module];
     mi_functions_ := mi_functions_ img |}.

Definition insert_function (context function : Z) (img : ModuleImage)
  : ModuleImage :=
  {| mi_kernel_name_ := mi_kernel_name_ img;
     mi_module_image_ := mi_module_image_ img;
     mi_shared_mem_bytes_ := mi_shared_mem_bytes_ img;
     mi_modules_ := mi_modules_ img;
     mi_functions_ := <[context := function]> (mi_functions_ img) |}.

Definition shared_memory_message : string :=
  "Shared memory requested exceeds device resources.".

(** [a - b] on two [int]s: undefined when the difference is no [int]. *)
Definition int_sub {S} (a b : Z) : M S Z :=
  if decide (- 2 ^ 31 <= a - b < 2 ^ 31) then ret (a - b)
  else undefined SignedOverflow.

(** The tail of [GetFunctionForContext], lines 171-199: dynamic shared
    memory.  [shared_mem_bytes_] is [uint32_t] and [shared_optin] is [int]:
    the first comparison converts [shared_optin] to unsigned, the second
    compares two [int]s.  The argument of [cuFuncSetAttribute] is computed
    before the call. *)
Definition setup_dynamic_shared_memory (shared_mem_bytes function : Z)
  : M World Z :=
  do device <- with_out cuCtxGetDevice;
  do optin <- with_out
      (cuDeviceGetAttribute MAX_SHARED_MEMORY_PER_BLOCK_OPTIN device);
  let shared_optin := as_int optin in
  if decide (shared_mem_bytes > wrap32 shared_optin)
  then fail (InvalidArgumentError shared_memory_message)
  else
    if decide (shared_optin > kMaxStaticSharedMemBytes)
    then
      run CUDA_RETURN_IF_ERROR (cuFuncSetCacheConfig function);
      do shared_total <- with_out
          (cuDeviceGetAttribute MAX_SHARED_MEMORY_PER_MULTIPROCESSOR device);
      do static <- with_out (cuFuncGetAttribute SHARED_SIZE_BYTES function);
      let shared_static := as_int static in
      do dynamic <- int_sub shared_optin shared_static;
      run CUDA_RETURN_IF_ERROR
          (cuFuncSetAttribute function MAX_DYNAMIC_SHARED_SIZE_BYTES dynamic);
      ret function
    else ret function.

(** [ModuleImage::GetFunctionForContext], lines 144-200, on the object
    that [this] points to. *)
Definition GetFunctionForContext (this : nat) (context : Z) : M World Z :=
  do w <- get;
  match image_heap w !! this with
  | None => undefined InvalidPointer
  | Some img =>
      match mi_functions_ img !! context with
      | Some function => ret function
      | None =>
          run CUDA_RETURN_IF_ERROR (cuCtxPushCurrent context);
          with_cleanup (unchecked cuCtxPopCurrent)
            (do module <- with_out (cuModuleLoadData (mi_module_image_ img));
             run update_image this (push_module module);
             do function <- with_out
                 (cuModuleGetFunction module (c_str (mi_kernel_name_ img)));
             run update_image this (insert_function context function);
             if decide (mi_shared_mem_bytes_ img <= kMaxStaticSharedMemBytes)
             then ret function
             else setup_dynamic_shared_memory
                    (mi_shared_mem_bytes_ img) function)
      end
  end.

(** [Kernel].  [module_image_] is the lazily resolved [ModuleImage*]. *)
Record Kernel : Type := {
  kernel_name_ : string;
  block_dim_x_ : Z;
  shared_mem_bytes_ : Z;
  ptx_ : string;
  ttir_ : string;
  compute_capability_ : Z;
  module_image_ : option nat
}.

(** The constructor [Kernel::Kernel], lines 212-220; the product is taken
    in [uint32_t]. *)
Definition Kernel_new (kernel_name : string) (num_warps shared_mem_bytes : Z)
    (ptx ttir : string) (compute_capability : Z) : Kernel :=
  {| kernel_name_ := kernel_name;
     block_dim_x_ := wrap32 (num_warps * kNumThreadsPerWarp);
     shared_mem_bytes_ := shared_mem_bytes;
     ptx_ := ptx;
     ttir_ := ttir;
     compute_capability_ := compute_capability;
     module_image_ := None |}.

Definition set_module_image (i : nat) (k : Kernel) : Kernel :=
  {| kernel_name_ := kernel_name_ k;
     block_dim_x_ := block_dim_x_ k;
     shared_mem_bytes_ := shared_mem_bytes_ k;
     ptx_ := ptx_ k;
     ttir_ := ttir_ k;
     compute_capability_ := compute_capability_ k;
     module_image_ := Some i |}.

(** A call that touches the process only, made from a method of an
    object of type [T]. *)
Definition liftW {T A} (m : M World A) : M (T * World) A :=
  zoom snd (fun w s => (fst s, w)) m.

(** A method of a member object, called from a method of its owner. *)
Definition on_member {S T A} (proj : S -> T) (upd : T -> S -> S)
    (m : M (T * World) A) : M (S * World) A :=
  zoom (fun s => (proj (fst s), snd s))
       (fun t s => (upd (fst t) (fst s), snd t)) m.

(** [Kernel::Launch], lines 222-237.  [self] is the place of the object
    (the pointer [this] of C++; [this] below is the object's value): the
    argument [ptx_] of line 225 converts to a view into the object's own
    string. *)
Definition Kernel_Launch (self : Place) (stream : Z) (grid : Z * Z * Z)
    (params : list Arg) : M (Kernel * World) unit :=
  do s <- get;
  let this := fst s in
  do image <-
    match module_image_ this with
    | Some i => ret i
    | None =>
        do i <- liftW (GetModuleImage (kernel_name_ this)
                         (shared_mem_bytes_ this)
                         {| sv_text := ptx_ this; sv_string := self |}
                         (compute_capability_ this));
        run modify (fun s => (set_module_image i (fst s), snd s));
        ret i
    end;
  do context <- liftW (with_out (cuStreamGetCtx stream));
  do kernel <- liftW (GetFunctionForContext image context);
  run liftW (CUDA_RETURN_IF_ERROR
               (cuLaunchKernel kernel grid (block_dim_x_ this)
                  (shared_mem_bytes_ this) stream params));
  ret tt.

(** [KernelCall]. *)
Record KernelCall : Type := {
  kernel_ : Kernel;
  grid_ : Z * Z * Z;
  parameters_ : list Param
}.

Definition set_kernel (k : Kernel) (c : KernelCall) : KernelCall :=
  {| kernel_ := k; grid_ := grid_ c; parameters_ := parameters_ c |}.

Definition dec_string (z : Z) : string :=
  NilZero.string_of_int (Z.to_int z).

(** [absl::StrFormat("Parameter %zu (%p) is not divisible by %d.", ...)]. *)
Definition not_divisible_message (i : nat) (ptr divisor : Z) : string :=
  "Parameter " +:+ dec_string (Z.of_nat i) +:+ " (" +:+ HexString.of_Z ptr
  +:+ ") is not divisible by " +:+ dec_string divisor +:+ ".".

(** One round of the loop of [KernelCall::Launch], lines 318-342.  The
    accumulator holds the buffers not yet consumed and the argument slots
    pushed so far. *)
Definition bind_parameter (stream : Z) (ip : nat * Param)
    (acc : list Z * list Arg) : M World (list Z * list Arg) :=
  let '(i, param) := ip in
  let '(buffers, params) := acc in
  match param with
  | Array bytes_to_zero ptr_divisibility =>
      match buffers with
      | [] => undefined BufferIndexOutOfRange
      | ptr :: buffers' =>
          if decide (ptr_divisibility <> 0 /\ ptr mod ptr_divisibility <> 0)
          then fail (InvalidArgumentError
                       (not_divisible_message i ptr ptr_divisibility))
          else
            run (if decide (bytes_to_zero > 0)
                 then run CUDA_RETURN_IF_ERROR
                        (cuMemsetD8Async ptr zero_byte bytes_to_zero stream);
                      ret tt
                 else ret tt);
            ret (buffers', (params ++ [ArgBuffer ptr])%list)
      end
  | _ => ret (buffers, (params ++ [ArgScalar param])%list)
  end.

Definition indexed {A} (l : list A) : list (nat * A) :=
  zip (seq 0 (length l)) l.

(** [KernelCall::Launch], lines 315-345, on the object at [self]. *)
Definition KernelCall_Launch (self : Place) (stream : Z) (buffers : list Z)
  : M (KernelCall * World) unit :=
  do s <- get;
  let this := fst s in
  do acc <- liftW (for_each (indexed (parameters_ this)) (buffers, [])
                     (bind_parameter stream));
  on_member kernel_ set_kernel
    (Kernel_Launch self stream (grid_ this) (snd acc)).

(** Runs [m] [n] times. *)
Fixpoint repeat_n {St} (n : nat) (m : M St unit) : M St unit :=
  match n with
  | O => ret tt
  | S n' => run m; repeat_n n' m
  end.

(** [Benchmark], lines 79-96; [self] is the place of [kernel_call]. *)
Definition Benchmark (self : Place) (stream : Z) (buffers : list Z)
    (num_iterations : Z) : M (KernelCall * World) float :=
  do start <- liftW (with_out cuEventCreate);
  do stop <- liftW (with_out cuEventCreate);
  run KernelCall_Launch self stream buffers;
  run liftW (CUDA_RETURN_IF_ERROR (cuEventRecord start stream));
  run repeat_n (Z.to_nat num_iterations)
        (KernelCall_Launch self stream buffers);
  run liftW (CUDA_RETURN_IF_ERROR (cuEventRecord stop stream));
  run liftW (CUDA_RETURN_IF_ERROR (cuEventSynchronize stop));
  do n <- liftW (CUDA_RETURN_IF_ERROR (cuEventElapsedTime start stop));
  let elapsed_ms := drv_elapsed orc n (cuEventElapsedTime start stop) in
  run liftW (CUDA_RETURN_IF_ERROR (cuEventDestroy start));
  run liftW (CUDA_RETURN_IF_ERROR (cuEventDestroy stop));
  ret elapsed_ms.

(** [AutotunedKernelCall::Config]. *)
Record Config : Type := {
  kernel_call : KernelCall;
  description : string
}.

(** [AutotunedKernelCall].  [autotune_once_] is the flag of
    [absl::call_once]; a default-constructed [absl::Status] is OK. *)
Record AutotunedKernelCall : Type := {
  name_ : string;
  configs_ : list Config;
  input_output_aliases_ : list (Z * Z * Z);
  autotune_once_ : bool;
  autotune_status_ : Status
}.

(** The constructor, lines 372-377. *)
Definition AutotunedKernelCall_new (name : string) (configs : list Config)
    (input_output_aliases : list (Z * Z * Z)) : AutotunedKernelCall :=
  {| name_ := name; configs_ := configs;
     input_output_aliases_ := input_output_aliases;
     autotune_once_ := false; autotune_status_ := OkStatus |}.

Definition set_configs (cs : list Config) (a : AutotunedKernelCall)
  : AutotunedKernelCall :=
  {| name_ := name_ a; configs_ := cs;
     input_output_aliases_ := input_output_aliases_ a;
     autotune_once_ := autotune_once_ a;
     autotune_status_ := autotune_status_ a |}.

Definition set_autotuned (st : Status) (a : AutotunedKernelCall)
  : AutotunedKernelCall :=
  {| name_ := name_ a; configs_ := configs_ a;
     input_output_aliases_ := input_output_aliases_ a;
     autotune_once_ := true;
     autotune_status_ := st |}.

Definition set_kernel_call (kc : KernelCall) (c : Config) : Config :=
  {| kernel_call := kc; description := description c |}.

(** A method of [configs_[i].kernel_call]. *)
Definition on_config {A} (i : nat) (m : M (KernelCall * World) A)
  : M (AutotunedKernelCall * World) A :=
  fun s =>
    match configs_ (fst s) !! i with
    | None => (UB VectorIndexOutOfRange, s)
    | Some c =>
        let '(r, t) := m (kernel_call c, snd s) in
        (r, (set_configs (<[i := set_kernel_call (fst t) c]> (configs_ (fst s)))
               (fst s), snd t))
    end.

(** [buffers[idx]]. *)
Definition buffer_at {St} (buffers : list Z) (idx : Z) : M St Z :=
  match buffers !! Z.to_nat idx with
  | Some ptr => ret ptr
  | None => undefined BufferIndexOutOfRange
  end.

(** [cuMemcpyDtoHAsync] into a fresh host vector of [size] bytes. *)
Definition copy_to_host (ptr size stream : Z) : M World (list byte) :=
  do w <- get;
  run CUDA_RETURN_IF_ERROR (cuMemcpyDtoHAsync ptr size stream);
  ret (mem_read (dev_mem w) ptr (Z.to_nat size)).

(** One round of the loop of lines 441-449: the copy of an input that
    shares its buffer with an output. *)
Definition snapshot (stream : Z) (buffers : list Z) (alias : Z * Z * Z)
    (input_copies : gmap Z (list byte)) : M World (gmap Z (list byte)) :=
  let '(input_idx, output_idx, size) := alias in
  do input <- buffer_at buffers input_idx;
  do output <- buffer_at buffers output_idx;
  if decide (input = output)
  then do input_copy <- copy_to_host input size stream;
       ret (<[input_idx := input_copy]> input_copies)
  else ret input_copies.

(** One round of the loop of lines 493-497.  [input_copies[input_idx]] of
    an absent key is a new empty vector; the driver reads [size] bytes
    from the vector's data. *)
Definition restore (stream : Z) (buffers : list Z)
    (input_copies : gmap Z (list byte)) (alias : Z * Z * Z) (_ : unit)
  : M World unit :=
  let '(input_idx, _, size) := alias in
  do input <- buffer_at buffers input_idx;
  let input_copy := default [] (input_copies !! input_idx) in
  if decide (Z.to_nat size <= length input_copy)%nat
  then run CUDA_RETURN_IF_ERROR
         (cuMemcpyHtoDAsync input (take (Z.to_nat size) input_copy) stream);
       ret tt
  else undefined HostReadOutOfRange.

(** One round of the first loop over [configs_], lines 455-460. *)
Definition calibrate (self : Place) (stream : Z) (buffers : list Z)
    (i : nat) (best : float) : M (AutotunedKernelCall * World) float :=
  do t <- on_config i (Benchmark (Element self i) stream buffers 1);
  do s <- get;
  let d := default "" (description <$> configs_ (fst s) !! i) in
  run liftW (LOG (LogRanOne d t));
  ret (std_min best t).

(** [std::swap(config, configs_[0])] where [config] is [configs_[i]]. *)
Definition swap_with_first {A} (i : nat) (cs : list A) : list A :=
  match cs !! i, cs !! 0%nat with
  | Some ci, Some c0 => <[0%nat := ci]> (<[i := c0]> cs)
  | _, _ => cs
  end.

(** [std::swap(a, b)] on two elements of [configs_], line 482: the values
    are exchanged by a move construction and two move assignments, each
    of which may invalidate the pointers into the strings it moves
    ([string.require]); whether the characters stay in place depends on
    the library and on the length of the text.  The views into the
    strings of both elements are invalidated; when [config] is
    [configs_[0]] itself, the element is swapped with itself. *)
Definition swap_invalidates (a b : Place) (w : World) : World :=
  invalidate b (invalidate a w).

(** One round of the second loop over [configs_], lines 473-484. *)
Definition measure (self : Place) (stream : Z) (buffers : list Z)
    (timed_iters : Z) (i : nat) (best : float)
  : M (AutotunedKernelCall * World) float :=
  do t <- on_config i (Benchmark (Element self i) stream buffers timed_iters);
  do s <- get;
  let d := default "" (description <$> configs_ (fst s) !! i) in
  run liftW (LOG (LogRan d timed_iters t));
  if float_ltb t best
  then run liftW (LOG (LogNewBest d));
       run modify (fun s =>
                     (set_configs (swap_with_first i (configs_ (fst s)))
                        (fst s),
                      swap_invalidates (Element self i) (Element self 0)
                        (snd s)));
       ret t
  else ret best.

(** Lines 462-470.  The conversion to [int] of line 462 is undefined
    when the quotient is no [int], as for a best time of zero. *)
Definition choose_timed_iters (best : float) : M World Z :=
  match benchmark_time_div best with
  | None => undefined ConversionOutOfRange
  | Some quotient =>
      let timed_iters := Z.max quotient 1 in
      if decide (timed_iters > 100)
      then run LOG LogItersCapped; ret 100
      else let timed_iters := Z.min timed_iters 100 in
           run LOG (LogIters timed_iters); ret timed_iters
  end.

(** Lines 440-484 of [Autotune]: the copies of the aliased inputs, then
    the two loops over [configs_].  [this] is the object at entry. *)
Definition benchmark_configs (self : Place) (stream : Z) (buffers : list Z)
    (this : AutotunedKernelCall)
  : M (AutotunedKernelCall * World) (gmap Z (list byte)) :=
  do input_copies <- liftW (for_each (input_output_aliases_ this) ∅
                              (snapshot stream buffers));
  run liftW (LOG (LogAutotuning (name_ this)));
  let rounds := seq 0 (length (configs_ this)) in
  do best <- for_each rounds float_infinity (calibrate self stream buffers);
  do timed_iters <- liftW (choose_timed_iters best);
  run for_each rounds float_infinity
        (measure self stream buffers timed_iters);
  ret input_copies.

(** [configs_.erase(configs_.begin() + 1, configs_.end())] on a vector of
    [n] elements at [self]: the elements from index 1 on are destroyed,
    and with them their strings. *)
Definition erase_invalidates (self : Place) (n : nat) (w : World) : World :=
  foldr (fun i => invalidate (Element self i)) w (seq 1 (n - 1)).

(** Lines 486-500 of [Autotune]: all configs but the first are erased,
    the aliased inputs are restored and the stream is synchronized. *)
Definition keep_best (self : Place) (stream : Z) (buffers : list Z)
    (this : AutotunedKernelCall) (input_copies : gmap Z (list byte))
  : M (AutotunedKernelCall * World) unit :=
  run modify (fun s => (set_configs (take 1 (configs_ (fst s))) (fst s),
                        erase_invalidates self (length (configs_ (fst s)))
                          (snd s)));
  do s <- get;
  match configs_ (fst s) !! 0%nat with
  | None => undefined VectorIndexOutOfRange
  | Some c0 =>
      run liftW (LOG (LogFinished (name_ this) (description c0)));
      run liftW (for_each (input_output_aliases_ this) tt
                   (restore stream buffers input_copies));
      run liftW (CUDA_RETURN_IF_ERROR (cuStreamSynchronize stream));
      ret tt
  end.

(** [AutotunedKernelCall::Autotune], lines 429-501, on the object at
    [self]; its vector [configs_] holds the config of index [i] at
    [Element self i]. *)
Definition Autotune (self : Place) (stream : Z) (buffers : list Z)
  : M (AutotunedKernelCall * World) unit :=
  do context <- liftW (with_out (cuStreamGetCtx stream));
  run liftW (CUDA_RETURN_IF_ERROR (cuCtxPushCurrent context));
  with_cleanup (fun s => (fst s, unchecked cuCtxPopCurrent (snd s)))
    (do s <- get;
     do input_copies <- benchmark_configs self stream buffers (fst s);
     keep_best self stream buffers (fst s) input_copies).

(** The body handed to [absl::call_once], lines 380-384: it runs on the
    first call only and stores the status of [Autotune]. *)
Definition autotune_once (self : Place) (stream : Z) (buffers : list Z)
  : M (AutotunedKernelCall * World) unit :=
  fun s =>
    if autotune_once_ (fst s) then (Ret tt, s)
    else if decide (1 < length (configs_ (fst s)))%nat
    then
      let '(r, s') := Autotune self stream buffers s in
      match r with
      | Ret _ => (Ret tt, (set_autotuned OkStatus (fst s'), snd s'))
      | Fail st => (Ret tt, (set_autotuned st (fst s'), snd s'))
      | UB u => (UB u, s')
      end
    else (Ret tt, (set_autotuned (autotune_status_ (fst s)) (fst s), snd s)).

(** [AutotunedKernelCall::Launch], lines 379-387, on the object at
    [self]. *)
Definition AutotunedKernelCall_Launch (self : Place) (stream : Z)
    (buffers : list Z) : M (AutotunedKernelCall * World) unit :=
  run autotune_once self stream buffers;
  do s <- get;
  run JAX_RETURN_IF_ERROR (autotune_status_ (fst s));
  on_config 0 (KernelCall_Launch (Element self 0) stream buffers).

End Program.

Arguments Oracle {F32}.
Arguments World {F32}.

(* ===================================================================== *)
(** * The serialized records *)
(* ===================================================================== *)

(** Modelled from the spec: the message classes of triton.pb.h, generated
    from triton.proto (neither is part of this unit).  A record has the
    fields that the unit reads and writes (section 6 of the specification:
    kernel descriptor, 3D grid, ordered parameter list; name, configs,
    aliasing triples), and a field returns the value that was stored. *)
Module Proto.

Record TritonKernel : Type := {
  kernel_name : string;
  num_warps : Z;
  shared_mem_bytes : Z;
  ptx : string;
  ttir : string;
  compute_capability : Z
}.

(** The [oneof value] of a parameter, with its unset case. *)
Inductive TritonKernelCall_Parameter : Type :=
| kArray (bytes_to_zero ptr_divisibility : Z)
| kBool (b : bool)
| kI32 (v : Z)
| kU32 (v : Z)
| kI64 (v : Z)
| kU64 (v : Z)
| VALUE_NOT_SET.

Record TritonKernelCall : Type := {
  kernel : TritonKernel;
  grid_0 : Z;
  grid_1 : Z;
  grid_2 : Z;
  parameters : list TritonKernelCall_Parameter
}.

Record TritonAutotunedKernelCall_Config : Type := {
  kernel_call : TritonKernelCall;
  description : string
}.

Record TritonAutotunedKernelCall_InputOutputAlias : Type := {
  input_buffer_idx : Z;
  output_buffer_idx : Z;
  buffer_size_bytes : Z
}.

Record TritonAutotunedKernelCall : Type := {
  name : string;
  configs : list TritonAutotunedKernelCall_Config;
  input_output_aliases : list TritonAutotunedKernelCall_InputOutputAlias
}.

End Proto.

(** [Kernel::FromProto], lines 239-243. *)
Definition Kernel_FromProto (proto : Proto.TritonKernel) : Kernel :=
  Kernel_new (Proto.kernel_name proto) (Proto.num_warps proto)
    (Proto.shared_mem_bytes proto) (Proto.ptx proto) (Proto.ttir proto)
    (Proto.compute_capability proto).

(** [Kernel::ToProto], lines 245-254. *)
Definition Kernel_ToProto (this : Kernel) : Proto.TritonKernel :=
  {| Proto.kernel_name := kernel_name_ this;
     Proto.num_warps := block_dim_x_ this / kNumThreadsPerWarp;
     Proto.shared_mem_bytes := shared_mem_bytes_ this;
     Proto.ptx := ptx_ this;
     Proto.ttir := ttir_ this;
     Proto.compute_capability := compute_capability_ this |}.

(** [KernelCall::Parameter::FromProto], lines 256-285. *)
Definition Param_FromProto (proto : Proto.TritonKernelCall_Parameter)
  : Res Param :=
  match proto with
  | Proto.kArray b d => Ret (Array b d)
  | Proto.kBool b => Ret (PBool b)
  | Proto.kI32 v => Ret (PI32 v)
  | Proto.kU32 v => Ret (PU32 v)
  | Proto.kI64 v => Ret (PI64 v)
  | Proto.kU64 v => Ret (PU64 v)
  | Proto.VALUE_NOT_SET =>
      Fail (InvalidArgumentError "Unknown scalar parameter type.")
  end.

(** [KernelCall::Parameter::ToProto], lines 287-307. *)
Definition Param_ToProto (this : Param) : Proto.TritonKernelCall_Parameter :=
  match this with
  | Array b d => Proto.kArray b d
  | PBool b => Proto.kBool b
  | PI32 v => Proto.kI32 v
  | PU32 v => Proto.kU32 v
  | PI64 v => Proto.kI64 v
  | PU64 v => Proto.kU64 v
  end.

(** The constructor [KernelCall::KernelCall], lines 309-313. *)
Definition KernelCall_new (kernel : Kernel) (grid_0 grid_1 grid_2 : Z)
    (parameters : list Param) : KernelCall :=
  {| kernel_ := kernel; grid_ := (grid_0, grid_1, grid_2);
     parameters_ := parameters |}.

(** A loop that converts each element and returns at the first failure
    ([JAX_ASSIGN_OR_RETURN] followed by [push_back]). *)
Fixpoint convert_all {A B} (f : A -> Res B) (l : list A) : Res (list B) :=
  match l with
  | [] => Ret []
  | a :: l' =>
      match f a with
      | Ret b =>
          match convert_all f l' with
          | Ret bs => Ret (b :: bs)
          | Fail s => Fail s
          | UB u => UB u
          end
      | Fail s => Fail s
      | UB u => UB u
      end
  end.

(** [KernelCall::FromProto], lines 347-358. *)
Definition KernelCall_FromProto (proto : Proto.TritonKernelCall)
  : Res KernelCall :=
  match convert_all Param_FromProto (Proto.parameters proto) with
  | Ret parameters =>
      Ret (KernelCall_new (Kernel_FromProto (Proto.kernel proto))
             (Proto.grid_0 proto) (Proto.grid_1 proto) (Proto.grid_2 proto)
             parameters)
  | Fail s => Fail s
  | UB u => UB u
  end.

(** [KernelCall::ToProto], lines 360-370. *)
Definition KernelCall_ToProto (this : KernelCall) : Proto.TritonKernelCall :=
  {| Proto.kernel := Kernel_ToProto (kernel_ this);
     Proto.grid_0 := fst (fst (grid_ this));
     Proto.grid_1 := snd (fst (grid_ this));
     Proto.grid_2 := snd (grid_ this);
     Proto.parameters := map Param_ToProto (parameters_ this) |}.

Definition Config_FromProto (config : Proto.TritonAutotunedKernelCall_Config)
  : Res Config :=
  match KernelCall_FromProto (Proto.kernel_call config) with
  | Ret kc => Ret {| kernel_call := kc;
                     description := Proto.description config |}
  | Fail s => Fail s
  | UB u => UB u
  end.

Definition Alias_FromProto
    (a : Proto.TritonAutotunedKernelCall_InputOutputAlias) : Z * Z * Z :=
  (Proto.input_buffer_idx a, Proto.output_buffer_idx a,
   Proto.buffer_size_bytes a).

(** [AutotunedKernelCall::FromProto], lines 389-409. *)
Definition AutotunedKernelCall_FromProto
    (proto : Proto.TritonAutotunedKernelCall) : Res AutotunedKernelCall :=
  match convert_all Config_FromProto (Proto.configs proto) with
  | Ret configs =>
      Ret (AutotunedKernelCall_new (Proto.name proto) configs
             (map Alias_FromProto (Proto.input_output_aliases proto)))
  | Fail s => Fail s
  | UB u => UB u
  end.

Definition Config_ToProto (config : Config)
  : Proto.TritonAutotunedKernelCall_Config :=
  {| Proto.kernel_call := KernelCall_ToProto (kernel_call config);
     Proto.description := description config |}.

Definition Alias_ToProto (a : Z * Z * Z)
  : Proto.TritonAutotunedKernelCall_InputOutputAlias :=
  let '(input_idx, output_idx, size) := a in
  {| Proto.input_buffer_idx := input_idx;
     Proto.output_buffer_idx := output_idx;
     Proto.buffer_size_bytes := size |}.

(** [AutotunedKernelCall::ToProto], lines 411-427. *)
Definition AutotunedKernelCall_ToProto (this : AutotunedKernelCall)
  : Proto.TritonAutotunedKernelCall :=
  {| Proto.name := name_ this;
     Proto.configs := map Config_ToProto (configs_ this);
     Proto.input_output_aliases :=
       map Alias_ToProto (input_output_aliases_ this) |}.

(* ===================================================================== *)
(** * The selection of the second benchmark loop *)
(* ===================================================================== *)

Section Selection.

Context `{F32 : Float32}.

(** The loop of lines 472-484 with the result of [Benchmark] in round [i]
    given: [ts] holds the times of the rounds still to run, [best] the
    running best, [cs] the vector. *)
Fixpoint select_loop {A} (ts : list float) (i : nat) (best : float)
    (cs : list A) : list A :=
  match ts with
  | [] => cs
  | t :: ts' =>
      if float_ltb t best
      then select_loop ts' (S i) t (swap_with_first i cs)
      else select_loop ts' (S i) best cs
  end.

(** The selection in the words of the specification: index [i] holds a
    minimal time, and every earlier time is strictly above it. *)
Definition earliest_minimum (ts : list float) (i : nat) : Prop :=
  exists ti, ts !! i = Some ti /\
    (forall j tj, ts !! j = Some tj -> float_ltb tj ti = false) /\
    (forall j tj, (j < i)%nat -> ts !! j = Some tj -> float_ltb ti tj = true).

End Selection.

(* ===================================================================== *)
(** * ZlibUncompress *)
(* ===================================================================== *)

(** Return codes of zlib's [uncompress]. *)
Inductive ZlibCode : Type := Z_OK | Z_BUF_ERROR | Z_DATA_ERROR | Z_MEM_ERROR.

(** Errors of the decoder itself. *)
Inductive ZlibFailure : Type := DataError | MemError.

Definition uncompress_message : string := "Failed to uncompress opaque data.".

Section Zlib.

(** The zlib format, external: the data a complete stream encodes, or the
    decoder's failure. *)
Variable inflate : list byte -> ZlibFailure + list byte.

(** zlib's [uncompress(dest, &destLen, source, sourceLen)] after its
    manual: [Z_OK] with the data when it fits in [destLen] bytes,
    [Z_BUF_ERROR] when the output buffer is too small. *)
Definition uncompress (dest_len : Z) (source : list byte)
  : ZlibCode * list byte :=
  match inflate source with
  | inr data =>
      if decide (Z.of_nat (length data) <= dest_len) then (Z_OK, data)
      else (Z_BUF_ERROR, [])
  | inl DataError => (Z_DATA_ERROR, [])
  | inl MemError => (Z_MEM_ERROR, [])
  end.

(** The loop of [ZlibUncompress], lines 519-533; [dest_len] is a 64-bit
    [uLongf].  [None]: the loop is still running when the fuel is spent. *)
Fixpoint ZlibUncompress_loop (fuel : nat) (compressed : list byte)
    (dest_len : Z) : option (Res (list byte)) :=
  match fuel with
  | O => None
  | S fuel' =>
      match uncompress dest_len compressed with
      | (Z_OK, data) => Some (Ret data)
      | (Z_BUF_ERROR, _) =>
          ZlibUncompress_loop fuel' compressed (wrap64 (dest_len * 2))
      | _ => Some (Fail (InvalidArgumentError uncompress_message))
      end
  end.

(** [ZlibUncompress], lines 516-535. *)
Definition ZlibUncompress (fuel : nat) (compressed : list byte)
  : option (Res (list byte)) :=
  ZlibUncompress_loop fuel compressed
    (wrap64 (5 * Z.of_nat (length compressed))).

End Zlib.

(* ===================================================================== *)
(** * Objects as the decoder builds them *)
(* ===================================================================== *)

(** The invariant of [Kernel]: [block_dim_x_] is a [uint32_t] product of
    a warp count and 32, as the only constructor computes it. *)
Definition Kernel_wf (k : Kernel) : Prop :=
  0 <= block_dim_x_ k < 2 ^ 32 /\ block_dim_x_ k mod kNumThreadsPerWarp = 0.

(** The same kernel before its first launch: no image resolved yet. *)
Definition unresolved (k : Kernel) : Kernel :=
  {| kernel_name_ := kernel_name_ k;
     block_dim_x_ := block_dim_x_ k;
     shared_mem_bytes_ := shared_mem_bytes_ k;
     ptx_ := ptx_ k;
     ttir_ := ttir_ k;
     compute_capability_ := compute_capability_ k;
     module_image_ := None |}.

Definition unresolved_call (c : KernelCall) : KernelCall :=
  set_kernel (unresolved (kernel_ c)) c.

Definition unresolved_config (c : Config) : Config :=
  set_kernel_call (unresolved_call (kernel_call c)) c.

Definition Config_wf (c : Config) : Prop :=
  Kernel_wf (kernel_ (kernel_call c)).

(* ===================================================================== *)
(** * Sample objects *)
(* ===================================================================== *)

Definition sample_kernel (name : string) (num_warps : Z) : Kernel :=
  Kernel_new name num_warps 0 "ptx" "ttir" 80.

(** Grid (1,1,1), one array parameter with 64 bytes to zero and alignment
    16, one scalar. *)
Definition sample_call (name : string) (num_warps : Z) : KernelCall :=
  KernelCall_new (sample_kernel name num_warps) 1 1 1 [Array 64 16; PI32 7].

Definition sample_config (name : string) (num_warps : Z) : Config :=
  {| kernel_call := sample_call name num_warps; description := name |}.

(** Three configs; buffer 0 is both input and output, 4 bytes long. *)
Definition sample_autotuned : AutotunedKernelCall :=
  AutotunedKernelCall_new "add"
    [sample_config "A" 1; sample_config "B" 2; sample_config "C" 4]
    [(0, 0, 4)].



(** A decoder for examples: a one-byte stream stands for a run of one
    hundred copies of the byte; nothing else is a stream. *)
Definition run_inflate (source : list byte) : ZlibFailure + list byte :=
  match source with
  | [b] => inr (replicate 100 b)
  | _ => inl DataError
  end.

(** Phase-2 times for the three sample configs: B and C tie below A. *)
Definition sample_times : list (@float ztime_Float32) :=
  [ZFin 5; ZFin 3; ZFin 3].


(** A process that has done nothing yet, with zeroed device memory. *)
Definition initial_world `{F32 : Float32} : World :=
  {| trace := []; dev_mem := fun _ => zero_byte;
     module_images := ∅; key_views := ∅; image_heap := [] |}.

(** A device on which every call succeeds.  Handles are numbered by the
    position of the call that made them, the opt-in shared memory is 64 kB,
    a launch writes the byte 0xff over the first four bytes of each of its
    buffer arguments, and the [n]-th event reads [n] as its elapsed time. *)
Definition plain_oracle : Oracle (F32 := ztime_Float32) :=
  {| drv_result := fun _ _ => CUDA_SUCCESS;
     drv_out := fun n c =>
       match c with
       | cuDeviceGetAttribute _ _ => 65536
       | cuFuncGetAttribute _ _ => 0
       | _ => Z.of_nat n
       end;
     drv_elapsed := fun n _ => ZFin (Z.of_nat n);
     launch_effect := fun _ c m =>
       match c with
       | cuLaunchKernel _ _ _ _ _ params =>
           foldr (fun a m' => match a with
                              | ArgBuffer p => mem_write m' p (replicate 4 Byte.xff)
                              | ArgScalar _ => m'
                              end) m params
       | _ => m
       end;
     asm_result := fun _ _ _ ptx => inr [Byte.x7f; Byte.x45] |}.

(* ===================================================================== *)
(** * Notions used in the statements *)
(* ===================================================================== *)

Section Notions.

Context `{F32 : Float32} (orc : Oracle).




(** A device on which no call fails. *)
Definition all_calls_succeed : Prop :=
  forall n c, drv_result orc n c = CUDA_SUCCESS.

End Notions.

(** A process that holds one compiled image with the given shared-memory
    need, not yet loaded into any context. *)
Definition world_with_image `{F32 : Float32} (shared_mem_bytes : Z) : World :=
  {| trace := []; dev_mem := fun _ => zero_byte;
     module_images := ∅; key_views := ∅;
     image_heap := [ {| mi_kernel_name_ := "k";
                        mi_module_image_ := [];
                        mi_shared_mem_bytes_ := shared_mem_bytes;
                        mi_modules_ := [];
                        mi_functions_ := ∅ |} ] |}.

(** The array parameters of [params] consume exactly the buffers [bufs],
    and each address satisfies the alignment its parameter asks for. *)
Fixpoint aligned_prefix (params : list Param) (bufs : list Z) : Prop :=
  match params with
  | [] => bufs = []
  | Array _ d :: params' =>
      match bufs with
      | [] => False
      | p :: bufs' => (d = 0 \/ p mod d = 0) /\ aligned_prefix params' bufs'
      end
  | _ :: params' => aligned_prefix params' bufs
  end.

(** The zero-fill calls that [params], bound to [bufs], ask for, in order. *)
Fixpoint memsets_of (stream : Z) (params : list Param) (bufs : list Z)
  : list DriverCall :=
  match params with
  | [] => []
  | Array b _ :: params' =>
      match bufs with
      | [] => []
      | p :: bufs' =>
          (if decide (b > 0) then [cuMemsetD8Async p zero_byte b stream]
           else []) ++ memsets_of stream params' bufs'
      end
  | _ :: params' => memsets_of stream params' bufs
  end.

(** The event records a call of [c]. *)
Definition calls `{F32 : Float32} (e : Event) (c : DriverCall) : Prop :=
  exists rc, e = EvDriver c rc.

(** A call whose first array parameter asks for 64 zeroed bytes and whose
    second array parameter asks for an address divisible by 16. *)
Definition two_array_call : KernelCall :=
  KernelCall_new (sample_kernel "A" 4) 1 1 1
    [Array 64 0; PI32 7; Array 0 16].

(** The driver calls that only [Benchmark] issues. *)
Definition is_timer (c : DriverCall) : bool :=
  match c with
  | cuEventCreate | cuEventRecord _ _ | cuEventSynchronize _
  | cuEventElapsedTime _ _ | cuEventDestroy _ => true
  | _ => false
  end.

Section TraceNotions.

Context `{F32 : Float32}.

(** An event of the outside, not a log line. *)
Definition external_event (e : Event) : Prop :=
  match e with EvLog _ => False | _ => True end.

(** An event that a plain kernel launch may issue: no log line and no
    timer call. *)
Definition launch_event (e : Event) : Prop :=
  match e with
  | EvLog _ => False
  | EvDriver c _ => is_timer c = false
  | EvCompile _ _ _ _ => True
  end.

(** The event is a driver call whose result the code checks and that
    failed with [rc]. *)
Definition failed_with (rc : CUresult) (e : Event) : Prop :=
  exists c, e = EvDriver c rc /\ rc <> CUDA_SUCCESS /\ is_ctx_pop c = false.

(** How a run relates the process before and after: it appends events
    that all satisfy [P]; if one of them is a checked driver call that
    failed, the run fails with that driver error; if the run meets
    undefined behaviour, it is of a kind in [U]; and a failure never
    carries the OK status. *)
Definition runs {A} (P : Event -> Prop) (U : Undefined -> Prop)
    (w : World) (r : Res A) (w' : World) : Prop :=
  exists new,
    trace w' = new ++ trace w
    /\ Forall P new
    /\ (forall rc e, In e new -> failed_with rc e -> r = Fail (DriverError rc))
    /\ (forall u, r = UB u -> U u)
    /\ r <> Fail OkStatus.

(** No vector is indexed out of range. *)
Definition in_range (u : Undefined) : Prop := u <> VectorIndexOutOfRange.

(** Any undefined behaviour. *)
Definition any_undefined (u : Undefined) : Prop := True.

(** Any event. *)
Definition any_event (e : Event) : Prop := True.

(** [Runs pw P m]: every run of [m] is related by [runs P]; [pw] finds
    the process in the state of [m]. *)
Definition Runs {S A} (pw : S -> World) (P : Event -> Prop)
    (U : Undefined -> Prop) (m : M S A) : Prop :=
  forall s, runs P U (pw s) (fst (m s)) (pw (snd (m s))).

End TraceNotions.

(** A run of calls of [AutotunedKernelCall::Launch] on one object, each
    with its stream and buffers; the results in order. *)
Fixpoint AutotunedKernelCall_Launch_each `{F32 : Float32} (orc : Oracle)
    (self : Place) (calls : list (Z * list Z))
    (s : AutotunedKernelCall * World)
  : list (Res unit) * (AutotunedKernelCall * World) :=
  match calls with
  | [] => ([], s)
  | (stream, buffers) :: calls' =>
      let '(r, s1) := AutotunedKernelCall_Launch orc self stream buffers s in
      let '(rs, s2) := AutotunedKernelCall_Launch_each orc self calls' s1 in
      (r :: rs, s2)
  end.

(** A device on which the calls of [fails] fail with code 700 and all
    others behave as on [plain_oracle]. *)
Definition failing_oracle (fails : DriverCall -> bool)
  : Oracle (F32 := ztime_Float32) :=
  {| drv_result := fun _ c => if fails c then 700 else CUDA_SUCCESS;
     drv_out := drv_out plain_oracle;
     drv_elapsed := drv_elapsed plain_oracle;
     launch_effect := launch_effect plain_oracle;
     asm_result := asm_result plain_oracle |}.

Definition is_stream_synchronize (c : DriverCall) : bool :=
  match c with cuStreamSynchronize _ => true | _ => false end.

(** A device like that of [plain_oracle] on which every function reports
    the least [int] as its static shared-memory size. *)
Definition least_static_oracle : Oracle (F32 := ztime_Float32) :=
  {| drv_result := drv_result plain_oracle;
     drv_out := fun n c =>
       match c with
       | cuFuncGetAttribute _ _ => - 2 ^ 31
       | _ => drv_out plain_oracle n c
       end;
     drv_elapsed := drv_elapsed plain_oracle;
     launch_effect := launch_effect plain_oracle;
     asm_result := asm_result plain_oracle |}.

(** A device like that of [plain_oracle] whose timer reads zero
    milliseconds between any two events. *)
Definition zero_time_oracle : Oracle (F32 := ztime_Float32) :=
  {| drv_result := drv_result plain_oracle;
     drv_out := drv_out plain_oracle;
     drv_elapsed := fun _ _ => ZFin 0;
     launch_effect := launch_effect plain_oracle;
     asm_result := asm_result plain_oracle |}.

Section StateNotions.

Context `{F32 : Float32}.

(** A relation between the state before a run, the result and the state
    after it that runs can be chained under. *)
Class Compositional {S} (T : forall A, S -> Res A -> S -> Prop) : Prop := {
  comp_ret : forall A (a : A) s, T A s (Ret a) s;
  comp_seq : forall A B (a : A) (r : Res B) s s1 s2,
    T A s (Ret a) s1 -> T B s1 r s2 -> T B s r s2;
  comp_fail : forall A B e s s1, T A s (Fail e) s1 -> T B s (Fail e) s1;
  comp_ub : forall A B u s s1, T A s (UB u) s1 -> T B s (UB u) s1
}.

(** Every run of [m] is in the relation [T]. *)
Definition Sat {S A} (T : forall A, S -> Res A -> S -> Prop) (m : M S A)
  : Prop :=
  forall s, T A s (fst (m s)) (snd (m s)).

(** The relation that compares the states only, by [R]. *)
Definition keeping {S} (R : S -> S -> Prop) : forall A, S -> Res A -> S -> Prop :=
  fun _ s _ s' => R s s'.

(** The kernel but for its resolved image. *)
Definition same_kernel (s s' : Kernel * World) : Prop :=
  unresolved (fst s') = unresolved (fst s).

(** The kernel call but for the resolved image of its kernel. *)
Definition same_call (s s' : KernelCall * World) : Prop :=
  unresolved_call (fst s') = unresolved_call (fst s).

(** The autotuned call but for its configs, of which the number and, up
    to resolved images, the elements in order are kept. *)
Definition same_configs (s s' : AutotunedKernelCall * World) : Prop :=
  name_ (fst s') = name_ (fst s)
  /\ input_output_aliases_ (fst s') = input_output_aliases_ (fst s)
  /\ autotune_once_ (fst s') = autotune_once_ (fst s)
  /\ autotune_status_ (fst s') = autotune_status_ (fst s)
  /\ map unresolved_config (configs_ (fst s'))
     = map unresolved_config (configs_ (fst s)).

End StateNotions.

Section TuningNotions.

Context `{F32 : Float32}.

(** A run that starts with [n] configs keeps their number and does not
    index a vector out of range. *)
Definition tuning (n : nat)
  : forall A, AutotunedKernelCall * World -> Res A
              -> AutotunedKernelCall * World -> Prop :=
  fun _ s r s' =>
    length (configs_ (fst s)) = n ->
    length (configs_ (fst s')) = n /\ r <> UB VectorIndexOutOfRange.

End TuningNotions.

(** Every host copy in [input_copies] holds bytes of the memory [m] at the
    buffer its key names. *)
Definition snapshots_of (m : Memory) (buffers : list Z)
    (input_copies : gmap Z (list byte)) : Prop :=
  forall k v, input_copies !! k = Some v ->
    exists p, buffers !! Z.to_nat k = Some p
              /\ v = mem_read m p (length v).

(** Two configs whose calls take two buffers; buffer 0 is declared as
    aliasing buffer 1, 4 bytes long. *)
Definition two_buffer_autotuned : AutotunedKernelCall :=
  let call name := KernelCall_new (sample_kernel name 1) 1 1 1
                     [Array 0 0; Array 0 0] in
  AutotunedKernelCall_new "copy"
    [ {| kernel_call := call "A"; description := "A" |};
      {| kernel_call := call "B"; description := "B" |} ]
    [(0, 1, 4)].

Section Measurements.

Context `{F32 : Float32}.





(** The fields of the object other than the configs. *)
Definition same_header (a a' : AutotunedKernelCall) : Prop :=
  name_ a' = name_ a
  /\ input_output_aliases_ a' = input_output_aliases_ a
  /\ autotune_once_ a' = autotune_once_ a
  /\ autotune_status_ a' = autotune_status_ a.

End Measurements.


(* ===================================================================== *)
(** * The decode cache and the entry point *)
(* ===================================================================== *)

#[global] Instance byte_countable : Countable byte :=
  inj_countable Byte.to_N Byte.of_N Byte.of_to_N.

(** Modelled from the spec: [jax_triton::TritonAnyKernelCall] of
    triton.pb.h, a discriminated union of exactly two variants (section 6
    of the specification), with its unset case. *)
Inductive TritonAnyKernelCall : Type :=
| kKernelCall (kernel_call : Proto.TritonKernelCall)
| kAutotunedKernelCall (autotuned_kernel_call : Proto.TritonAutotunedKernelCall)
| KERNEL_CALL_NOT_SET.

(** [KernelCallBase]: an object of one of the two classes that implement
    [Launch]. *)
Inductive KernelCallBase : Type :=
| OfKernelCall (c : KernelCall)
| OfAutotunedKernelCall (a : AutotunedKernelCall).

Section EntryPoint.

Context `{F32 : Float32} (orc : Oracle).

(** The zlib format and the wire format of the records, both external:
    the data a complete stream encodes, and the record a string parses to
    ([ParseFromString] returns false on [None]). *)
Variable inflate : list byte -> ZlibFailure + list byte.
Variable ParseFromString : list byte -> option TritonAnyKernelCall.

(** Modelled from the spec: the message of the status that
    [JAX_AS_STATUS] (gpu_kernel_helpers.h, not part of this unit) builds
    from a failed driver result. *)
Variable driver_error_message : CUresult -> string.

(** The process with the static map of [GetKernelCall] and the objects it
    owns.  A [KernelCallBase*] is the index of the object in
    [call_heap]; the object of index [p] lives at [Heap p]. *)
Record Process : Type := {
  kernel_calls : gmap (list byte) nat;
  call_heap : list KernelCallBase;
  world : World
}.

Definition set_world (w : World) (p : Process) : Process :=
  {| kernel_calls := kernel_calls p; call_heap := call_heap p; world := w |}.

(** Lines 113-125 of [GetKernelCall]: the object that the record
    describes. *)
Definition decode_kernel_call (proto : TritonAnyKernelCall)
  : Res KernelCallBase :=
  match proto with
  | kKernelCall kc =>
      match KernelCall_FromProto kc with
      | Ret kernel_call_ => Ret (OfKernelCall kernel_call_)
      | Fail s => Fail s
      | UB u => UB u
      end
  | kAutotunedKernelCall akc =>
      match AutotunedKernelCall_FromProto akc with
      | Ret kernel_call => Ret (OfAutotunedKernelCall kernel_call)
      | Fail s => Fail s
      | UB u => UB u
      end
  | KERNEL_CALL_NOT_SET =>
      Fail (InvalidArgumentError "Unknown kernel call type.")
  end.

(** [GetKernelCall], lines 98-132.  [None]: the loop of [ZlibUncompress]
    is still running when the fuel is spent. *)
Definition GetKernelCall (fuel : nat) (opaque : list byte) (p : Process)
  : option (Res nat * Process) :=
  match kernel_calls p !! opaque with
  | Some it => Some (Ret it, p)
  | None =>
      match ZlibUncompress inflate fuel opaque with
      | None => None
      | Some (Fail s) => Some (Fail s, p)
      | Some (UB u) => Some (UB u, p)
      | Some (Ret serialized) =>
          match ParseFromString serialized with
          | None =>
              Some (Fail (InvalidArgumentError
                            "Failed to parse serialized data."), p)
          | Some proto =>
              match decode_kernel_call proto with
              | Ret kernel_call =>
                  let it2 := length (call_heap p) in
                  Some (Ret it2,
                        {| kernel_calls := <[opaque := it2]> (kernel_calls p);
                           call_heap := call_heap p ++ [kernel_call];
                           world := world p |})
              | Fail s => Some (Fail s, p)
              | UB u => Some (UB u, p)
              end
          end
      end
  end.

(** The virtual call [kernel_call->Launch(stream, buffers)] on the object
    at [self]. *)
Definition KernelCallBase_Launch (self : Place) (stream : Z)
    (buffers : list Z) : M (KernelCallBase * World) unit :=
  fun s =>
    match fst s with
    | OfKernelCall c =>
        let '(r, s') := KernelCall_Launch orc self stream buffers (c, snd s) in
        (r, (OfKernelCall (fst s'), snd s'))
    | OfAutotunedKernelCall a =>
        let '(r, s') :=
          AutotunedKernelCall_Launch orc self stream buffers (a, snd s) in
        (r, (OfAutotunedKernelCall (fst s'), snd s'))
    end.

(** [result.message()]. *)
Definition Status_message (st : Status) : string :=
  match st with
  | OkStatus => ""
  | InvalidArgumentError msg => msg
  | ResourceExhaustedError msg => msg
  | DriverError rc => driver_error_message rc
  | CompilationError msg => msg
  end.

(** Lines 510-513: what is written to the [XlaCustomCallStatus], if
    anything. *)
Definition report_failure (result : Status) : option string :=
  if ok result then None else Some (Status_message result).

(** The lambda of [TritonKernelCall], lines 505-509: look the object up
    and launch it. *)
Definition lookup_and_launch (fuel : nat) (stream : Z) (buffers : list Z)
    (opaque : list byte) (p : Process) : option (Res unit * Process) :=
  match GetKernelCall fuel opaque p with
  | None => None
  | Some (Ret kernel_call, p1) =>
      match call_heap p1 !! kernel_call with
      | None => Some (UB InvalidPointer, p1)
      | Some obj =>
          let '(r, s') :=
            KernelCallBase_Launch (Heap kernel_call) stream buffers
              (obj, world p1) in
          Some (r, {| kernel_calls := kernel_calls p1;
                      call_heap := <[kernel_call := fst s']> (call_heap p1);
                      world := snd s' |})
      end
  | Some (Fail s, p1) => Some (Fail s, p1)
  | Some (UB u, p1) => Some (UB u, p1)
  end.

(** [TritonKernelCall], lines 503-514.  The result is the failure message
    written to [status], or [None] when [status] is left untouched. *)
Definition TritonKernelCall (fuel : nat) (stream : Z) (buffers : list Z)
    (opaque : list byte) (p : Process)
  : option (Res (option string) * Process) :=
  match lookup_and_launch fuel stream buffers opaque p with
  | None => None
  | Some (Ret _, p') => Some (Ret (report_failure OkStatus), p')
  | Some (Fail result, p') => Some (Ret (report_failure result), p')
  | Some (UB u, p') => Some (UB u, p')
  end.

(** Every pointer that the map hands out points into the heap, and no two
    payloads share an object. *)
Definition Process_wf (p : Process) : Prop :=
  (forall k it, kernel_calls p !! k = Some it ->
                (it < length (call_heap p))%nat)
  /\ (forall k1 k2 it, kernel_calls p !! k1 = Some it ->
                       kernel_calls p !! k2 = Some it -> k1 = k2).

(** The process at start: nothing decoded yet. *)
Definition new_process (w : World) : Process :=
  {| kernel_calls := ∅; call_heap := []; world := w |}.

End EntryPoint.

Arguments Process {F32}.


(** The warp count of a config's record is small enough for the 32-bit
    product of [Kernel::Kernel] not to wrap. *)
Definition small_num_warps (cfg : Proto.TritonAutotunedKernelCall_Config)
  : Prop :=
  0 <= Proto.num_warps (Proto.kernel (Proto.kernel_call cfg)) < 2 ^ 27.


(** The object has passed its tuning step, if it has one. *)
Definition settled (obj : KernelCallBase) : Prop :=
  match obj with
  | OfKernelCall _ => True
  | OfAutotunedKernelCall a => autotune_once_ a = true
  end.

(** The payload [opaque] is decoded and its object is settled. *)
Definition tuning_settled `{F32 : Float32} (p : Process)
    (opaque : list byte) : Prop :=
  exists it obj,
    kernel_calls p !! opaque = Some it
    /\ call_heap p !! it = Some obj
    /\ settled obj.

(** A parser for examples: a string that starts with 'A' is the record of
    [sample_autotuned], one that starts with 'K' the record of a
    [sample_call], one that starts with 'N' a record with neither kind set;
    nothing else parses. *)
Definition sample_parse (serialized : list byte)
  : option TritonAnyKernelCall :=
  match serialized with
  | b :: _ =>
      if decide (b = Byte.x41)
      then Some (kAutotunedKernelCall
                   (AutotunedKernelCall_ToProto sample_autotuned))
      else if decide (b = Byte.x4b)
      then Some (kKernelCall (KernelCall_ToProto (sample_call "K" 4)))
      else if decide (b = Byte.x4e) then Some KERNEL_CALL_NOT_SET
      else None
  | [] => None
  end.

(** The message of a driver error in examples. *)
Definition sample_driver_message (rc : CUresult) : string :=
  "CUDA error " +:+ dec_string rc.


Definition is_ctx_push (c : DriverCall) : bool :=
  match c with cuCtxPushCurrent _ => true | _ => false end.

(** An event that leaves the stack of current contexts alone. *)
Definition keeps_context `{F32 : Float32} (e : Event) : Prop :=
  match e with
  | EvDriver c _ => is_ctx_push c || is_ctx_pop c = false
  | _ => True
  end.


(** The kernel's image is resolved and holds [function] for [context]:
    nothing is left to compile or to load. *)
Definition loaded_for `{F32 : Float32} (k : Kernel) (w : World)
    (context function : Z) : Prop :=
  exists i img,
    module_image_ k = Some i
    /\ image_heap w !! i = Some img
    /\ mi_functions_ img !! context = Some function.


(** A process that holds one image, loaded into context 0 with function
    handle 2, and a kernel that points to it. *)
Definition world_with_function `{F32 : Float32} : World :=
  {| trace := []; dev_mem := fun _ => zero_byte;
     module_images := ∅; key_views := ∅;
     image_heap := [ {| mi_kernel_name_ := "k";
                        mi_module_image_ := [];
                        mi_shared_mem_bytes_ := 0;
                        mi_modules_ := [1];
                        mi_functions_ := {[ 0 := 2 ]} |} ] |}.

Definition loaded_kernel : Kernel :=
  set_module_image 0 (sample_kernel "k" 4).


(** The argument slots that [params], bound to [bufs], make, in order. *)
Fixpoint args_of (params : list Param) (bufs : list Z) : list Arg :=
  match params with
  | [] => []
  | Array _ _ :: params' =>
      match bufs with
      | [] => []
      | p :: bufs' => ArgBuffer p :: args_of params' bufs'
      end
  | param :: params' => ArgScalar param :: args_of params' bufs
  end.

(** In [m], every buffer bound to an array parameter starts with as many
    zero bytes as the parameter asks for. *)
Fixpoint zero_filled (m : Memory) (params : list Param) (bufs : list Z)
  : Prop :=
  match params with
  | [] => True
  | Array b _ :: params' =>
      match bufs with
      | [] => True
      | p :: bufs' =>
          mem_read m p (Z.to_nat b) = replicate (Z.to_nat b) zero_byte
          /\ zero_filled m params' bufs'
      end
  | _ :: params' => zero_filled m params' bufs
  end.

(** The process differs in its events and objects only, not in device
    memory. *)
Definition same_memory `{F32 : Float32} (w w' : World) : Prop :=
  dev_mem w' = dev_mem w.


Definition is_launch_event `{F32 : Float32} (e : Event) : bool :=
  match e with EvDriver c _ => is_launch c | _ => false end.

(** The number of [cuLaunchKernel] calls among the events. *)
Fixpoint launches `{F32 : Float32} (new : list Event) : nat :=
  match new with
  | [] => 0
  | e :: new' => (if is_launch_event e then 1 else 0) + launches new'
  end.

(** An event that is not a kernel launch. *)
Definition no_launch `{F32 : Float32} (e : Event) : Prop :=
  is_launch_event e = false.


(** An object with a single config and no aliasing. *)
Definition single_autotuned : AutotunedKernelCall :=
  AutotunedKernelCall_new "one" [sample_config "A" 4] [].




(** Device memory changed to zero bytes only. *)
Definition zeroing `{F32 : Float32} (w w' : World) : Prop :=
  forall a, dev_mem w' a = dev_mem w a \/ dev_mem w' a = zero_byte.

(** The event is not a kernel launch that the driver accepted. *)
Definition no_successful_launch `{F32 : Float32} (e : Event) : Prop :=
  match e with
  | EvDriver c rc => is_launch c = true -> rc <> CUDA_SUCCESS
  | _ => True
  end.


Definition is_event_destroy (c : DriverCall) : bool :=
  match c with cuEventDestroy _ => true | _ => false end.

(** The number of calls among the events that [f] selects and that the
    driver accepted. *)
Fixpoint accepted `{F32 : Float32} (f : DriverCall -> bool)
    (new : list Event) : nat :=
  match new with
  | [] => 0
  | EvDriver c rc :: new' =>
      (if f c && bool_decide (rc = CUDA_SUCCESS) then 1 else 0)
      + accepted f new'
  | _ :: new' => accepted f new'
  end.

(** From [w] to [w'] the process created [c] timer events and destroyed
    [d]. *)
Definition timer_events `{F32 : Float32} (w w' : World) (c d : nat) : Prop :=
  exists new,
    trace w' = new ++ trace w
    /\ accepted is_event_create new = c
    /\ accepted is_event_destroy new = d.




(** The process keeps its map of images, the views of the keys and the
    number of its images. *)
Definition same_images `{F32 : Float32} (w w' : World) : Prop :=
  module_images w' = module_images w
  /\ key_views w' = key_views w
  /\ length (image_heap w') = length (image_heap w).



(** The process keeps the views of its keys. *)
Definition views_kept `{F32 : Float32} {T} (s s' : T * World) : Prop :=
  key_views (snd s') = key_views (snd s).


(* ===================================================================== *)
(** * Properties: serialization *)
(* ===================================================================== *)

Lemma Kernel_new_wf name nw shm ptx ttir cc :
  Kernel_wf (Kernel_new name nw shm ptx ttir cc).
Proof.
  unfold Kernel_wf, Kernel_new, wrap32, kNumThreadsPerWarp; simpl.
  split.
  - apply Z.mod_pos_bound. lia.
  - replace (2 ^ 32) with (32 * 2 ^ 27) by reflexivity.
    rewrite Z.rem_mul_r by lia.
    rewrite Z.mod_mul by lia.
    rewrite Z.add_0_l, Z.mul_comm, Z.mod_mul by lia. reflexivity.
Qed.

Lemma Kernel_roundtrip (k : Kernel) :
  Kernel_wf k -> Kernel_FromProto (Kernel_ToProto k) = unresolved k.
Proof.
  intros [Hr Hm]. unfold Kernel_FromProto, Kernel_ToProto, Kernel_new, unresolved.
  simpl. f_equal.
  unfold kNumThreadsPerWarp in *.
  assert (E : block_dim_x_ k / 32 * 32 = block_dim_x_ k).
  { pose proof (Z.div_mod (block_dim_x_ k) 32). lia. }
  rewrite E. unfold wrap32. apply Z.mod_small. exact Hr.
Qed.

Lemma Param_roundtrip (l : list Param) :
  convert_all Param_FromProto (map Param_ToProto l) = Ret l.
Proof.
  induction l as [|p l IH]; simpl; [reflexivity|].
  rewrite IH. destruct p; reflexivity.
Qed.

Lemma KernelCall_roundtrip (c : KernelCall) :
  Kernel_wf (kernel_ c) ->
  KernelCall_FromProto (KernelCall_ToProto c) = Ret (unresolved_call c).
Proof.
  intros Hwf. unfold KernelCall_FromProto, KernelCall_ToProto. simpl.
  rewrite Param_roundtrip, Kernel_roundtrip by exact Hwf.
  destruct c as [k [[g0 g1] g2] ps]. reflexivity.
Qed.

Lemma Config_roundtrip (l : list Config) :
  Forall Config_wf l ->
  convert_all Config_FromProto (map Config_ToProto l)
  = Ret (map unresolved_config l).
Proof.
  induction 1 as [|c l Hc _ IH]; simpl; [reflexivity|].
  unfold Config_FromProto at 1. simpl.
  rewrite KernelCall_roundtrip by exact Hc. rewrite IH. reflexivity.
Qed.

Lemma Alias_roundtrip (l : list (Z * Z * Z)) :
  map Alias_FromProto (map Alias_ToProto l) = l.
Proof.
  induction l as [|[[i o] n] l IH]; simpl; [reflexivity|].
  rewrite IH. reflexivity.
Qed.

(** C9. Encoding a [KernelCall] or an [AutotunedKernelCall] with [ToProto]
    and decoding the record with [FromProto] succeeds and gives the object
    back as the decoder builds objects: the same kernel fields (name, block
    width and so warp count, shared-memory bytes, ptx, ttir, compute
    capability), the same grid, the same ordered parameters, the same
    configs and the same aliasing triples, with no module image resolved
    and the tuning not yet run. *)
Theorem proto_round_trip :
  (forall c : KernelCall,
      Kernel_wf (kernel_ c) ->
      KernelCall_FromProto (KernelCall_ToProto c) = Ret (unresolved_call c))
  /\ (forall a : AutotunedKernelCall,
      Forall Config_wf (configs_ a) ->
      AutotunedKernelCall_FromProto (AutotunedKernelCall_ToProto a)
      = Ret (AutotunedKernelCall_new (name_ a)
               (map unresolved_config (configs_ a))
               (input_output_aliases_ a))).
Proof.
  split.
  - exact KernelCall_roundtrip.
  - intros a Hwf. unfold AutotunedKernelCall_FromProto, AutotunedKernelCall_ToProto.
    simpl. rewrite Config_roundtrip by exact Hwf.
    rewrite Alias_roundtrip. reflexivity.
Qed.

Lemma proto_round_trip_witness :
  (Kernel_wf (kernel_ (sample_call "A" 4)) /\
   KernelCall_FromProto (KernelCall_ToProto (sample_call "A" 4))
   = Ret (unresolved_call (sample_call "A" 4)))
  /\ (Forall Config_wf (configs_ sample_autotuned) /\
      AutotunedKernelCall_FromProto (AutotunedKernelCall_ToProto sample_autotuned)
      = Ret (AutotunedKernelCall_new (name_ sample_autotuned)
               (map unresolved_config (configs_ sample_autotuned))
               (input_output_aliases_ sample_autotuned))).
Proof.
  assert (H1 : Kernel_wf (kernel_ (sample_call "A" 4))).
  { split; [split|]; vm_compute; first [reflexivity | intro; discriminate]. }
  assert (H2 : Forall Config_wf (configs_ sample_autotuned)).
  { repeat constructor; vm_compute; first [reflexivity | intro; discriminate]. }
  split; split.
  - exact H1.
  - exact (proj1 proto_round_trip (sample_call "A" 4) H1).
  - exact H2.
  - exact (proj2 proto_round_trip sample_autotuned H2).
Defined.

(* ===================================================================== *)
(** * Properties: ZlibUncompress *)
(* ===================================================================== *)

Section ZlibProperties.

Variable inflate : list byte -> ZlibFailure + list byte.

(** Doubling reaches the size of the data before the 64-bit length wraps. *)
Lemma ZlibUncompress_loop_grows compressed data :
  inflate compressed = inr data ->
  Z.of_nat (length data) <= 2 ^ 63 ->
  forall (k fuel : nat) (dest_len : Z),
    (k < fuel)%nat ->
    0 < dest_len < 2 ^ 64 ->
    Z.of_nat (length data) <= dest_len * 2 ^ Z.of_nat k ->
    ZlibUncompress_loop inflate fuel compressed dest_len = Some (Ret data).
Proof.
  intros Hin Hlen k. induction k as [|k IH]; intros fuel dest_len Hk Hd Hfit.
  - destruct fuel as [|fuel]; [lia|]. simpl. unfold uncompress. rewrite Hin.
    destruct (decide (Z.of_nat (length data) <= dest_len)) as [_|Hn];
      [reflexivity|]. exfalso. apply Hn. simpl in Hfit. lia.
  - destruct fuel as [|fuel]; [lia|]. simpl. unfold uncompress. rewrite Hin.
    destruct (decide (Z.of_nat (length data) <= dest_len)) as [_|Hn];
      [reflexivity|].
    assert (Hsmall : wrap64 (dest_len * 2) = dest_len * 2).
    { unfold wrap64. apply Z.mod_small. lia. }
    rewrite Hsmall. apply IH; [lia|lia|].
    rewrite Nat2Z.inj_succ, Z.pow_succ_r in Hfit by lia. lia.
Qed.

(** C8. When the input is a complete zlib stream, [ZlibUncompress] returns
    the whole uncompressed data, however far its first guess of five times
    the compressed size falls short: each buffer-too-small report doubles
    the size and retries, and 64 rounds are enough.  When the decoder
    reports any other error, the result is the parse failure, an
    [InvalidArgumentError] with the message "Failed to uncompress opaque
    data.". *)
Theorem ZlibUncompress_grows_until_success (compressed : list byte) :
  (forall data,
      inflate compressed = inr data ->
      (0 < length compressed)%nat ->
      5 * Z.of_nat (length compressed) < 2 ^ 64 ->
      Z.of_nat (length data) <= 2 ^ 63 ->
      forall fuel, (64 <= fuel)%nat ->
        ZlibUncompress inflate fuel compressed = Some (Ret data))
  /\ (forall e fuel,
      inflate compressed = inl e ->
      ZlibUncompress inflate (S fuel) compressed
      = Some (Fail (InvalidArgumentError "Failed to uncompress opaque data."))).
Proof.
  split.
  - intros data Hin Hpos Hsrc Hlen fuel Hfuel. unfold ZlibUncompress.
    assert (Hsmall : wrap64 (5 * Z.of_nat (length compressed))
                     = 5 * Z.of_nat (length compressed)).
    { unfold wrap64. apply Z.mod_small. lia. }
    rewrite Hsmall.
    apply (ZlibUncompress_loop_grows compressed data Hin Hlen 63 fuel);
      [lia|lia|].
    change (2 ^ Z.of_nat 63) with (2 ^ 63). lia.
  - intros e fuel Hin. unfold ZlibUncompress. simpl. unfold uncompress.
    rewrite Hin. destruct e; reflexivity.
Qed.

End ZlibProperties.

Lemma ZlibUncompress_grows_until_success_witness :
  ZlibUncompress run_inflate 64 [Byte.x41]
  = Some (Ret (replicate 100 Byte.x41))
  /\ ZlibUncompress run_inflate 1 []
     = Some (Fail (InvalidArgumentError "Failed to uncompress opaque data.")).
Proof.
  split.
  - apply (proj1 (ZlibUncompress_grows_until_success run_inflate [Byte.x41])
             (replicate 100 Byte.x41)).
    + reflexivity.
    + simpl. lia.
    + vm_compute. reflexivity.
    + vm_compute. intro; discriminate.
    + lia.
  - apply (proj2 (ZlibUncompress_grows_until_success run_inflate [])
             DataError 0%nat).
    reflexivity.
Defined.

(** The first guess of 5 bytes is too small for 100 bytes of data: five
    rounds (5, 10, 20, 40, 80 bytes) end with a buffer-too-small report,
    the sixth (160 bytes) succeeds. *)
Example ZlibUncompress_six_rounds :
  ZlibUncompress run_inflate 5 [Byte.x41] = None
  /\ ZlibUncompress run_inflate 6 [Byte.x41]
     = Some (Ret (replicate 100 Byte.x41)).
Proof. split; vm_compute; reflexivity. Qed.

(* ===================================================================== *)
(** * Properties: the selection loop *)
(* ===================================================================== *)

Section SelectionProperties.

Context `{F32 : Float32}.
Local Open Scope nat_scope.

Lemma swap_with_first_length {A} (i : nat) (cs : list A) :
  length (swap_with_first i cs) = length cs.
Proof.
  unfold swap_with_first.
  destruct (cs !! i), (cs !! 0); rewrite ?length_insert; reflexivity.
Qed.

Lemma swap_with_first_head {A} (i : nat) (cs : list A) :
  i < length cs -> swap_with_first i cs !! 0 = cs !! i.
Proof.
  intros Hi. unfold swap_with_first.
  destruct (lookup_lt_is_Some_2 cs i Hi) as [ci Hci].
  assert (H0 : 0 < length cs) by lia.
  destruct (lookup_lt_is_Some_2 cs 0 H0) as [c0 Hc0].
  rewrite Hci, Hc0.
  rewrite list_lookup_insert_eq by (rewrite length_insert; lia). reflexivity.
Qed.

Lemma swap_with_first_other {A} (i j : nat) (cs : list A) :
  j <> 0 -> j <> i -> swap_with_first i cs !! j = cs !! j.
Proof.
  intros H0 Hi. unfold swap_with_first.
  destruct (cs !! i), (cs !! 0); try reflexivity.
  rewrite list_lookup_insert_ne by lia.
  rewrite list_lookup_insert_ne by lia. reflexivity.
Qed.

(** What holds before round [i]: slot 0 holds the original element [m],
    the slots from [i] on are untouched, and [best] is a lower bound of
    the times seen, equivalent to the time of [m] and strictly below every
    time before [m]. *)
Record selecting {A} (all : list float) (cs0 cs : list A) (i : nat)
    (best : float) (m : nat) : Prop := {
  sel_length : length cs = length cs0;
  sel_head : cs !! 0 = cs0 !! m;
  sel_range : m < Nat.max i 1;
  sel_rest : forall j, i <= j -> cs !! j = cs0 !! j;
  sel_not_nan : float_is_nan best = false;
  sel_lower : forall j tj, j < i -> all !! j = Some tj ->
                           float_ltb tj best = false;
  sel_earliest : forall j tj, j < m -> all !! j = Some tj ->
                              float_ltb best tj = true;
  sel_attained : forall tm, 0 < i -> all !! m = Some tm ->
                            float_ltb tm best = false /\
                            float_ltb best tm = false;
  sel_initial : i = 0 -> best = float_infinity
}.

Lemma selecting_start {A} (all : list float) (cs0 : list A) :
  selecting all cs0 cs0 0 float_infinity 0.
Proof.
  constructor; try (intros; lia); auto.
  apply float_infinity_not_nan.
Qed.

Lemma selecting_step {A} (all : list float) (cs0 cs : list A) i best m t :
  length all = length cs0 ->
  (forall j tj, all !! j = Some tj -> float_is_nan tj = false) ->
  all !! i = Some t ->
  selecting all cs0 cs i best m ->
  if float_ltb t best
  then selecting all cs0 (swap_with_first i cs) (S i) t i
  else selecting all cs0 cs (S i) best m.
Proof.
  intros Hlen Hnan Hi [L H R T N Lo E At In].
  assert (Hilt : i < length cs).
  { apply lookup_lt_Some in Hi. lia. }
  destruct (float_ltb t best) eqn:Hlt.
  - constructor.
    + rewrite swap_with_first_length. exact L.
    + rewrite swap_with_first_head by exact Hilt. apply T. lia.
    + lia.
    + intros j Hj. rewrite swap_with_first_other by lia. apply T. lia.
    + exact (Hnan _ _ Hi).
    + intros j tj Hj Hjt.
      destruct (decide (j = i)) as [->|Hne].
      * rewrite Hi in Hjt. injection Hjt as <-. apply float_ltb_irrefl.
      * destruct (float_ltb tj t) eqn:Hc; [|reflexivity].
        rewrite <- (Lo j tj); [|lia|exact Hjt].
        symmetry. eapply float_ltb_trans; eassumption.
    + intros j tj Hj Hjt.
      destruct (float_ltb_total t tj best (Hnan _ _ Hjt) Hlt) as [Hc|Hc];
        [exact Hc|].
      rewrite (Lo j tj) in Hc; [discriminate|lia|exact Hjt].
    + intros tm _ Hm. rewrite Hi in Hm. injection Hm as <-.
      split; apply float_ltb_irrefl.
    + intros; lia.
  - constructor; auto.
    + lia.
    + intros j Hj. apply T. lia.
    + intros j tj Hj Hjt.
      destruct (decide (j = i)) as [->|Hne].
      * rewrite Hi in Hjt. injection Hjt as <-. exact Hlt.
      * apply (Lo j tj); [lia|exact Hjt].
    + intros tm _ Hm.
      destruct (decide (i = 0)) as [->|Hpos].
      * assert (m = 0) by lia. subst m.
        rewrite Hi in Hm. injection Hm as <-.
        split; [exact Hlt|].
        rewrite (In eq_refl). apply float_infinity_max.
      * apply At; [lia|exact Hm].
    + intros; lia.
Qed.

Lemma select_loop_selecting {A} (all : list float) (cs0 : list A) :
  length all = length cs0 ->
  (forall j tj, all !! j = Some tj -> float_is_nan tj = false) ->
  forall rest i best cs m,
    drop i all = rest -> i <= length all ->
    selecting all cs0 cs i best m ->
    exists best' m',
      selecting all cs0 (select_loop rest i best cs) (length all) best' m'.
Proof.
  intros Hlen Hnan rest.
  induction rest as [|t rest IH]; intros i best cs m Hdrop Hi Hsel.
  - assert (i = length all).
    { apply (f_equal length) in Hdrop. rewrite length_drop in Hdrop.
      simpl in Hdrop. lia. }
    subst i. exists best, m. exact Hsel.
  - assert (Ht : all !! i = Some t).
    { pose proof (lookup_drop all i 0) as E. rewrite Hdrop in E.
      simpl in E. rewrite Nat.add_0_r in E. symmetry. exact E. }
    assert (Hrest : drop (S i) all = rest).
    { replace (S i) with (i + 1) by lia. rewrite <- drop_drop, Hdrop.
      reflexivity. }
    pose proof (lookup_lt_Some _ _ _ Ht) as Hlt.
    pose proof (selecting_step all cs0 cs i best m t Hlen Hnan Ht Hsel) as St.
    simpl. destruct (float_ltb t best).
    + apply (IH (S i) t _ i Hrest); [lia|exact St].
    + apply (IH (S i) best _ m Hrest); [lia|exact St].
Qed.

Lemma earliest_minimum_unique (ts : list float) (i i' : nat) :
  earliest_minimum ts i -> earliest_minimum ts i' -> i = i'.
Proof.
  intros (ti & Hi & Hmin & Hbefore) (ti' & Hi' & Hmin' & Hbefore').
  destruct (Nat.lt_trichotomy i i') as [Hlt|[Heq|Hlt]]; [|exact Heq|].
  - pose proof (Hbefore' i ti Hlt Hi) as H1.
    rewrite (Hmin i' ti' Hi') in H1. discriminate.
  - pose proof (Hbefore i' ti' Hlt Hi') as H1.
    rewrite (Hmin' i ti Hi) in H1. discriminate.
Qed.


(** The loop leaves in slot 0 the element at an index that holds an
    earliest minimum of the times. *)
Lemma select_loop_minimum {A} (cs : list A) (ts : list float) :
  length ts = length cs ->
  cs <> [] ->
  (forall j tj, ts !! j = Some tj -> float_is_nan tj = false) ->
  exists i,
    earliest_minimum ts i
    /\ select_loop ts 0 float_infinity cs !! 0 = cs !! i
    /\ length (select_loop ts 0 float_infinity cs) = length cs.
Proof.
  intros Hlen Hne Hnan.
  destruct (select_loop_selecting ts cs Hlen Hnan ts 0 float_infinity cs 0)
    as (best & m & [L H R T N Lo E At In]).
  { reflexivity. }
  { lia. }
  { apply selecting_start. }
  assert (Hpos : 0 < length ts).
  { rewrite Hlen. destruct cs; [congruence|simpl; lia]. }
  assert (Hm : m < length ts) by lia.
  destruct (lookup_lt_is_Some_2 ts m Hm) as [tm Htm].
  destruct (At tm Hpos Htm) as [A1 A2].
  assert (Hmin : earliest_minimum ts m).
  { exists tm. split; [exact Htm|]. split.
    - intros j tj Hj.
      destruct (float_ltb tj tm) eqn:Hc; [|reflexivity].
      destruct (float_ltb_total tj best tm N Hc) as [Hd|Hd].
      + rewrite (Lo j tj) in Hd; [discriminate| |exact Hj].
        apply lookup_lt_Some in Hj. exact Hj.
      + rewrite A2 in Hd. discriminate.
    - intros j tj Hj Hjt.
      pose proof (E j tj Hj Hjt) as Hb.
      destruct (float_ltb_total best tm tj (Hnan _ _ Htm) Hb) as [Hd|Hd].
      + rewrite A2 in Hd. discriminate.
      + exact Hd. }
  exists m. split; [exact Hmin|]. split; [exact H|exact L].
Qed.


(** C5. For every non-empty list of configs and every list of phase-2
    times, one per config and none of them a NaN, the loop that swaps the
    current config into slot 0 whenever its time is strictly below the
    running best leaves in slot 0 the config that minimum-by-time with
    earliest-index tie-break selects: the config at the one index whose
    time no time is below and whose predecessors all have strictly larger
    times. *)
Theorem select_loop_earliest_minimum {A} (cs : list A) (ts : list float) :
  length ts = length cs ->
  cs <> [] ->
  (forall j tj, ts !! j = Some tj -> float_is_nan tj = false) ->
  exists i,
    earliest_minimum ts i
    /\ (forall i', earliest_minimum ts i' -> i' = i)
    /\ select_loop ts 0 float_infinity cs !! 0 = cs !! i
    /\ length (select_loop ts 0 float_infinity cs) = length cs.
Proof.
  intros Hlen Hne Hnan.
  destruct (select_loop_minimum cs ts Hlen Hne Hnan) as (m & Hmin & H & L).
  exists m. split; [exact Hmin|]. split; [|split].
  - intros i' Hi'. exact (earliest_minimum_unique ts i' m Hi' Hmin).
  - exact H.
  - exact L.
Qed.

End SelectionProperties.

Lemma select_loop_earliest_minimum_witness :
  exists i : nat,
    earliest_minimum sample_times i
    /\ (forall i', earliest_minimum sample_times i' -> i' = i)
    /\ select_loop sample_times 0 float_infinity ["A"; "B"; "C"] !! 0%nat
       = ["A"; "B"; "C"] !! i
    /\ length (select_loop sample_times 0 float_infinity ["A"; "B"; "C"])
       = length ["A"; "B"; "C"].
Proof.
  apply (select_loop_earliest_minimum ["A"; "B"; "C"] sample_times).
  - reflexivity.
  - discriminate.
  - intros [|[|[|j]]] tj Hj; vm_compute in Hj; try discriminate;
      injection Hj as <-; reflexivity.
Defined.

(** Times 5, 3, 3 for A, B, C: B, the earlier of the two fastest, ends in
    slot 0. *)
Example select_loop_tie :
  select_loop sample_times 0 float_infinity ["A"; "B"; "C"]
  = ["B"; "A"; "C"].
Proof. reflexivity. Qed.

(* ===================================================================== *)
(** * Properties: the assembly cache *)
(* ===================================================================== *)

Section CacheProperties.

Context `{F32 : Float32} (orc : Oracle).

Lemma views_valid_spec (w : World) :
  views_valid w = true
  <-> forall key v, key_views w !! key = Some v -> stored_valid v = true.
Proof. unfold views_valid. rewrite bool_decide_eq_true. reflexivity. Qed.

Lemma views_valid_insert (w : World) key p :
  views_valid w = true ->
  views_valid
    (set_key_views
       (<[key := {| stored_string := p; stored_valid := true |}]>
          (key_views w)) w) = true.
Proof.
  rewrite !views_valid_spec. intros Hw key' v. cbn [key_views set_key_views].
  destruct (decide (key' = key)) as [->|Hne].
  - rewrite lookup_insert_eq. intros [= <-]. reflexivity.
  - rewrite lookup_insert_ne by congruence. apply Hw.
Qed.









End CacheProperties.



(* ===================================================================== *)
(** * Running the monad *)
(* ===================================================================== *)

Section Running.

Context `{F32 : Float32} (orc : Oracle).

Lemma bind_Ret {S A B} (m : M S A) (k : A -> M S B) s a s1 :
  m s = (Ret a, s1) -> bind m k s = k a s1.
Proof. intros E. unfold bind. rewrite E. reflexivity. Qed.

Lemma bind_Fail {S A B} (m : M S A) (k : A -> M S B) s e s1 :
  m s = (Fail e, s1) -> bind m k s = (Fail e, s1).
Proof. intros E. unfold bind. rewrite E. reflexivity. Qed.

Lemma bind_UB {S A B} (m : M S A) (k : A -> M S B) s u s1 :
  m s = (UB u, s1) -> bind m k s = (UB u, s1).
Proof. intros E. unfold bind. rewrite E. reflexivity. Qed.

(** A sequence returns a value only if both parts do. *)
Lemma bind_Ret_inv {S A B} (m : M S A) (k : A -> M S B) s b s' :
  bind m k s = (Ret b, s') ->
  exists a s1, m s = (Ret a, s1) /\ k a s1 = (Ret b, s').
Proof.
  unfold bind. destruct (m s) as [[a|e|u] s1]; intros E;
    [eauto | discriminate | discriminate].
Qed.

Lemma bind_assoc {S A B C} (m : M S A) (f : A -> M S B) (g : B -> M S C) s :
  bind (bind m f) g s = bind m (fun a => bind (f a) g) s.
Proof. unfold bind. destruct (m s) as [[a|e|u] s1]; reflexivity. Qed.

Lemma bind_ret_l {S A B} (a : A) (k : A -> M S B) s :
  bind (ret a) k s = k a s.
Proof. reflexivity. Qed.

Lemma bind_fail_l {S A B} (e : Status) (k : A -> M S B) s :
  bind (fail e) k s = (Fail e, s).
Proof. reflexivity. Qed.

Lemma bind_undefined_l {S A B} (u : Undefined) (k : A -> M S B) s :
  bind (undefined u) k s = (UB u, s).
Proof. reflexivity. Qed.

Lemma bind_get_l {S B} (k : S -> M S B) s :
  bind get k s = k s s.
Proof. reflexivity. Qed.

Lemma bind_modify_l {S B} (f : S -> S) (k : unit -> M S B) s :
  bind (modify f) k s = k tt (f s).
Proof. reflexivity. Qed.

Lemma trace_unchecked c (w : World) :
  trace (unchecked orc c w)
  = EvDriver c (drv_result orc (length (trace w)) c) :: trace w.
Proof. reflexivity. Qed.

Lemma module_images_unchecked c (w : World) :
  module_images (unchecked orc c w) = module_images w.
Proof. reflexivity. Qed.

Lemma image_heap_unchecked c (w : World) :
  image_heap (unchecked orc c w) = image_heap w.
Proof. reflexivity. Qed.

Lemma dev_mem_unchecked c (w : World) :
  dev_mem (unchecked orc c w)
  = if decide (drv_result orc (length (trace w)) c = CUDA_SUCCESS)
    then effect orc (length (trace w)) c (dev_mem w)
    else dev_mem w.
Proof. reflexivity. Qed.

(** Invalidating views changes nothing else in the process. *)
Lemma trace_erase_invalidates self n (w : World) :
  trace (erase_invalidates self n w) = trace w.
Proof.
  unfold erase_invalidates. induction (seq 1 (n - 1)) as [|i l IH];
    [reflexivity|exact IH].
Qed.

Lemma dev_mem_erase_invalidates self n (w : World) :
  dev_mem (erase_invalidates self n w) = dev_mem w.
Proof.
  unfold erase_invalidates. induction (seq 1 (n - 1)) as [|i l IH];
    [reflexivity|exact IH].
Qed.

Lemma module_images_erase_invalidates self n (w : World) :
  module_images (erase_invalidates self n w) = module_images w.
Proof.
  unfold erase_invalidates. induction (seq 1 (n - 1)) as [|i l IH];
    [reflexivity|exact IH].
Qed.

Lemma image_heap_erase_invalidates self n (w : World) :
  image_heap (erase_invalidates self n w) = image_heap w.
Proof.
  unfold erase_invalidates. induction (seq 1 (n - 1)) as [|i l IH];
    [reflexivity|exact IH].
Qed.

(** A checked driver call: the call is issued, and its result decides. *)
Lemma CUDA_RETURN_IF_ERROR_eq c (w : World) :
  CUDA_RETURN_IF_ERROR orc c w
  = (if decide (drv_result orc (length (trace w)) c = CUDA_SUCCESS)
     then Ret (length (trace w))
     else Fail (DriverError (drv_result orc (length (trace w)) c)),
     unchecked orc c w).
Proof.
  unfold CUDA_RETURN_IF_ERROR, unchecked, issue, JAX_AS_STATUS. simpl.
  destruct (decide (drv_result orc (length (trace w)) c = CUDA_SUCCESS));
    reflexivity.
Qed.

Lemma CUDA_RETURN_IF_ERROR_ok c (w : World) :
  drv_result orc (length (trace w)) c = CUDA_SUCCESS ->
  CUDA_RETURN_IF_ERROR orc c w = (Ret (length (trace w)), unchecked orc c w).
Proof.
  intros E. rewrite CUDA_RETURN_IF_ERROR_eq.
  destruct (decide _); [reflexivity|contradiction].
Qed.

Lemma with_out_ok c (w : World) :
  drv_result orc (length (trace w)) c = CUDA_SUCCESS ->
  with_out orc c w = (Ret (drv_out orc (length (trace w)) c), unchecked orc c w).
Proof.
  intros E. unfold with_out.
  rewrite (bind_Ret _ _ _ _ _ (CUDA_RETURN_IF_ERROR_ok c w E)). reflexivity.
Qed.

Lemma CUDA_RETURN_IF_ERROR_Ret_inv c (w : World) n w' :
  CUDA_RETURN_IF_ERROR orc c w = (Ret n, w') ->
  drv_result orc (length (trace w)) c = CUDA_SUCCESS
  /\ n = length (trace w) /\ w' = unchecked orc c w.
Proof.
  rewrite CUDA_RETURN_IF_ERROR_eq. destruct (decide _); intros E;
    [injection E as <- <-; auto | discriminate].
Qed.

End Running.

(* ===================================================================== *)
(** * Properties: the function loader *)
(* ===================================================================== *)

Section LoaderProperties.

Context `{F32 : Float32} (orc : Oracle).

Lemma bind_CUDA {B} c (k : nat -> M World B) (w : World) :
  bind (CUDA_RETURN_IF_ERROR orc c) k w
  = if decide (drv_result orc (length (trace w)) c = CUDA_SUCCESS)
    then k (length (trace w)) (unchecked orc c w)
    else (Fail (DriverError (drv_result orc (length (trace w)) c)),
          unchecked orc c w).
Proof.
  unfold bind. rewrite CUDA_RETURN_IF_ERROR_eq.
  destruct (decide _); reflexivity.
Qed.

Lemma bind_with_out {B} c (k : Z -> M World B) (w : World) :
  bind (with_out orc c) k w
  = if decide (drv_result orc (length (trace w)) c = CUDA_SUCCESS)
    then k (drv_out orc (length (trace w)) c) (unchecked orc c w)
    else (Fail (DriverError (drv_result orc (length (trace w)) c)),
          unchecked orc c w).
Proof.
  unfold with_out, bind. rewrite CUDA_RETURN_IF_ERROR_eq.
  destruct (decide _); reflexivity.
Qed.

Lemma with_cleanup_eq {S A} (c : S -> S) (m : M S A) s :
  with_cleanup c m s = (fst (m s), c (snd (m s))).
Proof. unfold with_cleanup. destruct (m s). reflexivity. Qed.





End LoaderProperties.



(** A kernel that needs 60000 bytes is loaded, and its dynamic
    shared-memory attribute is raised to 65536 bytes. *)
Example GetFunctionForContext_configures :
  let '(r, w') := GetFunctionForContext plain_oracle 0 7
                    (world_with_image 60000) in
  r = Ret 2
  /\ trace w' !! 1%nat
     = Some (EvDriver
               (cuFuncSetAttribute 2 MAX_DYNAMIC_SHARED_SIZE_BYTES 65536)
               CUDA_SUCCESS).
Proof. vm_compute. split; reflexivity. Qed.

(** On a device that reports the least [int] as the static size of the
    function, the difference 65536 - (-2^31) is no [int]: the call is
    undefined, and no attribute is set. *)
Example GetFunctionForContext_overflow :
  fst (GetFunctionForContext least_static_oracle 0 7 (world_with_image 60000))
  = UB SignedOverflow.
Proof. vm_compute. reflexivity. Qed.

(* ===================================================================== *)
(** * Properties: alignment check of KernelCall::Launch *)
(* ===================================================================== *)

Section AlignmentProperties.

Context `{F32 : Float32} (orc : Oracle).

Lemma liftW_eq {T A} (m : M World A) (t : T) (w : World) :
  liftW m (t, w) = (fst (m w), (t, snd (m w))).
Proof. unfold liftW, zoom. simpl. destruct (m w). reflexivity. Qed.

(** A scalar parameter takes no buffer and issues no call. *)
Lemma bind_parameter_scalar stream (i : nat) p bufs acc (w : World) :
  (forall b d, p <> Array b d) ->
  bind_parameter orc stream (i, p) (bufs, acc) w
  = (Ret (bufs, acc ++ [ArgScalar p]), w).
Proof.
  intros Hp. destruct p as [b d| | | | |]; try reflexivity.
  exfalso. exact (Hp b d eq_refl).
Qed.

(** The marshaling loop up to the first parameter whose buffer address
    violates its alignment: zero-fills of earlier parameters, then the
    refusal, unless one of the zero-fills fails first. *)
Lemma bind_parameter_loop_misaligned stream btz div post ptr brest :
  div <> 0 -> ptr mod div <> 0 ->
  forall pre bpre (i : nat) acc (w : World) r w',
    aligned_prefix pre bpre ->
    for_each (zip (seq i (length (pre ++ Array btz div :: post)))
                  (pre ++ Array btz div :: post))
      (bpre ++ ptr :: brest, acc) (bind_parameter orc stream) w = (r, w') ->
    exists new k,
      trace w' = new ++ trace w
      /\ Forall2 calls (rev new) (take k (memsets_of stream pre bpre))
      /\ ((r = Fail (InvalidArgumentError
                       (not_divisible_message (i + length pre) ptr div))
           /\ k = length (memsets_of stream pre bpre))
          \/ (exists n c, drv_result orc n c <> CUDA_SUCCESS
                          /\ r = Fail (DriverError (drv_result orc n c)))).
Proof.
  intros Hdiv Hmod pre.
  induction pre as [|p pre IH]; intros bpre i acc w r w' Hal.
  - simpl in Hal. subst bpre.
    cbn [app length seq zip_with for_each].
    unfold bind_parameter at 1. cbv beta iota.
    destruct (decide (div <> 0 /\ ptr mod div <> 0)) as [_|Hn];
      [|exfalso; apply Hn; auto].
    rewrite bind_fail_l. intros [= <- <-].
    exists [], 0%nat. simpl. split; [reflexivity|]. split; [constructor|].
    left. rewrite Nat.add_0_r. auto.
  - cbn [app length seq zip_with for_each].
    replace (i + S (length pre))%nat with (S i + length pre)%nat by lia.
    assert (Hcase : (exists b d, p = Array b d)
                    \/ (forall b d, p <> Array b d)).
    { destruct p; try (right; intros; discriminate). left. eauto. }
    destruct Hcase as [(b & d & ->)|Hp'].
    + destruct bpre as [|q bpre]; [contradiction|].
      destruct Hal as [Hq Hal].
      unfold bind_parameter at 1. cbv beta iota. cbn [app].
      destruct (decide (d <> 0 /\ q mod d <> 0)) as [[Hd Hqm]|_];
        [destruct Hq; contradiction|].
      cbn [memsets_of].
      destruct (decide (b > 0)) as [Hb|Hb].
      * rewrite !bind_assoc, bind_CUDA.
        destruct (decide (drv_result orc _ _ = CUDA_SUCCESS)) as [E1|E1].
        -- rewrite !bind_ret_l. intros Hrun.
           destruct (IH _ _ _ _ _ _ Hal Hrun) as (new & k & Ht & Hf & Hr).
           exists (new ++ [EvDriver (cuMemsetD8Async q zero_byte b stream)
                             CUDA_SUCCESS]), (S k).
           split; [rewrite Ht, trace_unchecked, E1, <- app_assoc; reflexivity|].
           split.
           { rewrite rev_app_distr. simpl.
             constructor; [eexists; reflexivity|]. exact Hf. }
           destruct Hr as [[Hr ->]|Hr]; [left|right; exact Hr].
           split; [exact Hr|reflexivity].
        -- intros [= <- <-].
           exists [EvDriver (cuMemsetD8Async q zero_byte b stream)
                     (drv_result orc (length (trace w))
                        (cuMemsetD8Async q zero_byte b stream))], 1%nat.
           rewrite trace_unchecked.
           split; [reflexivity|]. split.
           { simpl. constructor; [eexists; reflexivity|].
             rewrite take_0. constructor. }
           right. eauto.
      * rewrite !bind_assoc, !bind_ret_l. intros Hrun.
        exact (IH _ _ _ _ _ _ Hal Hrun).
    + unfold bind at 1. rewrite (bind_parameter_scalar _ _ _ _ _ _ Hp').
      intros Hrun.
      assert (Hal' : aligned_prefix pre bpre).
      { destruct p; try exact Hal. exfalso. eapply Hp'. reflexivity. }
      assert (Hms : memsets_of stream (p :: pre) bpre
                    = memsets_of stream pre bpre).
      { destruct p; try reflexivity. exfalso. eapply Hp'. reflexivity. }
      rewrite Hms. exact (IH _ _ _ _ _ _ Hal' Hrun).
Qed.

Lemma memsets_of_memset stream params bufs :
  Forall (fun c => is_memset c = true) (memsets_of stream params bufs).
Proof.
  revert bufs. induction params as [|p params IH]; intros bufs; simpl.
  - constructor.
  - destruct p; auto. destruct bufs as [|q bufs]; [constructor|].
    apply Forall_app. split; [|apply IH].
    destruct (decide _); repeat constructor.
Qed.

(** C3, as the code has it.  When the buffer address bound to an array
    parameter with a nonzero divisor is not a multiple of the divisor, and
    the array parameters before it are aligned, [KernelCall::Launch] fails:
    with the [InvalidArgumentError] that names the index of the parameter,
    the address and the divisor, unless the zero-fill of an earlier
    parameter fails first with its driver error.  The launch issues no
    kernel launch and no call for that parameter or a later one: what it
    has issued are zero-fills of earlier parameters, in order. *)
Theorem KernelCall_Launch_misaligned {self : Place}
    (stream : Z) (kc : KernelCall)
    (buffers : list Z) (w : World) pre btz div post bpre ptr brest :
  parameters_ kc = pre ++ Array btz div :: post ->
  buffers = bpre ++ ptr :: brest ->
  aligned_prefix pre bpre ->
  div <> 0 ->
  ptr mod div <> 0 ->
  forall r kc' w',
    KernelCall_Launch orc self stream buffers (kc, w) = (r, (kc', w')) ->
    kc' = kc
    /\ exists new k,
        trace w' = new ++ trace w
        /\ Forall2 calls (rev new) (take k (memsets_of stream pre bpre))
        /\ Forall (fun e => exists c rc, e = EvDriver c rc
                                        /\ is_memset c = true
                                        /\ is_launch c = false) new
        /\ ((r = Fail (InvalidArgumentError
                         (not_divisible_message (length pre) ptr div))
             /\ k = length (memsets_of stream pre bpre))
            \/ (exists n c, drv_result orc n c <> CUDA_SUCCESS
                            /\ r = Fail (DriverError (drv_result orc n c))))
        /\ (all_calls_succeed orc ->
            r = Fail (InvalidArgumentError
                        (not_divisible_message (length pre) ptr div))).
Proof.
  intros Hparams -> Hal Hdiv Hmod r kc' w'.
  unfold KernelCall_Launch. rewrite bind_get_l. cbn [fst].
  unfold bind at 1. rewrite liftW_eq. unfold indexed. rewrite Hparams.
  destruct (for_each _ _ _ w) as [r1 w1] eqn:Hloop. cbn [fst snd].
  destruct (bind_parameter_loop_misaligned stream btz div post ptr brest
              Hdiv Hmod pre bpre 0%nat [] w r1 w1 Hal Hloop)
    as (new & k & Ht & Hf & Hr).
  cbn [Nat.add] in Hr.
  assert (Hfail : exists e, r1 = Fail e).
  { destruct Hr as [[-> _]|(n & c & _ & ->)]; eauto. }
  destruct Hfail as [e ->]. intros [= <- <- <-].
  split; [reflexivity|]. exists new, k.
  split; [exact Ht|]. split; [exact Hf|]. split; [|split].
  - rewrite <- (rev_involutive new). apply Forall_rev.
    pose proof (memsets_of_memset stream pre bpre) as Hm.
    assert (Hm' : Forall (fun c => is_memset c = true)
                    (take k (memsets_of stream pre bpre))).
    { apply Forall_take. exact Hm. }
    clear -Hf Hm'. induction Hf as [|ev c evs cs [rc ->] _ IH];
      [constructor|].
    inversion Hm' as [|? ? Hc Hcs]; subst.
    constructor; [|apply IH; exact Hcs].
    exists c, rc. split; [reflexivity|]. split; [exact Hc|].
    destruct c; simpl in Hc |- *; congruence.
  - destruct Hr as [[[= ->] Hk]|(n & c & Hne & [= ->])];
      [left; auto|right; eauto].
  - intros Hall. destruct Hr as [[[= ->] _]|(n & c & Hne & _)];
      [reflexivity|].
    contradiction (Hne (Hall n c)).
Qed.

End AlignmentProperties.

Lemma KernelCall_Launch_misaligned_witness :
  exists r w',
    KernelCall_Launch plain_oracle (Heap 0) 5 [256; 257]
        (two_array_call, initial_world)
    = (r, (two_array_call, w'))
    /\ r = Fail (InvalidArgumentError
                   (not_divisible_message 2 257 16))
    /\ exists new, trace w' = new ++ trace initial_world
                   /\ Forall2 calls (rev new)
                        [cuMemsetD8Async 256 zero_byte 64 5].
Proof.
  destruct (KernelCall_Launch plain_oracle (Heap 0) 5 [256; 257]
              (two_array_call, initial_world)) as [r [kc' w']] eqn:E.
  destruct
      (KernelCall_Launch_misaligned (self := Heap 0) plain_oracle 5
      two_array_call
              [256; 257] initial_world [Array 64 0; PI32 7] 0 16 [] [256]
              257 [] eq_refl eq_refl
              ltac:(simpl; auto) ltac:(discriminate)
              ltac:(vm_compute; discriminate) r kc' w' E)
    as (-> & new & k & Ht & Hf & _ & Hr & Hall).
  exists r, w'. split; [reflexivity|].
  split; [apply Hall; intros ? ?; reflexivity|].
  exists new. split; [exact Ht|].
  destruct Hr as [[_ ->]|(n & c & Hne & _)]; [exact Hf|].
  exfalso. apply Hne. reflexivity.
Defined.

(** The third parameter of [two_array_call] is an array with divisor 16,
    bound to the address 257.  The launch is refused with the message that
    names the parameter, the address and the divisor, but a device call has
    been issued by then: the zero-fill of the first parameter. *)
Lemma KernelCall_Launch_misaligned_after_memset :
  let '(r, (_, w')) :=
    KernelCall_Launch plain_oracle (Heap 0) 5 [256; 257]
      (two_array_call, initial_world) in
  parameters_ two_array_call !! 2%nat = Some (Array 0 16)
  /\ 257 mod 16 <> 0
  /\ r = Fail (InvalidArgumentError
                 "Parameter 2 (0x101) is not divisible by 16.")
  /\ trace w' = [EvDriver (cuMemsetD8Async 256 zero_byte 64 5) CUDA_SUCCESS]
  /\ ~ (trace w' = trace initial_world).
Proof.
  vm_compute. repeat split; discriminate.
Qed.

(* ===================================================================== *)
(** * Properties: what a run does to the trace *)
(* ===================================================================== *)

Section RunsRules.

Context `{F32 : Float32} (orc : Oracle).

Lemma runs_Ret {A} P U (w : World) (a : A) : runs P U w (Ret a) w.
Proof.
  exists []. repeat split; auto; try discriminate.
  intros rc e [].
Qed.

Lemma runs_Fail {A} P U (w : World) e :
  e <> OkStatus -> runs P U w (Fail e : Res A) w.
Proof.
  intros He. exists []. repeat split; auto; try discriminate.
  - intros rc e' [].
  - congruence.
Qed.

Lemma runs_UB {A} P (U : Undefined -> Prop) (w : World) u :
  U u -> runs P U w (UB u : Res A) w.
Proof.
  intros Hu. exists []. repeat split; auto; try discriminate.
  - intros rc e' [].
  - intros u' [= <-]. exact Hu.
Qed.

Lemma runs_same_trace {A} P U (w w' : World) (a : A) :
  trace w' = trace w -> runs P U w (Ret a) w'.
Proof.
  intros E. exists []. repeat split; auto; try discriminate.
  intros rc e' [].
Qed.

Lemma runs_seq {A B} P U (w w1 w2 : World) (a : A) (r : Res B) :
  runs P U w (Ret a) w1 -> runs P U w1 r w2 -> runs P U w r w2.
Proof.
  intros (n1 & T1 & F1 & S1 & _) (n2 & T2 & F2 & S2 & U2 & O2).
  exists (n2 ++ n1). split; [rewrite T2, T1, app_assoc; reflexivity|].
  split; [apply Forall_app; auto|]. split; [|split; assumption].
  intros rc e Hin Hf. apply in_app_or in Hin. destruct Hin as [Hin|Hin].
  - exact (S2 rc e Hin Hf).
  - specialize (S1 rc e Hin Hf). discriminate.
Qed.

Lemma runs_Fail_retype {A B} P U (w w1 : World) e :
  runs P U w (Fail e : Res A) w1 -> runs P U w (Fail e : Res B) w1.
Proof.
  intros (n1 & T1 & F1 & S1 & U1 & O1). exists n1.
  split; [exact T1|]. split; [exact F1|]. split; [|split].
  - intros rc e' Hin Hf. specialize (S1 rc e' Hin Hf). congruence.
  - discriminate.
  - congruence.
Qed.

Lemma runs_UB_retype {A B} P U (w w1 : World) u :
  runs P U w (UB u : Res A) w1 -> runs P U w (UB u : Res B) w1.
Proof.
  intros (n1 & T1 & F1 & S1 & U1 & O1). exists n1.
  split; [exact T1|]. split; [exact F1|]. split; [|split].
  - intros rc e' Hin Hf. specialize (S1 rc e' Hin Hf). discriminate.
  - intros u' [= <-]. apply U1. reflexivity.
  - discriminate.
Qed.

Lemma runs_mono {A} (P Q : Event -> Prop) (U V : Undefined -> Prop)
    (w w' : World) (r : Res A) :
  (forall e, P e -> Q e) -> (forall u, U u -> V u) ->
  runs P U w r w' -> runs Q V w r w'.
Proof.
  intros HPQ HUV (n1 & T1 & F1 & S1 & U1 & O1). exists n1.
  split; [exact T1|]. split; [|auto].
  eapply Forall_impl; eauto.
Qed.

(** A checked driver call. *)
Lemma runs_call (P : Event -> Prop) U c (w : World) :
  is_ctx_pop c = false ->
  (forall rc, P (EvDriver c rc)) ->
  runs P U w (fst (CUDA_RETURN_IF_ERROR orc c w))
             (snd (CUDA_RETURN_IF_ERROR orc c w)).
Proof.
  intros Hc HP. rewrite CUDA_RETURN_IF_ERROR_eq. cbn [fst snd].
  exists [EvDriver c (drv_result orc (length (trace w)) c)].
  split; [apply trace_unchecked|]. split; [repeat constructor; apply HP|].
  split; [|split].
  - intros rc e [<-|[]] (c' & [= <- <-] & Hrc & _).
    destruct (decide _); [contradiction|reflexivity].
  - destruct (decide _); discriminate.
  - destruct (decide _); discriminate.
Qed.

(** The dropped result of [cuCtxPopCurrent]. *)
Lemma runs_pop {A} (P : Event -> Prop) U (w w' : World) (r : Res A) :
  (forall rc, P (EvDriver cuCtxPopCurrent rc)) ->
  runs P U w r w' -> runs P U w r (unchecked orc cuCtxPopCurrent w').
Proof.
  intros HP (n1 & T1 & F1 & S1 & U1 & O1).
  exists (EvDriver cuCtxPopCurrent
            (drv_result orc (length (trace w')) cuCtxPopCurrent) :: n1).
  split; [rewrite trace_unchecked, T1; reflexivity|].
  split; [constructor; [apply HP|exact F1]|]. split; [|split; assumption].
  intros rc e [<-|Hin] Hf.
  - destruct Hf as (c' & [= <- <-] & _ & Hpop). discriminate.
  - exact (S1 rc e Hin Hf).
Qed.

End RunsRules.

Section RunsMonad.

Context `{F32 : Float32} (orc : Oracle).

Lemma Runs_ret {S A} (pw : S -> World) P U (a : A) : Runs pw P U (ret a).
Proof. intros s. apply runs_Ret. Qed.

Lemma Runs_fail {S A} (pw : S -> World) P U e :
  e <> OkStatus -> Runs pw P U (fail e : M S A).
Proof. intros He s. apply runs_Fail. exact He. Qed.

Lemma Runs_undefined {S A} (pw : S -> World) P (U : Undefined -> Prop) u :
  U u -> Runs pw P U (undefined u : M S A).
Proof. intros Hu s. apply runs_UB. exact Hu. Qed.

Lemma Runs_get {S} (pw : S -> World) P U : Runs pw P U (get : M S S).
Proof. intros s. apply runs_Ret. Qed.

Lemma Runs_modify {S} (pw : S -> World) P U (f : S -> S) :
  (forall s, trace (pw (f s)) = trace (pw s)) -> Runs pw P U (modify f).
Proof. intros Hf s. apply runs_same_trace. apply Hf. Qed.

Lemma Runs_bind {S A B} (pw : S -> World) P U (m : M S A) (k : A -> M S B) :
  Runs pw P U m -> (forall a, Runs pw P U (k a)) -> Runs pw P U (bind m k).
Proof.
  intros Hm Hk s. specialize (Hm s). unfold bind.
  destruct (m s) as [[a|e|u] s1]; cbn [fst snd] in *.
  - eapply runs_seq; [exact Hm|]. apply Hk.
  - eapply runs_Fail_retype. exact Hm.
  - eapply runs_UB_retype. exact Hm.
Qed.

Lemma Runs_mono {S A} (pw : S -> World) (P Q : Event -> Prop)
    (U V : Undefined -> Prop) (m : M S A) :
  (forall e, P e -> Q e) -> (forall u, U u -> V u) ->
  Runs pw P U m -> Runs pw Q V m.
Proof.
  intros HPQ HUV Hm s. eapply runs_mono; [exact HPQ|exact HUV|apply Hm].
Qed.

Lemma Runs_for_each {S A B} (pw : S -> World) P U (l : list A) (acc : B)
    (body : A -> B -> M S B) :
  (forall a acc, Runs pw P U (body a acc)) -> Runs pw P U (for_each l acc body).
Proof.
  intros Hb. revert acc. induction l as [|a l IH]; intros acc; simpl.
  - apply Runs_ret.
  - apply Runs_bind; [apply Hb|]. intros acc'. apply IH.
Qed.

Lemma Runs_repeat_n {S} (pw : S -> World) P U (n : nat) (m : M S unit) :
  Runs pw P U m -> Runs pw P U (repeat_n n m).
Proof.
  intros Hm. induction n as [|n IH]; simpl.
  - apply Runs_ret.
  - apply Runs_bind; [exact Hm|]. intros _. exact IH.
Qed.

Lemma Runs_liftW {T A} P U (m : M World A) :
  Runs id P U m -> Runs (snd : T * World -> World) P U (liftW m).
Proof.
  intros Hm [t w]. rewrite liftW_eq. cbn [fst snd]. apply Hm.
Qed.

Lemma Runs_on_member {S T A} P U (proj : S -> T) (upd : T -> S -> S)
    (m : M (T * World) A) :
  Runs snd P U m -> Runs snd P U (on_member proj upd m).
Proof.
  intros Hm [s w]. unfold on_member, zoom. cbn [fst snd].
  specialize (Hm (proj s, w)).
  destruct (m (proj s, w)) as [r [t w']]. cbn [fst snd] in *. exact Hm.
Qed.

Lemma Runs_CUDA (P : Event -> Prop) U c :
  is_ctx_pop c = false ->
  (forall rc, P (EvDriver c rc)) ->
  Runs id P U (CUDA_RETURN_IF_ERROR orc c).
Proof. intros Hc HP w. apply runs_call; assumption. Qed.

Lemma Runs_with_out (P : Event -> Prop) U c :
  is_ctx_pop c = false ->
  (forall rc, P (EvDriver c rc)) ->
  Runs id P U (with_out orc c).
Proof.
  intros Hc HP. unfold with_out. apply Runs_bind.
  - apply Runs_CUDA; assumption.
  - intros n. apply Runs_ret.
Qed.

Lemma Runs_with_cleanup {A} (P : Event -> Prop) U (m : M World A) :
  (forall rc, P (EvDriver cuCtxPopCurrent rc)) ->
  Runs id P U m ->
  Runs id P U (with_cleanup (unchecked orc cuCtxPopCurrent) m).
Proof.
  intros HP Hm w. rewrite with_cleanup_eq. cbn [fst snd].
  apply runs_pop; [exact HP|]. apply Hm.
Qed.

Lemma Runs_LOG (P : Event -> Prop) U l :
  P (EvLog l) -> Runs id P U (LOG l).
Proof.
  intros HP w. unfold LOG, modify. cbn [fst snd].
  exists [EvLog l]. split; [reflexivity|].
  split; [repeat constructor; exact HP|].
  split; [|split; discriminate].
  intros rc e [<-|[]] (c & Hc & _). discriminate.
Qed.

End RunsMonad.

(** One step of a structural proof of [Runs], chosen by the shape of the
    program. *)
Ltac runs_step :=
  match goal with
  | |- Runs _ _ _ (ret _) => apply Runs_ret
  | |- Runs _ _ _ (fail _) => apply Runs_fail; discriminate
  | |- Runs _ _ _ get => apply Runs_get
  | |- Runs _ _ _ (undefined _) =>
      apply Runs_undefined; first [exact I | discriminate]
  | |- Runs _ _ _ (int_sub _ _) => unfold int_sub
  | |- Runs _ _ _ (modify _) => apply Runs_modify; intros; reflexivity
  | |- Runs _ _ _ (LOG _) => apply Runs_LOG; exact I
  | |- Runs _ _ _ (update_image _ _) =>
      unfold update_image; apply Runs_modify; intros; reflexivity
  | |- Runs _ _ _ (CUDA_RETURN_IF_ERROR _ _) =>
      apply Runs_CUDA; [reflexivity | intros; first [exact I | reflexivity]]
  | |- Runs _ _ _ (with_out _ _) =>
      apply Runs_with_out;
      [reflexivity | intros; first [exact I | reflexivity]]
  | |- Runs _ _ _ (with_cleanup _ _) =>
      apply Runs_with_cleanup; [intros; first [exact I | reflexivity]|]
  | |- Runs _ _ _ (liftW _) => apply Runs_liftW
  | |- Runs _ _ _ (on_member _ _ _) => apply Runs_on_member
  | |- Runs _ _ _ (for_each _ _ _) => apply Runs_for_each; intros
  | |- Runs _ _ _ (repeat_n _ _) => apply Runs_repeat_n
  | |- Runs _ _ _ (bind _ _) => apply Runs_bind; [|intros ?]
  | |- Runs _ _ _ (if ?c then _ else _) => destruct c
  | |- Runs _ _ _ (match ?x with _ => _ end) => destruct x
  end.

Section RunsProgram.

Context `{F32 : Float32} (orc : Oracle).

Lemma Runs_CompileGpuAsm P U cc_major cc_minor ptx :
  (forall b, P (EvCompile cc_major cc_minor ptx b)) ->
  Runs id P U (CompileGpuAsm orc cc_major cc_minor ptx).
Proof.
  intros HP w. unfold CompileGpuAsm.
  destruct (asm_result orc _ _ _ _) as [msg|image]; cbn [fst snd].
  - exists [EvCompile cc_major cc_minor ptx false].
    repeat split; try discriminate; [repeat constructor; apply HP|].
    intros rc e [<-|[]] (c & Hc & _). discriminate.
  - exists [EvCompile cc_major cc_minor ptx true].
    repeat split; try discriminate; [repeat constructor; apply HP|].
    intros rc e [<-|[]] (c & Hc & _). discriminate.
Qed.

Lemma Runs_GetModuleImage name shm ptx cc :
  Runs id launch_event in_range (GetModuleImage orc name shm ptx cc).
Proof.
  unfold GetModuleImage. cbv zeta. repeat runs_step.
  apply Runs_CompileGpuAsm. intros; exact I.
Qed.

Lemma Runs_setup_dynamic_shared_memory shm function :
  Runs id launch_event in_range (setup_dynamic_shared_memory orc shm function).
Proof. unfold setup_dynamic_shared_memory. cbv zeta. repeat runs_step. Qed.

Lemma Runs_GetFunctionForContext this context :
  Runs id launch_event in_range (GetFunctionForContext orc this context).
Proof.
  unfold GetFunctionForContext. repeat runs_step.
  apply Runs_setup_dynamic_shared_memory.
Qed.

Lemma Runs_Kernel_Launch {self : Place} stream grid params :
  Runs snd launch_event in_range (Kernel_Launch orc self stream grid params).
Proof.
  unfold Kernel_Launch. cbv zeta. repeat runs_step.
  - apply Runs_GetModuleImage.
  - apply Runs_GetFunctionForContext.
Qed.

Lemma Runs_bind_parameter stream ip acc :
  Runs id launch_event in_range (bind_parameter orc stream ip acc).
Proof. unfold bind_parameter. repeat runs_step. Qed.

Lemma Runs_KernelCall_Launch {self : Place} stream buffers :
  Runs snd launch_event in_range (KernelCall_Launch orc self stream buffers).
Proof.
  unfold KernelCall_Launch. cbv zeta. repeat runs_step.
  - apply Runs_bind_parameter.
  - apply Runs_Kernel_Launch.
Qed.

Lemma launch_event_external (e : Event) : launch_event e -> external_event e.
Proof. destruct e; simpl; auto. Qed.

Lemma Runs_Benchmark {self : Place} stream buffers num_iterations :
  Runs snd external_event in_range
      (Benchmark orc self stream buffers num_iterations).
Proof.
  unfold Benchmark. cbv zeta.
  pose proof (Runs_mono snd _ _ _ _ _ launch_event_external
                (fun u H => H)
                (Runs_KernelCall_Launch (self := self) stream buffers))
    as HL.
  repeat first [exact HL | runs_step].
Qed.

End RunsProgram.

(* ===================================================================== *)
(** * Properties: failures of the tuning step *)
(* ===================================================================== *)

Section TuningFailures.

Context `{F32 : Float32} (orc : Oracle).

Lemma Runs_on_config {A} P (U : Undefined -> Prop) (i : nat)
    (m : M (KernelCall * World) A) :
  U VectorIndexOutOfRange ->
  Runs snd P U m -> Runs snd P U (on_config i m).
Proof.
  intros HU Hm [a w]. unfold on_config. cbn [fst snd].
  destruct (configs_ a !! i) as [c|].
  - specialize (Hm (kernel_call c, w)).
    destruct (m (kernel_call c, w)) as [r [kc w']]. exact Hm.
  - cbn [fst snd]. apply runs_UB. exact HU.
Qed.

Lemma Runs_with_cleanup_snd {T A} (P : Event -> Prop) U
    (m : M (T * World) A) :
  (forall rc, P (EvDriver cuCtxPopCurrent rc)) ->
  Runs snd P U m ->
  Runs snd P U
    (with_cleanup (fun s => (fst s, unchecked orc cuCtxPopCurrent (snd s))) m).
Proof.
  intros HP Hm s. rewrite with_cleanup_eq. cbn [fst snd].
  apply runs_pop; [exact HP|]. apply Hm.
Qed.

(** One more step of a structural proof, for the tuner. *)
Ltac tuner_step :=
  match goal with
  | |- Runs _ _ _ (ret _) => apply Runs_ret
  | |- Runs _ _ _ (fail _) => apply Runs_fail; discriminate
  | |- Runs _ _ _ get => apply Runs_get
  | |- Runs _ _ _ (undefined _) => apply Runs_undefined; exact I
  | |- Runs _ _ _ (modify _) =>
      apply Runs_modify; intros;
      first [reflexivity | apply trace_erase_invalidates]
  | |- Runs _ _ _ (LOG _) => apply Runs_LOG; exact I
  | |- Runs _ _ _ (CUDA_RETURN_IF_ERROR _ _) =>
      apply Runs_CUDA; [reflexivity | intros; exact I]
  | |- Runs _ _ _ (with_out _ _) =>
      apply Runs_with_out; [reflexivity | intros; exact I]
  | |- Runs _ _ _ (with_cleanup _ _) =>
      apply Runs_with_cleanup_snd; [intros; exact I|]
  | |- Runs _ _ _ (liftW _) => apply Runs_liftW
  | |- Runs _ _ _ (on_config _ _) => apply Runs_on_config; [exact I|]
  | |- Runs _ _ _ (for_each _ _ _) => apply Runs_for_each; intros
  | |- Runs _ _ _ (bind _ _) => apply Runs_bind; [|intros ?]
  | |- Runs _ _ _ (if ?c then _ else _) => destruct c
  | |- Runs _ _ _ (match ?x with _ => _ end) => destruct x
  end.

Lemma Runs_Benchmark_any {self : Place} stream buffers num_iterations :
  Runs snd any_event any_undefined
    (Benchmark orc self stream buffers num_iterations).
Proof.
  eapply Runs_mono; [| |apply Runs_Benchmark]; intros; exact I.
Qed.

Lemma Runs_KernelCall_Launch_any {self : Place} stream buffers :
  Runs snd any_event any_undefined (KernelCall_Launch orc self stream buffers).
Proof.
  eapply Runs_mono; [| |apply Runs_KernelCall_Launch]; intros; exact I.
Qed.

Lemma Runs_Autotune {self : Place} stream buffers :
  Runs snd any_event any_undefined (Autotune orc self stream buffers).
Proof.
  unfold Autotune, benchmark_configs, keep_best, snapshot, restore,
    buffer_at, copy_to_host, calibrate, measure, choose_timed_iters.
  cbv zeta.
  repeat first [apply Runs_Benchmark_any | tuner_step].
Qed.

End TuningFailures.

Section FailureCache.

Context `{F32 : Float32} (orc : Oracle).

(** With a failure stored, a launch returns it and touches nothing. *)
Lemma Launch_after_failure {self : Place}
    stream buffers (a : AutotunedKernelCall)
    (w : World) :
  autotune_once_ a = true ->
  autotune_status_ a <> OkStatus ->
  AutotunedKernelCall_Launch orc self stream buffers (a, w)
  = (Fail (autotune_status_ a), (a, w)).
Proof.
  intros Honce Hst. unfold AutotunedKernelCall_Launch.
  unfold bind at 1. unfold autotune_once. cbn [fst snd]. rewrite Honce.
  rewrite bind_get_l. cbn [fst]. unfold JAX_RETURN_IF_ERROR.
  destruct (autotune_status_ a); try reflexivity. contradiction.
Qed.

Lemma Launch_each_after_failure {self : Place}
    calls (a : AutotunedKernelCall) (w : World) :
  autotune_once_ a = true ->
  autotune_status_ a <> OkStatus ->
  AutotunedKernelCall_Launch_each orc self calls (a, w)
  = (map (fun _ => Fail (autotune_status_ a)) calls, (a, w)).
Proof.
  intros Honce Hst. induction calls as [|[stream buffers] calls IH].
  - reflexivity.
  - simpl. rewrite (Launch_after_failure _ _ _ _ Honce Hst), IH.
    reflexivity.
Qed.

(** The first launch of an object with several configs runs the tuning
    step and stores its status. *)
Lemma Launch_first {self : Place}
    stream buffers (a : AutotunedKernelCall) (w : World)
    st a1 w1 :
  autotune_once_ a = false ->
  (1 < length (configs_ a))%nat ->
  Autotune orc self stream buffers (a, w) = (Fail st, (a1, w1)) ->
  st <> OkStatus ->
  AutotunedKernelCall_Launch orc self stream buffers (a, w)
  = (Fail st, (set_autotuned st a1, w1)).
Proof.
  intros Honce Hlen Htune Hst. unfold AutotunedKernelCall_Launch.
  unfold bind at 1. unfold autotune_once. cbn [fst snd]. rewrite Honce.
  destruct (decide (1 < length (configs_ a))%nat); [|contradiction].
  rewrite Htune. cbn [fst snd].
  rewrite bind_get_l. cbn [fst autotune_status_ set_autotuned].
  unfold JAX_RETURN_IF_ERROR. destruct st; try reflexivity. contradiction.
Qed.

(** C6, as the code has it.  If a driver call whose result the code
    checks (every call but the scoped [cuCtxPopCurrent]) fails during the
    tuning step, the step aborts with that driver error.  Whenever the
    tuning step of the first launch fails, tuning is still marked as
    attempted, the failure is stored, the first launch returns it, and so
    does every later launch, whatever its stream and buffers, without any
    change to the object or the process: tuning is not retried and no
    config is launched. *)
Theorem Autotune_failure_is_cached {self : Place}
    stream buffers (a : AutotunedKernelCall)
    (w : World) r a1 w1 :
  autotune_once_ a = false ->
  (1 < length (configs_ a))%nat ->
  Autotune orc self stream buffers (a, w) = (r, (a1, w1)) ->
  (exists new,
      trace w1 = new ++ trace w
      /\ forall rc e, In e new -> failed_with rc e -> r = Fail (DriverError rc))
  /\ (forall st, r = Fail st ->
        let s1 := (set_autotuned st a1, w1) in
        AutotunedKernelCall_Launch orc self stream buffers (a, w) =
            (Fail st, s1)
        /\ autotune_once_ (fst s1) = true
        /\ autotune_status_ (fst s1) = st
        /\ forall calls,
            AutotunedKernelCall_Launch_each orc self calls s1
            = (map (fun _ => Fail st) calls, s1)).
Proof.
  intros Honce Hlen Htune.
  pose proof (Runs_Autotune (self := self) orc stream buffers (a, w)) as Hruns.
  rewrite Htune in Hruns. cbn [fst snd] in Hruns.
  destruct Hruns as (new & Ht & _ & Hs & _ & Hok).
  split; [exists new; auto|].
  intros st -> s1.
  assert (Hst : st <> OkStatus) by congruence.
  split; [exact (Launch_first _ _ _ _ _ _ _ Honce Hlen Htune Hst)|].
  split; [reflexivity|]. split; [reflexivity|].
  intros calls. subst s1.
  exact (Launch_each_after_failure (self := self) calls (set_autotuned st a1) w1
           eq_refl Hst).
Qed.

End FailureCache.

Lemma Autotune_failure_is_cached_witness :
  exists a1 w1,
    let s1 := (set_autotuned (DriverError 700) a1, w1) in
    Autotune (failing_oracle is_event_create) (Heap 0) 5 [256]
      (sample_autotuned, initial_world)
    = (Fail (DriverError 700), (a1, w1))
    /\ AutotunedKernelCall_Launch (failing_oracle is_event_create) (Heap 0) 5
        [256]
         (sample_autotuned, initial_world)
       = (Fail (DriverError 700), s1)
    /\ AutotunedKernelCall_Launch_each (failing_oracle is_event_create) (Heap 0)
        [(5, [256]); (6, [512])] s1
       = ([Fail (DriverError 700); Fail (DriverError 700)], s1).
Proof.
  destruct (Autotune (failing_oracle is_event_create) (Heap 0) 5 [256]
              (sample_autotuned, initial_world)) as [r [a1 w1]] eqn:E.
  destruct
      (Autotune_failure_is_cached (self := Heap 0)
      (failing_oracle is_event_create)
              5 [256] sample_autotuned initial_world r a1 w1
              eq_refl ltac:(simpl; lia) E) as [_ H].
  assert (Hr : r = Fail (DriverError 700)).
  { vm_compute in E. congruence. }
  subst r. destruct (H _ eq_refl) as (H1 & _ & _ & H4).
  exists a1, w1. cbv zeta. split; [reflexivity|]. split; [exact H1|].
  exact (H4 [(5, [256]); (6, [512])]).
Defined.

(** On a device where only [cuCtxPopCurrent] fails, a driver call fails
    during the tuning step (it is the last event of the step) and yet the
    step succeeds: the result of the scoped context restore is dropped. *)
Lemma Autotune_ignores_failed_pop :
  let res := Autotune (failing_oracle is_ctx_pop) (Heap 0) 5 [256]
               (sample_autotuned, initial_world) in
  head (trace (snd (snd res))) = Some (EvDriver cuCtxPopCurrent 700)
  /\ fst res = Ret tt
  /\ forall rc, fst res <> Fail (DriverError rc).
Proof.
  vm_compute. split; [reflexivity|]. split; [reflexivity|].
  intros rc. discriminate.
Qed.

(* ===================================================================== *)
(** * Properties: relations kept by every run *)
(* ===================================================================== *)

Section SatRules.

Context {S : Type} (T : forall A, S -> Res A -> S -> Prop).
Context `{!Compositional T}.

Lemma Sat_ret {A} (a : A) : Sat T (ret a).
Proof. intros s. apply comp_ret. Qed.

Lemma Sat_get : Sat T get.
Proof. intros s. apply comp_ret. Qed.

Lemma Sat_bind {A B} (m : M S A) (k : A -> M S B) :
  Sat T m -> (forall a, Sat T (k a)) -> Sat T (bind m k).
Proof.
  intros Hm Hk s. specialize (Hm s). unfold bind.
  destruct (m s) as [[a|e|u] s1]; cbn [fst snd] in *.
  - eapply comp_seq; [exact Hm|]. apply Hk.
  - eapply comp_fail. exact Hm.
  - eapply comp_ub. exact Hm.
Qed.

Lemma Sat_for_each {A B} (l : list A) (acc : B) (body : A -> B -> M S B) :
  (forall a acc, Sat T (body a acc)) -> Sat T (for_each l acc body).
Proof.
  intros Hb. revert acc. induction l as [|a l IH]; intros acc; simpl.
  - apply Sat_ret.
  - apply Sat_bind; [apply Hb|]. intros acc'. apply IH.
Qed.

Lemma Sat_repeat_n (n : nat) (m : M S unit) :
  Sat T m -> Sat T (repeat_n n m).
Proof.
  intros Hm. induction n as [|n IH]; simpl.
  - apply Sat_ret.
  - apply Sat_bind; [exact Hm|]. intros _. exact IH.
Qed.

End SatRules.

Section KeepingRules.

Context {S : Type} (R : S -> S -> Prop).
Context `{!Reflexive R} `{!Transitive R}.

#[global] Instance keeping_Compositional : Compositional (keeping R).
Proof.
  split; unfold keeping; intros; eauto.
Qed.

Lemma Keeps_fail {A} e : Sat (keeping R) (fail e : M S A).
Proof. intros s. unfold keeping. reflexivity. Qed.

Lemma Keeps_undefined {A} u : Sat (keeping R) (undefined u : M S A).
Proof. intros s. unfold keeping. reflexivity. Qed.

Lemma Keeps_modify (f : S -> S) :
  (forall s, R s (f s)) -> Sat (keeping R) (modify f).
Proof. intros Hf s. apply Hf. Qed.

End KeepingRules.

Section Descriptors.

Context `{F32 : Float32} (orc : Oracle).

#[global] Instance same_kernel_refl : Reflexive same_kernel.
Proof. intros s. reflexivity. Qed.

#[global] Instance same_kernel_trans : Transitive same_kernel.
Proof. intros s1 s2 s3 H1 H2. unfold same_kernel in *. congruence. Qed.

#[global] Instance same_call_refl : Reflexive same_call.
Proof. intros s. reflexivity. Qed.

#[global] Instance same_call_trans : Transitive same_call.
Proof. intros s1 s2 s3 H1 H2. unfold same_call in *. congruence. Qed.

#[global] Instance same_configs_refl : Reflexive same_configs.
Proof. intros s. repeat split. Qed.

#[global] Instance same_configs_trans : Transitive same_configs.
Proof.
  intros s1 s2 s3 (A1 & B1 & C1 & D1 & E1) (A2 & B2 & C2 & D2 & E2).
  repeat split; congruence.
Qed.

(** A call on the process leaves the object alone. *)
Lemma Keeps_liftW {T A} (R : T * World -> T * World -> Prop)
    (m : M World A) :
  (forall t w w', R (t, w) (t, w')) -> Sat (keeping R) (liftW m).
Proof.
  intros HR [t w]. rewrite liftW_eq. cbn [fst snd]. apply HR.
Qed.

Ltac keeps_step :=
  match goal with
  | |- Compositional _ => typeclasses eauto
  | |- Reflexive _ => typeclasses eauto
  | |- Transitive _ => typeclasses eauto
  | |- Sat _ (ret _) => apply Sat_ret
  | |- Sat _ get => apply Sat_get
  | |- Sat _ (fail _) => apply Keeps_fail
  | |- Sat _ (undefined _) => apply Keeps_undefined
  | |- Sat _ (int_sub _ _) => unfold int_sub
  | |- Sat _ (liftW _) => apply Keeps_liftW; intros; reflexivity
  | |- Sat _ (for_each _ _ _) => apply Sat_for_each; intros
  | |- Sat _ (repeat_n _ _) => apply Sat_repeat_n
  | |- Sat _ (bind _ _) => apply Sat_bind; [..|intros ?]
  | |- Sat _ (if ?c then _ else _) => destruct c
  | |- Sat _ (match ?x with _ => _ end) => destruct x
  end.

Lemma Keeps_Kernel_Launch {self : Place} stream grid params :
  Sat (keeping same_kernel) (Kernel_Launch orc self stream grid params).
Proof.
  unfold Kernel_Launch. cbv zeta. repeat keeps_step.
  apply (Keeps_modify same_kernel). intros s. reflexivity.
Qed.

Lemma Keeps_on_kernel {A} (m : M (Kernel * World) A) :
  Sat (keeping same_kernel) m ->
  Sat (keeping same_call) (on_member kernel_ set_kernel m).
Proof.
  intros Hm [c w]. unfold on_member, zoom, keeping, same_call. cbn [fst snd].
  specialize (Hm (kernel_ c, w)). unfold keeping, same_kernel in Hm.
  destruct (m (kernel_ c, w)) as [r [k w']]. cbn [fst snd] in *.
  unfold unresolved_call, set_kernel. cbn [kernel_ grid_ parameters_].
  rewrite Hm. reflexivity.
Qed.

Lemma Keeps_KernelCall_Launch {self : Place} stream buffers :
  Sat (keeping same_call) (KernelCall_Launch orc self stream buffers).
Proof.
  unfold KernelCall_Launch. cbv zeta. repeat keeps_step.
  apply Keeps_on_kernel. apply Keeps_Kernel_Launch.
Qed.


Lemma map_insert_same {A B} (f : A -> B) (l : list A) (i : nat) (x y : A) :
  l !! i = Some x -> f y = f x -> map f (<[i := y]> l) = map f l.
Proof.
  revert i. induction l as [|a l IH]; intros [|i] Hx Hf; simpl in *;
    try discriminate.
  - injection Hx as ->. rewrite Hf. reflexivity.
  - rewrite (IH i Hx Hf). reflexivity.
Qed.

Lemma Keeps_on_config {A} (i : nat) (m : M (KernelCall * World) A) :
  Sat (keeping same_call) m ->
  Sat (keeping same_configs) (on_config i m).
Proof.
  intros Hm [a w]. unfold on_config, keeping. cbn [fst snd].
  destruct (configs_ a !! i) as [c|] eqn:Hc; [|reflexivity].
  specialize (Hm (kernel_call c, w)). unfold keeping, same_call in Hm.
  destruct (m (kernel_call c, w)) as [r [kc w']]. cbn [fst snd] in *.
  repeat split. cbn [configs_ set_configs].
  apply (map_insert_same _ _ _ c); [exact Hc|].
  unfold unresolved_config, set_kernel_call.
  cbn [kernel_call description]. rewrite Hm. reflexivity.
Qed.

End Descriptors.

(* ===================================================================== *)
(** * Properties: indexing of the config list *)
(* ===================================================================== *)

Section ConfigIndexing.

Context `{F32 : Float32} (orc : Oracle).

#[global] Instance tuning_Compositional n : Compositional (tuning n).
Proof.
  split; unfold tuning.
  - intros A a s Hn. split; [exact Hn|discriminate].
  - intros A B a r s s1 s2 H1 H2 Hn. destruct (H1 Hn) as [Hn1 _]. auto.
  - intros A B e s s1 H1 Hn. destruct (H1 Hn) as [Hn1 _].
    split; [exact Hn1|discriminate].
  - intros A B u s s1 H1 Hn. destruct (H1 Hn) as [Hn1 Hu].
    split; [exact Hn1|congruence].
Qed.

Lemma Sat_for_each_in {S A B} (T : forall A, S -> Res A -> S -> Prop)
    `{!Compositional T} (l : list A) (acc : B) (body : A -> B -> M S B) :
  (forall a acc, In a l -> Sat T (body a acc)) ->
  Sat T (for_each l acc body).
Proof.
  revert acc. induction l as [|a l IH]; intros acc Hb; simpl.
  - apply Sat_ret; assumption.
  - apply Sat_bind; [assumption|apply Hb; left; reflexivity|].
    intros acc'. apply IH. intros a' acc'' Hin. apply Hb. right. exact Hin.
Qed.

Lemma Tuning_liftW n {A} P (m : M World A) :
  Runs id P in_range m -> Sat (tuning n) (liftW m).
Proof.
  intros Hm [a w] Hn. rewrite liftW_eq. cbn [fst snd] in *.
  split; [exact Hn|]. destruct (Hm w) as (_ & _ & _ & _ & Hu & _).
  intros E. exact (Hu _ E eq_refl).
Qed.

Lemma Tuning_on_config n {A} P (i : nat) (m : M (KernelCall * World) A) :
  (i < n)%nat -> Runs snd P in_range m -> Sat (tuning n) (on_config i m).
Proof.
  intros Hi Hm [a w] Hn. unfold on_config. cbn [fst snd] in *.
  destruct (configs_ a !! i) as [c|] eqn:Hc.
  - specialize (Hm (kernel_call c, w)).
    destruct (m (kernel_call c, w)) as [r [kc w']]. cbn [fst snd] in *.
    split; [cbn [configs_ set_configs]; rewrite length_insert; exact Hn|].
    destruct Hm as (_ & _ & _ & _ & Hu & _).
    intros E. exact (Hu _ E eq_refl).
  - apply lookup_ge_None in Hc. lia.
Qed.

Lemma Tuning_modify n (f : AutotunedKernelCall * World
                           -> AutotunedKernelCall * World) :
  (forall s, length (configs_ (fst (f s))) = length (configs_ (fst s))) ->
  Sat (tuning n) (modify f).
Proof.
  intros Hf s Hn. cbn [fst snd modify]. unfold modify. cbn [fst snd].
  split; [rewrite Hf; exact Hn|discriminate].
Qed.

Lemma Runs_LOG_in_range l : Runs id any_event in_range (LOG l).
Proof. apply Runs_LOG. exact I. Qed.

Lemma Tuning_calibrate {self : Place} n stream buffers (i : nat) best :
  (i < n)%nat -> Sat (tuning n) (calibrate orc self stream buffers i best).
Proof.
  intros Hi. unfold calibrate.
  apply Sat_bind; [typeclasses eauto| |intros t].
  { eapply Tuning_on_config; [exact Hi|apply Runs_Benchmark]. }
  apply Sat_bind; [typeclasses eauto|apply Sat_get; typeclasses eauto|].
  intros s. cbv zeta.
  apply Sat_bind; [typeclasses eauto| |intros _].
  { eapply Tuning_liftW. apply Runs_LOG_in_range. }
  apply Sat_ret. typeclasses eauto.
Qed.

Lemma Tuning_measure {self : Place}
    n stream buffers timed_iters (i : nat) best :
  (i < n)%nat ->
  Sat (tuning n) (measure orc self stream buffers timed_iters i best).
Proof.
  intros Hi. unfold measure.
  apply Sat_bind; [typeclasses eauto| |intros t].
  { eapply Tuning_on_config; [exact Hi|apply Runs_Benchmark]. }
  apply Sat_bind; [typeclasses eauto|apply Sat_get; typeclasses eauto|].
  intros s. cbv zeta.
  apply Sat_bind; [typeclasses eauto| |intros _].
  { eapply Tuning_liftW. apply Runs_LOG_in_range. }
  destruct (float_ltb t best); [|apply Sat_ret; typeclasses eauto].
  apply Sat_bind; [typeclasses eauto| |intros _].
  { eapply Tuning_liftW. apply Runs_LOG_in_range. }
  apply Sat_bind; [typeclasses eauto| |intros _].
  { apply Tuning_modify. intros s0. cbn [fst configs_ set_configs].
    apply swap_with_first_length. }
  apply Sat_ret. typeclasses eauto.
Qed.

Lemma Runs_snapshots stream buffers aliases :
  Runs id any_event in_range
    (for_each aliases ∅ (snapshot orc stream buffers)).
Proof.
  unfold snapshot, buffer_at, copy_to_host. repeat runs_step.
Qed.

Lemma Runs_restores stream buffers aliases input_copies :
  Runs id any_event in_range
    (for_each aliases tt (restore orc stream buffers input_copies)).
Proof.
  unfold restore, buffer_at. repeat runs_step.
Qed.

Lemma Runs_choose_timed_iters best :
  Runs id any_event in_range (choose_timed_iters best).
Proof. unfold choose_timed_iters. cbv zeta. repeat runs_step. Qed.

Lemma Tuning_benchmark_configs {self : Place} n stream buffers this :
  length (configs_ this) = n ->
  Sat (tuning n) (benchmark_configs orc self stream buffers this).
Proof.
  intros Hn. unfold benchmark_configs. cbv zeta. rewrite Hn.
  apply Sat_bind; [typeclasses eauto| |intros copies].
  { eapply Tuning_liftW. apply Runs_snapshots. }
  apply Sat_bind; [typeclasses eauto| |intros _].
  { eapply Tuning_liftW. apply Runs_LOG_in_range. }
  apply Sat_bind; [typeclasses eauto| |intros best].
  { apply Sat_for_each_in; [typeclasses eauto|]. intros i acc Hin.
    apply Tuning_calibrate. apply in_seq in Hin. lia. }
  apply Sat_bind; [typeclasses eauto| |intros timed_iters].
  { eapply Tuning_liftW. apply Runs_choose_timed_iters. }
  apply Sat_bind; [typeclasses eauto| |intros _].
  { apply Sat_for_each_in; [typeclasses eauto|]. intros i acc Hin.
    apply Tuning_measure. apply in_seq in Hin. lia. }
  apply Sat_ret. typeclasses eauto.
Qed.

(** The second stage leaves exactly one config and stays in range when
    there is a config to keep. *)
Lemma keep_best_in_range {self : Place} stream buffers this input_copies
    (s : AutotunedKernelCall * World) :
  (0 < length (configs_ (fst s)))%nat ->
  let res := keep_best orc self stream buffers this input_copies s in
  length (configs_ (fst (snd res))) = 1%nat
  /\ fst res <> UB VectorIndexOutOfRange.
Proof.
  intros Hpos res. subst res. unfold keep_best.
  rewrite bind_modify_l, bind_get_l. cbn [fst snd configs_ set_configs].
  destruct (configs_ (fst s)) as [|c0 cs] eqn:Hcs; [simpl in Hpos; lia|].
  cbn [take lookup list_lookup].
  pose (s1 := (set_configs [c0] (fst s),
               erase_invalidates self (length (c0 :: cs)) (snd s))).
  assert (Hrest : Sat (tuning 1)
            (run liftW (LOG (LogFinished (name_ this) (description c0)));
             run liftW (for_each (input_output_aliases_ this) tt
                          (restore orc stream buffers input_copies));
             run liftW (CUDA_RETURN_IF_ERROR orc (cuStreamSynchronize stream));
             ret tt)).
  { apply Sat_bind; [typeclasses eauto| |intros _].
    { eapply Tuning_liftW. apply Runs_LOG_in_range. }
    apply Sat_bind; [typeclasses eauto| |intros _].
    { eapply Tuning_liftW. apply Runs_restores. }
    apply Sat_bind; [typeclasses eauto| |intros _].
    { eapply (Tuning_liftW 1 any_event). repeat runs_step. }
    apply Sat_ret. typeclasses eauto. }
  exact (Hrest s1 eq_refl).
Qed.

(** A call on the process from a method of an object: it returns and the
    method goes on with the same object, or the method stops there with
    the object as it was, and not for an index out of range. *)
Lemma bind_liftW_cases {T A B} P (m : M World A)
    (k : A -> M (T * World) B) (t : T) (w : World) :
  Runs id P in_range m ->
  (exists x w1, bind (liftW m) k (t, w) = k x (t, w1))
  \/ (fst (bind (liftW m) k (t, w)) <> UB VectorIndexOutOfRange
      /\ (forall x, fst (bind (liftW m) k (t, w)) <> Ret x)
      /\ fst (snd (bind (liftW m) k (t, w))) = t).
Proof.
  intros Hm. unfold bind. rewrite liftW_eq.
  destruct (Hm w) as (_ & _ & _ & _ & Hu & _).
  destruct (m w) as [[x|e|u] w1]; cbn [fst snd] in *.
  - left. eauto.
  - right. repeat split; discriminate.
  - right. repeat split; try discriminate.
    intros [= ->]. exact (Hu _ eq_refl eq_refl).
Qed.

Lemma Autotune_in_range {self : Place}
    stream buffers (s : AutotunedKernelCall * World) :
  (1 < length (configs_ (fst s)))%nat ->
  let res := Autotune orc self stream buffers s in
  fst res <> UB VectorIndexOutOfRange
  /\ (0 < length (configs_ (fst (snd res))))%nat
  /\ (fst res = Ret tt -> length (configs_ (fst (snd res))) = 1%nat).
Proof.
  intros Hlen res. subst res. destruct s as [a w]. cbn [fst] in Hlen.
  unfold Autotune.
  destruct (bind_liftW_cases any_event (with_out orc (cuStreamGetCtx stream))
              (fun context =>
                 run liftW (CUDA_RETURN_IF_ERROR orc (cuCtxPushCurrent context));
                 with_cleanup
                   (fun s => (fst s, unchecked orc cuCtxPopCurrent (snd s)))
                   (do s <- get;
                    do input_copies <-
                      benchmark_configs orc self stream buffers (fst s);
                    keep_best orc self stream buffers (fst s) input_copies))
              a w ltac:(repeat runs_step)) as [(ctx & w1 & ->)|(H1 & H2 & H3)].
  2:{ rewrite H3. split; [exact H1|]. split; [lia|].
      intros E. exfalso. exact (H2 _ E). }
  destruct (bind_liftW_cases any_event
              (CUDA_RETURN_IF_ERROR orc (cuCtxPushCurrent ctx))
              (fun _ =>
                 with_cleanup
                   (fun s => (fst s, unchecked orc cuCtxPopCurrent (snd s)))
                   (do s <- get;
                    do input_copies <-
                      benchmark_configs orc self stream buffers (fst s);
                    keep_best orc self stream buffers (fst s) input_copies))
              a w1 ltac:(repeat runs_step)) as [(n0 & w2 & ->)|(H1 & H2 & H3)].
  2:{ rewrite H3. split; [exact H1|]. split; [lia|].
      intros E. exfalso. exact (H2 _ E). }
  rewrite with_cleanup_eq. cbn [fst snd].
  rewrite bind_get_l. cbn [fst].
  pose proof
      (Tuning_benchmark_configs (self := self) (length (configs_ a)) stream
      buffers a
                eq_refl (a, w2) eq_refl) as [Hn Hu].
  unfold bind.
  destruct (benchmark_configs orc self stream buffers a (a, w2))
    as [[copies|e|u] s3]; cbn [fst snd] in *.
  - destruct
      (keep_best_in_range (self := self) stream buffers a copies s3 ltac:(lia))
      as [H1 H2].
    split; [exact H2|]. split; [lia|]. intros _. exact H1.
  - split; [discriminate|]. split; [lia|]. discriminate.
  - split; [intros [= ->]; exact (Hu eq_refl)|]. split; [lia|]. discriminate.
Qed.


(** C10. [Launch] on an object whose config list is not empty never
    indexes the list out of range: whether tuning is skipped, fails or
    succeeds, the dispatch finds an element at index 0.  On an object with
    no config and no stored failure tuning is skipped and the dispatch
    reads the first element of the empty list. *)
Theorem Launch_first_config_in_bounds {self : Place} stream buffers
    (a : AutotunedKernelCall) (w : World) :
  (configs_ a <> [] ->
   fst (AutotunedKernelCall_Launch orc self stream buffers (a, w))
   <> UB VectorIndexOutOfRange)
  /\ (configs_ a = [] -> autotune_status_ a = OkStatus ->
      fst (AutotunedKernelCall_Launch orc self stream buffers (a, w))
      = UB VectorIndexOutOfRange).
Proof.
  assert (Hdispatch : forall (s : AutotunedKernelCall * World),
             (0 < length (configs_ (fst s)))%nat ->
             fst (on_config 0
                 (KernelCall_Launch orc (Element self 0) stream buffers) s)
             <> UB VectorIndexOutOfRange).
  { intros s Hs.
    exact (proj2 (Tuning_on_config _ _ 0 _ Hs
                    (Runs_KernelCall_Launch (self := Element self 0) orc stream
                        buffers) s eq_refl)). }
  assert (Hafter : forall (s : AutotunedKernelCall * World),
             (0 < length (configs_ (fst s)))%nat ->
             fst ((do s0 <- get;
                   run JAX_RETURN_IF_ERROR (autotune_status_ (fst s0));
                   on_config 0
                       (KernelCall_Launch orc (Element self 0) stream buffers))
                       s)
             <> UB VectorIndexOutOfRange).
  { intros s Hs. rewrite bind_get_l. unfold JAX_RETURN_IF_ERROR.
    destruct (ok (autotune_status_ (fst s))).
    - rewrite bind_ret_l. apply Hdispatch. exact Hs.
    - rewrite bind_fail_l. discriminate. }
  split.
  - intros Hne.
    assert (Hpos : (0 < length (configs_ a))%nat).
    { destruct (configs_ a); [congruence|simpl; lia]. }
    unfold AutotunedKernelCall_Launch. unfold bind at 1.
    unfold autotune_once. cbn [fst snd].
    destruct (autotune_once_ a).
    { apply Hafter. exact Hpos. }
    destruct (decide (1 < length (configs_ a))%nat) as [Hlen|Hlen].
    + pose proof (Autotune_in_range (self := self) stream buffers (a, w) Hlen)
        as (H1 & H2 & _).
      destruct (Autotune orc self stream buffers (a, w)) as [[[]|e|u] s1];
        cbn [fst snd] in *; try exact H1; apply Hafter; exact H2.
    + apply Hafter. exact Hpos.
  - intros Hnil Hok.
    unfold AutotunedKernelCall_Launch. unfold bind at 1.
    unfold autotune_once. cbn [fst snd]. rewrite Hnil. cbn [length].
    destruct (autotune_once_ a);
      [|destruct (decide (1 < 0)%nat); [lia|]];
      rewrite bind_get_l; cbn [fst autotune_status_ set_autotuned];
      rewrite Hok; unfold JAX_RETURN_IF_ERROR; cbn [ok];
      rewrite bind_ret_l; unfold on_config;
      cbn [fst configs_ set_autotuned]; rewrite ?Hnil; reflexivity.
Qed.

End ConfigIndexing.

Lemma Launch_first_config_in_bounds_witness :
  fst (AutotunedKernelCall_Launch plain_oracle (Heap 0) 5 [256]
         (sample_autotuned, initial_world))
  <> UB VectorIndexOutOfRange
  /\ fst (AutotunedKernelCall_Launch plain_oracle (Heap 0) 5 [256]
            (AutotunedKernelCall_new "none" [] [], initial_world))
     = UB VectorIndexOutOfRange.
Proof.
  split.
  - apply (proj1 (Launch_first_config_in_bounds plain_oracle 5 [256]
                    sample_autotuned initial_world)).
    discriminate.
  - apply (proj2 (Launch_first_config_in_bounds plain_oracle 5 [256]
                    (AutotunedKernelCall_new "none" [] []) initial_world));
      reflexivity.
Defined.

(* ===================================================================== *)
(** * Properties: the aliased inputs *)
(* ===================================================================== *)

Section Memory.

Lemma length_mem_read (m : Memory) p n : length (mem_read m p n) = n.
Proof. unfold mem_read. rewrite length_map, length_seq. reflexivity. Qed.

Lemma lookup_mem_read (m : Memory) p n (k : nat) :
  (k < n)%nat -> mem_read m p n !! k = Some (m (p + Z.of_nat k)).
Proof.
  intros Hk. unfold mem_read. rewrite list_lookup_fmap.
  rewrite lookup_seq_lt by exact Hk. reflexivity.
Qed.

Lemma take_mem_read (m : Memory) p n k :
  (k <= n)%nat -> take k (mem_read m p n) = mem_read m p k.
Proof.
  intros Hk. apply list_eq. intros i.
  destruct (decide (i < k)%nat) as [Hi|Hi].
  - rewrite lookup_take_lt by exact Hi.
    rewrite !lookup_mem_read by lia. reflexivity.
  - rewrite lookup_take_ge by lia.
    symmetry. apply lookup_ge_None. rewrite length_mem_read. lia.
Qed.

(** Writing back what was read elsewhere: inside the region the bytes of
    the source, outside the bytes of the target. *)
Lemma mem_write_mem_read (m m0 : Memory) p n addr :
  mem_write m p (mem_read m0 p n) addr
  = if decide (p <= addr < p + Z.of_nat n) then m0 addr else m addr.
Proof.
  unfold mem_write. rewrite length_mem_read.
  destruct (decide (p <= addr < p + Z.of_nat n)) as [Hin|Hout];
    [|reflexivity].
  rewrite lookup_mem_read by lia. simpl. f_equal. lia.
Qed.

Lemma mem_read_ext (m m' : Memory) p n :
  (forall k, (k < n)%nat -> m' (p + Z.of_nat k) = m (p + Z.of_nat k)) ->
  mem_read m' p n = mem_read m p n.
Proof.
  intros H. unfold mem_read. apply map_ext_in. intros k Hk.
  apply in_seq in Hk. apply H. lia.
Qed.

End Memory.

Section AliasedInputs.

Context `{F32 : Float32} (orc : Oracle).

Lemma copy_to_host_Ret ptr size stream (w w1 : World) v :
  copy_to_host orc ptr size stream w = (Ret v, w1) ->
  v = mem_read (dev_mem w) ptr (Z.to_nat size) /\ dev_mem w1 = dev_mem w.
Proof.
  unfold copy_to_host. rewrite bind_get_l, bind_CUDA.
  destruct (decide _) as [E|E]; [|discriminate].
  unfold ret. intros [= <- <-]. split; [reflexivity|].
  rewrite dev_mem_unchecked, E. destruct (decide _); reflexivity.
Qed.

Lemma snapshot_Ret stream buffers alias acc (w w1 : World) acc1 :
  snapshots_of (dev_mem w) buffers acc ->
  snapshot orc stream buffers alias acc w = (Ret acc1, w1) ->
  dev_mem w1 = dev_mem w /\ snapshots_of (dev_mem w) buffers acc1.
Proof.
  intros Hacc. destruct alias as [[input_idx output_idx] size].
  unfold snapshot, buffer_at.
  destruct (buffers !! Z.to_nat input_idx) as [input|] eqn:Hin;
    cbv beta iota; [|rewrite bind_undefined_l; discriminate].
  rewrite bind_ret_l.
  destruct (buffers !! Z.to_nat output_idx) as [output|];
    cbv beta iota; [|rewrite bind_undefined_l; discriminate].
  rewrite bind_ret_l.
  destruct (decide (input = output)) as [_|_].
  - intros Hrun. apply bind_Ret_inv in Hrun.
    destruct Hrun as (v & w2 & Hcopy & Hret).
    injection Hret as <- <-.
    apply copy_to_host_Ret in Hcopy. destruct Hcopy as [-> Hmem].
    split; [exact Hmem|]. intros k v Hk.
    destruct (decide (k = input_idx)) as [->|Hne].
    + rewrite lookup_insert_eq in Hk. injection Hk as <-.
      exists input. split; [exact Hin|].
      rewrite length_mem_read. reflexivity.
    + rewrite lookup_insert_ne in Hk by congruence. exact (Hacc k v Hk).
  - intros [= <- <-]. auto.
Qed.

Lemma snapshot_loop_Ret stream buffers aliases :
  forall acc (w w1 : World) copies,
    snapshots_of (dev_mem w) buffers acc ->
    for_each aliases acc (snapshot orc stream buffers) w = (Ret copies, w1) ->
    dev_mem w1 = dev_mem w /\ snapshots_of (dev_mem w) buffers copies.
Proof.
  induction aliases as [|alias aliases IH]; intros acc w w1 copies Hacc.
  - simpl. intros [= <- <-]. auto.
  - simpl. intros Hrun. apply bind_Ret_inv in Hrun.
    destruct Hrun as (acc1 & w2 & Hstep & Hrest).
    destruct (snapshot_Ret _ _ _ _ _ _ _ Hacc Hstep) as [Hm Hacc1].
    rewrite <- Hm in Hacc1.
    destruct (IH _ _ _ _ Hacc1 Hrest) as [Hm' Hc].
    rewrite Hm in Hm', Hc. auto.
Qed.

(** One restoring copy puts the saved bytes back and changes nothing
    outside the region. *)
Lemma restore_Ret stream buffers copies (m0 : Memory) alias
    (w w1 : World) :
  snapshots_of m0 buffers copies ->
  restore orc stream buffers copies alias tt w = (Ret tt, w1) ->
  exists p,
    buffers !! Z.to_nat (fst (fst alias)) = Some p
    /\ forall addr,
        dev_mem w1 addr
        = if decide (p <= addr < p + Z.of_nat (Z.to_nat (snd alias)))
          then m0 addr else dev_mem w addr.
Proof.
  intros Hc. destruct alias as [[input_idx output_idx] size].
  unfold restore, buffer_at. cbn [fst snd].
  destruct (buffers !! Z.to_nat input_idx) as [input|] eqn:Hin;
    cbv beta iota; [|rewrite bind_undefined_l; discriminate].
  rewrite bind_ret_l. cbv zeta.
  destruct (decide _) as [Hsize|Hsize]; [|discriminate].
  rewrite bind_CUDA. destruct (decide _) as [E|E]; [|discriminate].
  unfold ret. intros [= <-].
  exists input. split; [reflexivity|]. intros addr.
  rewrite dev_mem_unchecked, E.
  destruct (decide (CUDA_SUCCESS = CUDA_SUCCESS)); [|contradiction].
  cbn [effect].
  assert (Hdata : take (Z.to_nat size) (default [] (copies !! input_idx))
                  = mem_read m0 input (Z.to_nat size)).
  { destruct (copies !! input_idx) as [v|] eqn:Hv; cbn [default] in *.
    - destruct (Hc _ _ Hv) as (p & Hp & Hvp).
      rewrite Hin in Hp. injection Hp as <-.
      rewrite Hvp. apply take_mem_read. exact Hsize.
    - simpl in Hsize. assert (Z.to_nat size = 0%nat) as -> by lia.
      reflexivity. }
  rewrite Hdata. apply mem_write_mem_read.
Qed.

Lemma restore_loop_Ret stream buffers copies (m0 : Memory) aliases :
  snapshots_of m0 buffers copies ->
  forall (w w1 : World),
    for_each aliases tt (restore orc stream buffers copies) w = (Ret tt, w1) ->
    (forall addr, dev_mem w addr = m0 addr -> dev_mem w1 addr = m0 addr)
    /\ forall input_idx output_idx size,
        In (input_idx, output_idx, size) aliases ->
        exists p, buffers !! Z.to_nat input_idx = Some p
                  /\ mem_read (dev_mem w1) p (Z.to_nat size)
                     = mem_read m0 p (Z.to_nat size).
Proof.
  intros Hc. induction aliases as [|alias aliases IH]; intros w w1.
  - simpl. intros [= <-]. split; [auto|]. intros i o s [].
  - simpl. intros Hrun. apply bind_Ret_inv in Hrun.
    destruct Hrun as ([] & w2 & Hstep & Hrest).
    destruct (restore_Ret _ _ _ _ _ _ _ Hc Hstep) as (p & Hp & Hw2).
    destruct (IH _ _ Hrest) as [Hkeep Hall].
    split.
    + intros addr Haddr. apply Hkeep. rewrite Hw2.
      destruct (decide _); [reflexivity|exact Haddr].
    + intros i o s [->|Hin]; [|exact (Hall i o s Hin)].
      cbn [fst snd] in *. exists p. split; [exact Hp|].
      apply mem_read_ext. intros k Hk. apply Hkeep. rewrite Hw2.
      destruct (decide _) as [_|Hout]; [reflexivity|]. lia.
Qed.

Lemma liftW_Ret_inv {T A} (m : M World A) (t t' : T) (w w' : World) x :
  liftW m (t, w) = (Ret x, (t', w')) -> t' = t /\ m w = (Ret x, w').
Proof.
  rewrite liftW_eq. destruct (m w) as [r w1]. cbn [fst snd].
  intros [= -> <- <-]. auto.
Qed.

(** A successful first stage took its copies before anything else. *)
Lemma benchmark_configs_Ret {self : Place} stream buffers this
    (s s3 : AutotunedKernelCall * World) copies :
  benchmark_configs orc self stream buffers this s = (Ret copies, s3) ->
  exists w1,
    for_each (input_output_aliases_ this) ∅ (snapshot orc stream buffers)
      (snd s) = (Ret copies, w1).
Proof.
  unfold benchmark_configs. cbv zeta. intros Hrun. destruct s as [a w].
  apply bind_Ret_inv in Hrun. destruct Hrun as (ic & [a1 w1] & H1 & Hrun).
  apply liftW_Ret_inv in H1. destruct H1 as [-> H1].
  apply bind_Ret_inv in Hrun. destruct Hrun as (? & sa & _ & Hrun).
  apply bind_Ret_inv in Hrun. destruct Hrun as (best & sb & _ & Hrun).
  apply bind_Ret_inv in Hrun. destruct Hrun as (iters & sc & _ & Hrun).
  apply bind_Ret_inv in Hrun. destruct Hrun as (? & sd & _ & Hrun).
  injection Hrun as <- _. exists w1. exact H1.
Qed.

(** A successful second stage: after the log line the restoring copies
    run, and the synchronization leaves memory alone. *)
Lemma keep_best_Ret {self : Place} stream buffers this copies
    (s3 s4 : AutotunedKernelCall * World) :
  keep_best orc self stream buffers this copies s3 = (Ret tt, s4) ->
  exists wl wr,
    dev_mem wl = dev_mem (snd s3)
    /\ for_each (input_output_aliases_ this) tt
         (restore orc stream buffers copies) wl = (Ret tt, wr)
    /\ dev_mem (snd s4) = dev_mem wr
    /\ fst s4 = set_configs (take 1 (configs_ (fst s3))) (fst s3).
Proof.
  unfold keep_best. rewrite bind_modify_l, bind_get_l.
  cbn [fst snd configs_ set_configs].
  destruct (take 1 (configs_ (fst s3)) !! 0%nat) as [c0|];
    [|discriminate].
  intros Hrun.
  apply bind_Ret_inv in Hrun. destruct Hrun as (? & [a1 wl] & H1 & Hrun).
  apply liftW_Ret_inv in H1. destruct H1 as [-> H1].
  assert (Hwl : dev_mem wl = dev_mem (snd s3)).
  { unfold LOG, modify in H1. inversion H1.
    cbn [dev_mem set_trace]. apply dev_mem_erase_invalidates. }
  clear H1.
  apply bind_Ret_inv in Hrun. destruct Hrun as ([] & [a2 wr] & H2 & Hrun).
  apply liftW_Ret_inv in H2. destruct H2 as [-> H2].
  apply bind_Ret_inv in Hrun. destruct Hrun as (? & [a3 ws] & H3 & Hrun).
  apply liftW_Ret_inv in H3. destruct H3 as [-> H3].
  apply CUDA_RETURN_IF_ERROR_Ret_inv in H3. destruct H3 as (E & _ & ->).
  injection Hrun as <-. cbn [fst snd].
  exists wl, wr. split; [|split; [exact H2|split]].
  - exact Hwl.
  - rewrite dev_mem_unchecked. destruct (decide _); reflexivity.
  - reflexivity.
Qed.

(** A successful tuning step, stage by stage. *)
Lemma Autotune_Ret {self : Place} stream buffers (a a' : AutotunedKernelCall)
    (w w' : World) :
  Autotune orc self stream buffers (a, w) = (Ret tt, (a', w')) ->
  exists w2 copies s3 s4,
    dev_mem w2 = dev_mem w
    /\ benchmark_configs orc self stream buffers a (a, w2) = (Ret copies, s3)
    /\ keep_best orc self stream buffers a copies s3 = (Ret tt, s4)
    /\ a' = fst s4
    /\ dev_mem w' = dev_mem (snd s4).
Proof.
  unfold Autotune. intros Hrun.
  apply bind_Ret_inv in Hrun. destruct Hrun as (ctx & [a1 w1] & H1 & Hrun).
  apply liftW_Ret_inv in H1. destruct H1 as [-> H1].
  unfold with_out in H1. apply bind_Ret_inv in H1.
  destruct H1 as (n1 & w1' & H1 & Hret). injection Hret as _ <-.
  apply CUDA_RETURN_IF_ERROR_Ret_inv in H1. destruct H1 as (E1 & _ & ->).
  apply bind_Ret_inv in Hrun. destruct Hrun as (? & [a2 w2] & H2 & Hrun).
  apply liftW_Ret_inv in H2. destruct H2 as [-> H2].
  apply CUDA_RETURN_IF_ERROR_Ret_inv in H2. destruct H2 as (E2 & _ & ->).
  rewrite with_cleanup_eq in Hrun. rewrite bind_get_l in Hrun.
  cbn [fst] in Hrun.
  match type of Hrun with
  | (fst (?m ?s), _) = _ => destruct (m s) as [r [a4 w4]] eqn:Hin
  end.
  cbn [fst snd] in Hrun. injection Hrun as -> -> <-.
  apply bind_Ret_inv in Hin. destruct Hin as (copies & s3 & H3 & H4).
  eexists _, copies, s3, (a', w4).
  split; [|split; [exact H3|split; [exact H4|split]]].
  - rewrite !dev_mem_unchecked.
    repeat (destruct (decide _)); reflexivity.
  - reflexivity.
  - cbn [snd]. rewrite dev_mem_unchecked. destruct (decide _); reflexivity.
Qed.

(** C2. After a successful autotuning pass, the input region of every
    aliasing triple of the call holds the bytes it held before the pass. *)
Theorem Autotune_restores_aliased_inputs {self : Place} stream buffers
    (a a' : AutotunedKernelCall) (w w' : World) :
  Autotune orc self stream buffers (a, w) = (Ret tt, (a', w')) ->
  forall input_idx output_idx size,
    In (input_idx, output_idx, size) (input_output_aliases_ a) ->
    exists p,
      buffers !! Z.to_nat input_idx = Some p
      /\ mem_read (dev_mem w') p (Z.to_nat size)
         = mem_read (dev_mem w) p (Z.to_nat size).
Proof.
  intros Hrun input_idx output_idx size Hin.
  apply Autotune_Ret in Hrun.
  destruct Hrun as (w2 & copies & s3 & s4 & Hm2 & H3 & H4 & _ & Hm').
  apply benchmark_configs_Ret in H3. destruct H3 as (w3 & Hsnap).
  cbn [snd] in Hsnap.
  assert (Hempty : snapshots_of (dev_mem w2) buffers ∅).
  { intros k v Hk. rewrite lookup_empty in Hk. discriminate. }
  destruct (snapshot_loop_Ret _ _ _ _ _ _ _ Hempty Hsnap) as [_ Hcopies].
  rewrite Hm2 in Hcopies.
  apply keep_best_Ret in H4.
  destruct H4 as (wl & wr & _ & Hrest & Hm4 & _).
  destruct (restore_loop_Ret _ _ _ _ _ Hcopies _ _ Hrest) as [_ Hall].
  destruct (Hall _ _ _ Hin) as (p & Hp & Hread).
  exists p. split; [exact Hp|].
  rewrite <- Hread. apply mem_read_ext. intros k _.
  rewrite Hm', Hm4. reflexivity.
Qed.

End AliasedInputs.

Lemma Autotune_restores_aliased_inputs_witness :
  exists a' w',
    Autotune plain_oracle (Heap 0) 5 [256] (sample_autotuned, initial_world)
    = (Ret tt, (a', w'))
    /\ exists p,
        [256] !! Z.to_nat 0 = Some p
        /\ mem_read (dev_mem w') p (Z.to_nat 4)
           = mem_read (dev_mem initial_world) p (Z.to_nat 4).
Proof.
  assert (Hr : fst (Autotune plain_oracle (Heap 0) 5 [256]
                      (sample_autotuned, initial_world)) = Ret tt).
  { vm_compute. reflexivity. }
  destruct
      (Autotune plain_oracle (Heap 0) 5 [256] (sample_autotuned, initial_world))
    as [r [a' w']] eqn:E.
  cbn [fst] in Hr. subst r. exists a', w'. split; [reflexivity|].
  apply (Autotune_restores_aliased_inputs (self := Heap 0) plain_oracle 5 [256]
           sample_autotuned a' initial_world w' E 0 0 4).
  left. reflexivity.
Defined.

(** The kernels of [plain_oracle] overwrite the first four bytes of their
    buffer, here the aliased input at address 256: a launch outside the
    tuning step leaves 0xff there, while the tuning step, which launches
    each config several times, leaves the zeros it found. *)
Example Autotune_restores_overwritten_input :
  mem_read (dev_mem (snd (snd (KernelCall_Launch plain_oracle (Heap 0) 5 [256]
                                 (sample_call "A" 1, initial_world)))))
    256 4
  = replicate 4 Byte.xff
  /\ mem_read (dev_mem (snd (snd (Autotune plain_oracle (Heap 0) 5 [256]
                                    (sample_autotuned, initial_world)))))
       256 4
     = replicate 4 Byte.x00.
Proof. split; vm_compute; reflexivity. Qed.

(** An aliasing triple whose input and output are different buffers has
    no copy taken, but the restoring loop still reads [size] bytes from
    the copy stored under its input index, which is a new empty vector:
    the pass ends in that read and never completes. *)
Example Autotune_restore_without_snapshot :
  fst (Autotune plain_oracle (Heap 0) 5 [256; 512]
         (two_buffer_autotuned, initial_world))
  = UB HostReadOutOfRange.
Proof. vm_compute. reflexivity. Qed.

(* ===================================================================== *)
(** * Properties: the one-shot tuning step *)
(* ===================================================================== *)


Section Measuring.

Context `{F32 : Float32} (orc : Oracle).










Lemma Runs_KernelCall_Launch_any_undefined {self : Place} stream buffers :
  Runs snd launch_event any_undefined
    (KernelCall_Launch orc self stream buffers).
Proof.
  eapply Runs_mono; [| |apply Runs_KernelCall_Launch]; auto.
  intros; exact I.
Qed.



Lemma same_configs_header (s s' : AutotunedKernelCall * World) :
  same_configs s s' -> same_header (fst s) (fst s').
Proof. intros (A & B & C & D & _). repeat split; assumption. Qed.














(** A launch of an object whose once-flag is set: the tuning step is
    skipped, the configs stay, and only a plain kernel launch reaches the
    device. *)
Lemma Launch_tuned {self : Place} stream buffers (a a' : AutotunedKernelCall)
    (w w' : World) r :
  autotune_once_ a = true ->
  AutotunedKernelCall_Launch orc self stream buffers (a, w) = (r, (a', w')) ->
  same_configs (a, w) (a', w') /\ runs launch_event any_undefined w r w'.
Proof.
  intros Honce Hrun. unfold AutotunedKernelCall_Launch in Hrun.
  unfold bind at 1 in Hrun. unfold autotune_once in Hrun.
  cbn [fst snd] in Hrun. rewrite Honce in Hrun.
  rewrite bind_get_l in Hrun. cbn [fst] in Hrun.
  unfold JAX_RETURN_IF_ERROR in Hrun.
  destruct (autotune_status_ a) eqn:Hst; cbn [ok] in Hrun.
  1: { rewrite bind_ret_l in Hrun.
       pose proof (Keeps_on_config 0 _
                     (Keeps_KernelCall_Launch (self := Element self 0) orc
                         stream buffers) (a, w)) as K.
       pose proof (Runs_on_config launch_event any_undefined 0 _ I
                     (Runs_KernelCall_Launch_any_undefined
                         (self := Element self 0) stream buffers)
                     (a, w)) as R.
       rewrite Hrun in K, R. split; [exact K|exact R]. }
  all: rewrite bind_fail_l in Hrun; injection Hrun as <- <- <-;
    (split; [reflexivity|apply runs_Fail; discriminate]).
Qed.



End Measuring.



(** On a device where [cuStreamSynchronize] fails, the tuning step fails
    in its last call, after the erase of line 487: the launch returns the
    driver error, and the object holds one config. *)
Example Launch_failed_tuning_after_erase :
  fst (AutotunedKernelCall_Launch (failing_oracle is_stream_synchronize)
         (Heap 0) 5 [256] (sample_autotuned, initial_world))
  = Fail (DriverError 700)
  /\ length (configs_
               (fst (snd (AutotunedKernelCall_Launch
                            (failing_oracle is_stream_synchronize)
                            (Heap 0) 5 [256]
                            (sample_autotuned, initial_world))))) = 1%nat.
Proof. split; vm_compute; reflexivity. Qed.

(** On a device whose timer reads zero for every benchmark, the best time
    of the first loop is zero, the quotient of line 462 is infinite, and
    its conversion to [int] is undefined. *)
Example Launch_zero_time :
  fst (AutotunedKernelCall_Launch zero_time_oracle (Heap 0) 5 [256]
         (sample_autotuned, initial_world))
  = UB ConversionOutOfRange.
Proof. vm_compute. reflexivity. Qed.

(** On [plain_oracle] a later event reads a longer elapsed time, so the
    first config measures fastest, and the first [Launch] keeps it. *)
Example Launch_keeps_fastest :
  let res := AutotunedKernelCall_Launch plain_oracle (Heap 0) 5 [256]
               (sample_autotuned, initial_world) in
  fst res = Ret tt
  /\ map description (configs_ (fst (snd res))) = ["A"].
Proof. cbv zeta. split; vm_compute; reflexivity. Qed.

(* ===================================================================== *)
(** * Properties: decoding records *)
(* ===================================================================== *)

Section Decoding.

Lemma convert_all_Ret {A B} (f : A -> Res B) (l : list A) (bs : list B) :
  convert_all f l = Ret bs <-> Forall2 (fun a b => f a = Ret b) l bs.
Proof.
  revert bs. induction l as [|a l IH]; intros bs; simpl.
  - split; [intros [= <-]; constructor|intros H; inversion H; reflexivity].
  - split.
    + destruct (f a) as [b| |] eqn:Ha; try discriminate.
      destruct (convert_all f l) as [bs'| |] eqn:Hl; try discriminate.
      intros [= <-]. constructor; [exact Ha|]. apply IH. reflexivity.
    + intros H. inversion H as [|a' b l' bs' Ha Hl]; subst.
      rewrite Ha. apply IH in Hl. rewrite Hl. reflexivity.
Qed.

Lemma convert_all_Fail {A B} (f : A -> Res B) (l : list A) e :
  convert_all f l = Fail e <->
  exists pre a post,
    l = pre ++ a :: post
    /\ f a = Fail e
    /\ Forall (fun a' => exists b, f a' = Ret b) pre.
Proof.
  induction l as [|a l IH]; simpl.
  - split; [discriminate|]. intros (pre & a & post & E & _).
    destruct pre; discriminate.
  - split.
    + destruct (f a) as [b|e'|] eqn:Ha; try discriminate.
      * destruct (convert_all f l) as [bs'|e'|] eqn:Hl; try discriminate.
        intros [= ->]. destruct (proj1 IH eq_refl) as (pre & a' & post & -> & H1 & H2).
        exists (a :: pre), a', post. split; [reflexivity|].
        split; [exact H1|]. constructor; [exists b; exact Ha|exact H2].
      * intros [= ->]. exists [], a, l. split; [reflexivity|].
        split; [exact Ha|constructor].
    + intros (pre & a' & post & E & H1 & H2).
      destruct pre as [|a0 pre]; simpl in E; injection E as -> ->.
      * rewrite H1. reflexivity.
      * inversion H2 as [|? ? [b Hb] H2']; subst. rewrite Hb.
        assert (Hl : convert_all f (pre ++ a' :: post) = Fail e).
        { apply IH. exists pre, a', post. auto. }
        rewrite Hl. reflexivity.
Qed.

Lemma convert_all_not_UB {A B} (f : A -> Res B) (l : list A) :
  (forall a u, f a <> UB u) -> forall u, convert_all f l <> UB u.
Proof.
  intros Hf. induction l as [|a l IH]; intros u; simpl; [discriminate|].
  destruct (f a) as [b|e|u'] eqn:Ha; [|discriminate|exfalso; exact (Hf a u' Ha)].
  destruct (convert_all f l) as [bs|e|u'] eqn:Hl; try discriminate.
  exfalso. exact (IH u' eq_refl).
Qed.

Lemma Param_FromProto_Ret proto param :
  Param_FromProto proto = Ret param <-> proto = Param_ToProto param.
Proof.
  split.
  - destruct proto; simpl; intros [= <-]; reflexivity.
  - intros ->. destruct param; reflexivity.
Qed.

Lemma Param_FromProto_Fail proto e :
  Param_FromProto proto = Fail e <->
  proto = Proto.VALUE_NOT_SET
  /\ e = InvalidArgumentError "Unknown scalar parameter type.".
Proof.
  split.
  - destruct proto; simpl; try discriminate. intros [= <-]. auto.
  - intros [-> ->]. reflexivity.
Qed.

Lemma Params_FromProto_Ret protos params :
  convert_all Param_FromProto protos = Ret params <->
  protos = map Param_ToProto params.
Proof.
  rewrite convert_all_Ret. split.
  - induction 1 as [|a b l bs Hab _ IH]; simpl; [reflexivity|].
    apply Param_FromProto_Ret in Hab. rewrite Hab, IH. reflexivity.
  - intros ->. induction params as [|b bs IH]; simpl; constructor.
    + apply Param_FromProto_Ret. reflexivity.
    + exact IH.
Qed.

Lemma Params_FromProto_Fail protos e :
  convert_all Param_FromProto protos = Fail e <->
  In Proto.VALUE_NOT_SET protos
  /\ e = InvalidArgumentError "Unknown scalar parameter type.".
Proof.
  rewrite convert_all_Fail. split.
  - intros (pre & a & post & -> & Ha & _).
    apply Param_FromProto_Fail in Ha. destruct Ha as [-> ->].
    split; [|reflexivity]. apply in_or_app. right. left. reflexivity.
  - intros [Hin ->]. induction protos as [|a l IH]; [destruct Hin|].
    destruct (Param_FromProto a) as [b|e|u] eqn:Ha.
    + destruct Hin as [->|Hin]; [discriminate|].
      destruct (IH Hin) as (pre & a' & post & -> & H1 & H2).
      exists (a :: pre), a', post. split; [reflexivity|].
      split; [exact H1|]. constructor; [exists b; exact Ha|exact H2].
    + apply Param_FromProto_Fail in Ha. destruct Ha as [-> ->].
      exists [], Proto.VALUE_NOT_SET, l. split; [reflexivity|].
      split; [reflexivity|constructor].
    + destruct a; discriminate.
Qed.

(** X1. [KernelCall::FromProto] fails exactly when some parameter of the
    record has no value set, and then with the invalid-argument error
    "Unknown scalar parameter type."; otherwise it returns the call with
    the record's grid and parameters, no module image resolved. *)
Theorem KernelCall_FromProto_cases (proto : Proto.TritonKernelCall) :
  (In Proto.VALUE_NOT_SET (Proto.parameters proto) ->
   KernelCall_FromProto proto
   = Fail (InvalidArgumentError "Unknown scalar parameter type."))
  /\ (~ In Proto.VALUE_NOT_SET (Proto.parameters proto) ->
      exists parameters,
        Proto.parameters proto = map Param_ToProto parameters
        /\ KernelCall_FromProto proto
           = Ret (KernelCall_new (Kernel_FromProto (Proto.kernel proto))
                    (Proto.grid_0 proto) (Proto.grid_1 proto)
                    (Proto.grid_2 proto) parameters)).
Proof.
  unfold KernelCall_FromProto. split.
  - intros Hin.
    assert (H : convert_all Param_FromProto (Proto.parameters proto)
                = Fail (InvalidArgumentError "Unknown scalar parameter type.")).
    { apply Params_FromProto_Fail. auto. }
    rewrite H. reflexivity.
  - intros Hnot.
    destruct (convert_all Param_FromProto (Proto.parameters proto))
      as [parameters|e|u] eqn:H.
    + exists parameters. split; [|reflexivity].
      apply Params_FromProto_Ret. exact H.
    + apply Params_FromProto_Fail in H. destruct H as [Hin _].
      contradiction.
    + exfalso. revert H. apply convert_all_not_UB.
      intros a u'. destruct a; discriminate.
Qed.

End Decoding.

Lemma KernelCall_FromProto_cases_witness :
  KernelCall_FromProto
    {| Proto.kernel := Kernel_ToProto (sample_kernel "A" 4);
       Proto.grid_0 := 1; Proto.grid_1 := 1; Proto.grid_2 := 1;
       Proto.parameters := [Proto.kI32 7; Proto.VALUE_NOT_SET] |}
  = Fail (InvalidArgumentError "Unknown scalar parameter type.").
Proof.
  apply (proj1 (KernelCall_FromProto_cases _)). simpl. auto.
Defined.

Section Encoding.

(** The warp count of a decoded kernel survives up to the 32-bit product
    of the constructor: modulo 2^27. *)
Lemma Kernel_ToProto_FromProto (proto : Proto.TritonKernel) :
  Kernel_ToProto (Kernel_FromProto proto)
  = {| Proto.kernel_name := Proto.kernel_name proto;
       Proto.num_warps := Proto.num_warps proto mod 2 ^ 27;
       Proto.shared_mem_bytes := Proto.shared_mem_bytes proto;
       Proto.ptx := Proto.ptx proto;
       Proto.ttir := Proto.ttir proto;
       Proto.compute_capability := Proto.compute_capability proto |}.
Proof.
  unfold Kernel_ToProto, Kernel_FromProto, Kernel_new. simpl. f_equal.
  unfold wrap32, kNumThreadsPerWarp.
  replace (2 ^ 32) with (32 * 2 ^ 27) by reflexivity.
  rewrite (Z.mul_comm (Proto.num_warps proto) 32).
  rewrite Zmult_mod_distr_l.
  rewrite (Z.mul_comm 32), Z.div_mul by lia. reflexivity.
Qed.

Lemma Params_ToProto_FromProto protos params :
  convert_all Param_FromProto protos = Ret params ->
  map Param_ToProto params = protos.
Proof. intros H. apply Params_FromProto_Ret in H. auto. Qed.

Lemma KernelCall_ToProto_FromProto (proto : Proto.TritonKernelCall) c :
  KernelCall_FromProto proto = Ret c ->
  0 <= Proto.num_warps (Proto.kernel proto) < 2 ^ 27 ->
  KernelCall_ToProto c = proto.
Proof.
  unfold KernelCall_FromProto. intros H Hw.
  destruct (convert_all Param_FromProto (Proto.parameters proto))
    as [params| |] eqn:Hp; try discriminate.
  injection H as <-. unfold KernelCall_ToProto, KernelCall_new. simpl.
  rewrite Kernel_ToProto_FromProto, (Params_ToProto_FromProto _ _ Hp).
  rewrite Z.mod_small by exact Hw.
  destruct proto as [[] ? ? ? ?]. reflexivity.
Qed.

Lemma Configs_ToProto_FromProto protos configs :
  convert_all Config_FromProto protos = Ret configs ->
  Forall small_num_warps protos ->
  map Config_ToProto configs = protos.
Proof.
  rewrite convert_all_Ret. induction 1 as [|a b l bs Hab _ IH]; intros Hw;
    simpl; [reflexivity|].
  inversion Hw as [|? ? Ha Hl]; subst. rewrite (IH Hl). f_equal.
  unfold Config_FromProto in Hab.
  destruct (KernelCall_FromProto (Proto.kernel_call a)) as [kc| |] eqn:Hkc;
    try discriminate.
  injection Hab as <-. unfold Config_ToProto. simpl.
  rewrite (KernelCall_ToProto_FromProto _ _ Hkc Ha).
  destruct a. reflexivity.
Qed.

Lemma Alias_ToProto_FromProto l :
  map Alias_ToProto (map Alias_FromProto l) = l.
Proof.
  induction l as [|[i o n] l IH]; simpl; [reflexivity|].
  rewrite IH. reflexivity.
Qed.

(** X2. A record that [FromProto] accepts is given back unchanged by
    [ToProto], for a [KernelCall] and for an [AutotunedKernelCall],
    provided every warp count is below 2^27, so that the 32-bit product
    with the warp size does not wrap. *)
Theorem FromProto_ToProto_round_trip :
  (forall (proto : Proto.TritonKernelCall) c,
      KernelCall_FromProto proto = Ret c ->
      0 <= Proto.num_warps (Proto.kernel proto) < 2 ^ 27 ->
      KernelCall_ToProto c = proto)
  /\ (forall (proto : Proto.TritonAutotunedKernelCall) a,
      AutotunedKernelCall_FromProto proto = Ret a ->
      Forall small_num_warps (Proto.configs proto) ->
      AutotunedKernelCall_ToProto a = proto).
Proof.
  split; [exact KernelCall_ToProto_FromProto|].
  intros proto a H Hw. unfold AutotunedKernelCall_FromProto in H.
  destruct (convert_all Config_FromProto (Proto.configs proto))
    as [configs| |] eqn:Hc; try discriminate.
  injection H as <-.
  unfold AutotunedKernelCall_ToProto, AutotunedKernelCall_new. simpl.
  rewrite (Configs_ToProto_FromProto _ _ Hc Hw), Alias_ToProto_FromProto.
  destruct proto. reflexivity.
Qed.

End Encoding.

Lemma FromProto_ToProto_round_trip_witness :
  KernelCall_ToProto (unresolved_call (sample_call "A" 4))
  = KernelCall_ToProto (sample_call "A" 4).
Proof.
  apply (proj1 FromProto_ToProto_round_trip).
  - apply KernelCall_roundtrip.
    split; [split|]; vm_compute; first [reflexivity | intro; discriminate].
  - vm_compute. split; [intro; discriminate|reflexivity].
Defined.

(** A warp count of 2^27 wraps to a block width of 0, and is written back
    as 0. *)
Example Kernel_ToProto_wraps :
  Proto.num_warps
    (Kernel_ToProto (Kernel_new "k" (2 ^ 27) 0 "" "" 80)) = 0.
Proof. reflexivity. Qed.

(* ===================================================================== *)
(** * Properties: the decode cache *)
(* ===================================================================== *)

Section DecodeCache.

Context `{F32 : Float32}.
Variable inflate : list byte -> ZlibFailure + list byte.
Variable ParseFromString : list byte -> option TritonAnyKernelCall.

Lemma ZlibUncompress_loop_result fuel compressed dest_len r :
  ZlibUncompress_loop inflate fuel compressed dest_len = Some r ->
  (exists data, inflate compressed = inr data /\ r = Ret data)
  \/ (exists e, inflate compressed = inl e)
     /\ r = Fail (InvalidArgumentError uncompress_message).
Proof.
  revert dest_len. induction fuel as [|fuel IH]; intros dest_len;
    [discriminate|].
  simpl. unfold uncompress.
  destruct (inflate compressed) as [[]|data] eqn:Hin.
  - intros [= <-]. right. split; [eauto|reflexivity].
  - intros [= <-]. right. split; [eauto|reflexivity].
  - destruct (decide (Z.of_nat (length data) <= dest_len)).
    + intros [= <-]. left. eauto.
    + intros H. destruct (IH _ H) as [(d & Hd & ->)|[(e & He) _]].
      * left. eauto.
      * discriminate.
Qed.

Lemma decode_kernel_call_Fail proto e :
  decode_kernel_call proto = Fail e ->
  e = InvalidArgumentError "Unknown scalar parameter type."
  \/ e = InvalidArgumentError "Unknown kernel call type.".
Proof.
  destruct proto as [kc|akc|]; simpl.
  - unfold KernelCall_FromProto.
    destruct (convert_all Param_FromProto (Proto.parameters kc))
      as [ps|e'|u] eqn:H; try discriminate.
    intros [= <-]. apply Params_FromProto_Fail in H. left. apply H.
  - unfold AutotunedKernelCall_FromProto.
    destruct (convert_all Config_FromProto (Proto.configs akc))
      as [cs|e'|u] eqn:H; try discriminate.
    intros [= <-]. apply convert_all_Fail in H.
    destruct H as (pre & cfg & post & _ & H & _).
    unfold Config_FromProto, KernelCall_FromProto in H.
    destruct (convert_all Param_FromProto
                (Proto.parameters (Proto.kernel_call cfg)))
      as [ps|e''|u] eqn:H'; try discriminate.
    injection H as <-. apply Params_FromProto_Fail in H'. left. apply H'.
  - intros [= <-]. right. reflexivity.
Qed.

Lemma decode_kernel_call_not_UB proto u : decode_kernel_call proto <> UB u.
Proof.
  assert (Hp : forall l u', convert_all Param_FromProto l <> UB u').
  { intros l. apply convert_all_not_UB. intros a u'. destruct a; discriminate. }
  assert (Hk : forall kc u', KernelCall_FromProto kc <> UB u').
  { intros kc u'. unfold KernelCall_FromProto.
    destruct (convert_all Param_FromProto (Proto.parameters kc)) eqn:H;
      try discriminate. exfalso. exact (Hp _ _ H). }
  destruct proto as [kc|akc|]; simpl; [| |discriminate].
  - destruct (KernelCall_FromProto kc) eqn:H; try discriminate.
    exfalso. exact (Hk _ _ H).
  - unfold AutotunedKernelCall_FromProto.
    destruct (convert_all Config_FromProto (Proto.configs akc)) eqn:H;
      try discriminate.
    exfalso. revert H. apply convert_all_not_UB. intros cfg u'.
    unfold Config_FromProto.
    destruct (KernelCall_FromProto (Proto.kernel_call cfg)) eqn:H;
      try discriminate. exfalso. exact (Hk _ _ H).
Qed.

(** [GetKernelCall] has no undefined behaviour, and when it fails it
    leaves the process as it was, with nothing stored for the payload: the
    failure is an invalid-argument error with one of four messages, for a
    stream that does not decompress, a string that does not parse, a
    record with neither kind set, or a parameter with no value set. *)
Lemma GetKernelCall_failed fuel (opaque : list byte) (p p' : Process) r :
  GetKernelCall inflate ParseFromString fuel opaque p = Some (r, p') ->
  (forall u, r <> UB u)
  /\ (forall e, r = Fail e ->
        p' = p
        /\ kernel_calls p !! opaque = None
        /\ exists msg,
            e = InvalidArgumentError msg
            /\ In msg ["Failed to uncompress opaque data.";
                       "Failed to parse serialized data.";
                       "Unknown kernel call type.";
                       "Unknown scalar parameter type."]).
Proof.
  unfold GetKernelCall.
  destruct (kernel_calls p !! opaque) as [it|] eqn:Hit.
  { intros [= <- <-]. split; [discriminate|discriminate]. }
  unfold ZlibUncompress.
  destruct (ZlibUncompress_loop inflate fuel opaque _) as [z|] eqn:Hz;
    [|discriminate].
  apply ZlibUncompress_loop_result in Hz.
  destruct Hz as [(data & _ & ->)|[_ ->]].
  2:{ intros [= <- <-]. split; [discriminate|]. intros e [= <-].
      split; [reflexivity|]. split; [reflexivity|].
      eexists. split; [reflexivity|]. simpl. auto. }
  destruct (ParseFromString data) as [proto|].
  2:{ intros [= <- <-]. split; [discriminate|]. intros e [= <-].
      split; [reflexivity|]. split; [reflexivity|].
      eexists. split; [reflexivity|]. simpl. auto. }
  destruct (decode_kernel_call proto) as [obj|e|u] eqn:Hd.
  - intros [= <- <-]. split; discriminate.
  - intros [= <- <-]. split; [discriminate|]. intros e' [= <-].
    split; [reflexivity|]. split; [reflexivity|].
    destruct (decode_kernel_call_Fail _ _ Hd) as [->| ->];
      (eexists; split; [reflexivity|]; simpl; auto).
  - exfalso. exact (decode_kernel_call_not_UB _ _ Hd).
Qed.

Lemma Process_wf_new (w : World) : Process_wf (new_process w).
Proof.
  split; intros ? ?; unfold new_process; simpl;
    intros; rewrite lookup_empty in *; discriminate.
Qed.

(** A payload that [GetKernelCall] has decoded stays decoded: every
    later call with the same bytes returns the same pointer without
    decompressing or parsing (even with no fuel) and without changing the
    process.  The call leaves the device alone, keeps the pointers of all
    other payloads and the objects they point to, and the new pointer is
    valid and shared with no other payload. *)
Lemma GetKernelCall_decoded fuel (opaque : list byte) (p p' : Process) it :
  Process_wf p ->
  GetKernelCall inflate ParseFromString fuel opaque p = Some (Ret it, p') ->
  Process_wf p'
  /\ world p' = world p
  /\ kernel_calls p' !! opaque = Some it
  /\ is_Some (call_heap p' !! it)
  /\ (forall fuel',
        GetKernelCall inflate ParseFromString fuel' opaque p'
        = Some (Ret it, p'))
  /\ (forall k i, kernel_calls p !! k = Some i ->
                  kernel_calls p' !! k = Some i)
  /\ (forall i obj, call_heap p !! i = Some obj ->
                    call_heap p' !! i = Some obj).
Proof.
  intros [Hb Hinj]. unfold GetKernelCall at 1.
  destruct (kernel_calls p !! opaque) as [it0|] eqn:Hit.
  { intros [= <- <-]. split; [split; assumption|]. split; [reflexivity|].
    split; [exact Hit|]. split.
    { apply lookup_lt_is_Some_2. exact (Hb _ _ Hit). }
    split; [|split; auto].
    intros fuel'. unfold GetKernelCall. rewrite Hit. reflexivity. }
  destruct (ZlibUncompress inflate fuel opaque) as [[data| |]|];
    try discriminate.
  destruct (ParseFromString data) as [proto|]; [|discriminate].
  destruct (decode_kernel_call proto) as [obj| |]; try discriminate.
  intros [= <- <-]. cbn [kernel_calls call_heap world].
  split; [split|].
  - cbn [kernel_calls call_heap]. intros k i. rewrite length_app. simpl.
    destruct (decide (k = opaque)) as [->|Hne].
    + rewrite lookup_insert_eq. intros [= <-]. lia.
    + rewrite lookup_insert_ne by congruence. intros H.
      pose proof (Hb _ _ H). lia.
  - cbn [kernel_calls call_heap]. intros k1 k2 i.
    destruct (decide (k1 = opaque)) as [->|H1];
      destruct (decide (k2 = opaque)) as [->|H2];
      rewrite ?lookup_insert_eq, ?lookup_insert_ne by congruence.
    + reflexivity.
    + intros [= <-] H. pose proof (Hb _ _ H). lia.
    + intros H [= <-]. pose proof (Hb _ _ H). lia.
    + apply Hinj.
  - split; [reflexivity|]. split; [apply lookup_insert_eq|]. split.
    { apply lookup_lt_is_Some_2. rewrite length_app. simpl. lia. }
    split; [|split].
    + intros fuel'. unfold GetKernelCall. cbn [kernel_calls].
      rewrite lookup_insert_eq. reflexivity.
    + intros k i H. rewrite lookup_insert_ne; [exact H|]. congruence.
    + intros i o H. apply lookup_app_l_Some. exact H.
Qed.

(** X3. [GetKernelCall] has no undefined behaviour, and when it fails it
    leaves the process as it was, with nothing stored for the payload: the
    failure is an invalid-argument error with one of four messages, for a
    stream that does not decompress, a string that does not parse, a
    record with neither kind set, or a parameter with no value set. *)
Theorem GetKernelCall_failure fuel (opaque : list byte) (p p' : Process) r :
  GetKernelCall inflate ParseFromString fuel opaque p = Some (r, p') ->
  (forall u, r <> UB u)
  /\ (forall e, r = Fail e ->
        p' = p
        /\ kernel_calls p !! opaque = None
        /\ exists msg,
            e = InvalidArgumentError msg
            /\ In msg ["Failed to uncompress opaque data.";
                       "Failed to parse serialized data.";
                       "Unknown kernel call type.";
                       "Unknown scalar parameter type."]).
Proof. exact (GetKernelCall_failed fuel opaque p p' r). Qed.

(** X4. A payload that [GetKernelCall] has decoded stays decoded: every
    later call with the same bytes returns the same pointer without
    decompressing or parsing (even with no fuel) and without changing the
    process.  The call leaves the device alone, keeps the pointers of all
    other payloads and the objects they point to, and the new pointer is
    valid and shared with no other payload. *)
Theorem GetKernelCall_cached fuel (opaque : list byte) (p p' : Process) it :
  Process_wf p ->
  GetKernelCall inflate ParseFromString fuel opaque p = Some (Ret it, p') ->
  Process_wf p'
  /\ world p' = world p
  /\ kernel_calls p' !! opaque = Some it
  /\ is_Some (call_heap p' !! it)
  /\ (forall fuel',
        GetKernelCall inflate ParseFromString fuel' opaque p'
        = Some (Ret it, p'))
  /\ (forall k i, kernel_calls p !! k = Some i ->
                  kernel_calls p' !! k = Some i)
  /\ (forall i obj, call_heap p !! i = Some obj ->
                    call_heap p' !! i = Some obj).
Proof. exact (GetKernelCall_decoded fuel opaque p p' it). Qed.

End DecodeCache.

Lemma GetKernelCall_failure_witness :
  let p := new_process initial_world in
  GetKernelCall run_inflate sample_parse 64 [Byte.x4e] p
  = Some (Fail (InvalidArgumentError "Unknown kernel call type."), p)
  /\ kernel_calls p !! [Byte.x4e] = None.
Proof.
  intros p.
  assert (E : GetKernelCall run_inflate sample_parse 64 [Byte.x4e] p
              = Some (Fail (InvalidArgumentError "Unknown kernel call type."),
                      p)) by (vm_compute; reflexivity).
  split; [exact E|].
  exact (proj1 (proj2 (proj2 (GetKernelCall_failure _ _ _ _ _ _ _ E)
                         _ eq_refl))).
Defined.

Lemma GetKernelCall_cached_witness :
  let p := new_process initial_world in
  let p' := {| kernel_calls := {[ [Byte.x4b] := 0%nat ]};
               call_heap := [OfKernelCall
                               (unresolved_call (sample_call "K" 4))];
               world := initial_world |} in
  GetKernelCall run_inflate sample_parse 64 [Byte.x4b] p = Some (Ret 0%nat, p')
  /\ GetKernelCall run_inflate sample_parse 0 [Byte.x4b] p'
     = Some (Ret 0%nat, p').
Proof.
  intros p p'.
  assert (E : GetKernelCall run_inflate sample_parse 64 [Byte.x4b] p
              = Some (Ret 0%nat, p')) by (vm_compute; reflexivity).
  split; [exact E|].
  destruct (GetKernelCall_cached _ _ _ _ _ _ _
              (Process_wf_new initial_world) E) as (_ & _ & _ & _ & H & _).
  apply H.
Defined.

(* ===================================================================== *)
(** * Properties: the entry point *)
(* ===================================================================== *)

Section EntryPointProperties.

Context `{F32 : Float32} (orc : Oracle).
Variable inflate : list byte -> ZlibFailure + list byte.
Variable ParseFromString : list byte -> option TritonAnyKernelCall.
Variable driver_error_message : CUresult -> string.

(** Unless it meets undefined behaviour, the once-flag body leaves the
    flag set. *)
Lemma autotune_once_sets {self : Place} stream buffers
    (s s1 : AutotunedKernelCall * World) r :
  autotune_once orc self stream buffers s = (r, s1) ->
  (forall u, r <> UB u) ->
  r = Ret tt /\ autotune_once_ (fst s1) = true.
Proof.
  unfold autotune_once. destruct (autotune_once_ (fst s)) eqn:Honce.
  { intros [= <- <-] _. auto. }
  destruct (decide (1 < length (configs_ (fst s)))%nat).
  - destruct (Autotune orc self stream buffers s) as [[[]|e|u] s'];
      intros [= <- <-] Hu; auto.
    exfalso. exact (Hu u eq_refl).
  - intros [= <- <-] _. auto.
Qed.

Lemma Launch_sets_once {self : Place}
    stream buffers (a a1 : AutotunedKernelCall)
    (w w1 : World) r :
  AutotunedKernelCall_Launch orc self stream buffers (a, w) = (r, (a1, w1)) ->
  (forall u, r <> UB u) ->
  autotune_once_ a1 = true.
Proof.
  unfold AutotunedKernelCall_Launch. unfold bind at 1.
  destruct (autotune_once orc self stream buffers (a, w)) as [r0 [a0 w0]]
      eqn:H0.
  destruct r0 as [[]|e|u].
  - destruct (autotune_once_sets _ _ _ _ _ H0 ltac:(discriminate))
      as [_ Honce].
    cbn [fst] in Honce. rewrite bind_get_l. cbn [fst].
    unfold JAX_RETURN_IF_ERROR.
    destruct (ok (autotune_status_ a0)).
    + rewrite bind_ret_l. intros Hrun _.
      pose proof (Keeps_on_config 0 _
                    (Keeps_KernelCall_Launch (self := Element self 0) orc stream
                        buffers) (a0, w0))
        as K.
      rewrite Hrun in K. destruct K as (_ & _ & K & _).
      cbn [fst snd] in K. congruence.
    + rewrite bind_fail_l. intros [= <- <- <-] _. exact Honce.
  - intros [= <- <- <-] Hu.
    destruct (autotune_once_sets _ _ _ _ _ H0 ltac:(discriminate))
      as [? _]. discriminate.
  - intros [= <- <- <-] Hu. exfalso. exact (Hu u eq_refl).
Qed.

(** A launch that does not meet undefined behaviour leaves the object
    settled. *)
Lemma KernelCallBase_Launch_settles {self : Place}
    stream buffers obj obj' (w w' : World) r :
  KernelCallBase_Launch orc self stream buffers (obj, w) = (r, (obj', w')) ->
  (forall u, r <> UB u) ->
  settled obj'.
Proof.
  unfold KernelCallBase_Launch. cbn [fst snd]. destruct obj as [c|a].
  - destruct (KernelCall_Launch orc self stream buffers (c, w)) as [r0 s0].
    intros [= <- <- <-] _. exact I.
  - destruct (AutotunedKernelCall_Launch orc self stream buffers (a, w))
      as [r0 [a0 w0]] eqn:H.
    intros [= <- <- <-] Hu. exact (Launch_sets_once _ _ _ _ _ _ _ H Hu).
Qed.

(** A launch of a settled object leaves it settled and issues the events
    of a plain kernel launch only. *)
Lemma KernelCallBase_Launch_settled {self : Place}
    stream buffers obj obj' (w w' : World) r :
  settled obj ->
  KernelCallBase_Launch orc self stream buffers (obj, w) = (r, (obj', w')) ->
  settled obj'
  /\ exists new, trace w' = new ++ trace w /\ Forall launch_event new.
Proof.
  unfold KernelCallBase_Launch. cbn [fst snd]. destruct obj as [c|a].
  - intros _.
    pose proof (Runs_KernelCall_Launch (self := self) orc stream buffers (c, w))
        as R.
    destruct (KernelCall_Launch orc self stream buffers (c, w)) as [r0 [c0 w0]].
    intros [= <- <- <-]. split; [exact I|].
    destruct R as (new & T & F & _). exists new. auto.
  - intros Hs.
    destruct (AutotunedKernelCall_Launch orc self stream buffers (a, w))
      as [r0 [a0 w0]] eqn:H.
    intros [= <- <- <-].
    destruct (Launch_tuned (self := self) orc _ _ _ _ _ _ _ Hs H) as [K R].
    split.
    + destruct K as (_ & _ & K & _). cbn [fst] in K. simpl. congruence.
    + destruct R as (new & T & F & _). exists new. auto.
Qed.

(** The two ways of a call of the entry point's lambda: the payload is not
    decoded and nothing changes, or the decoded object is launched and
    written back. *)
Lemma lookup_and_launch_inv fuel stream buffers (opaque : list byte)
    (p p' : Process) r :
  Process_wf p ->
  lookup_and_launch orc inflate ParseFromString fuel stream buffers opaque p
  = Some (r, p') ->
  (exists e,
      GetKernelCall inflate ParseFromString fuel opaque p = Some (Fail e, p)
      /\ r = Fail e /\ p' = p)
  \/ (exists it p1 obj obj' w',
        GetKernelCall inflate ParseFromString fuel opaque p
        = Some (Ret it, p1)
        /\ call_heap p1 !! it = Some obj
        /\ KernelCallBase_Launch orc (Heap it) stream buffers
             (obj, world p1)
           = (r, (obj', w'))
        /\ p' = {| kernel_calls := kernel_calls p1;
                   call_heap := <[it := obj']> (call_heap p1);
                   world := w' |}).
Proof.
  intros Hwf. unfold lookup_and_launch.
  destruct (GetKernelCall inflate ParseFromString fuel opaque p)
    as [[r0 p1]|] eqn:E; [|discriminate].
  destruct (GetKernelCall_failed _ _ _ _ _ _ _ E) as [Hu Hf].
  destruct r0 as [it|e|u].
  - destruct (GetKernelCall_decoded _ _ _ _ _ _ _ Hwf E)
      as (_ & _ & _ & [obj Hobj] & _).
    rewrite Hobj.
    destruct (KernelCallBase_Launch orc (Heap it) stream buffers
                (obj, world p1)) as [r1 [obj' w']] eqn:HL.
    intros [= <- <-]. right. exists it, p1, obj, obj', w'. auto.
  - destruct (Hf e eq_refl) as (-> & _). intros [= <- <-]. left.
    exists e. auto.
  - exfalso. exact (Hu u eq_refl).
Qed.

Lemma TritonKernelCall_inv fuel stream buffers (opaque : list byte)
    (p p' : Process) res :
  TritonKernelCall orc inflate ParseFromString driver_error_message
    fuel stream buffers opaque p = Some (res, p') ->
  exists r,
    lookup_and_launch orc inflate ParseFromString fuel stream buffers opaque p
    = Some (r, p')
    /\ ((forall u, res <> UB u) -> forall u, r <> UB u).
Proof.
  unfold TritonKernelCall.
  destruct (lookup_and_launch orc inflate ParseFromString fuel stream buffers
              opaque p) as [[[[]|e|u] p1]|]; try discriminate;
    intros [= <- <-]; eexists; (split; [reflexivity|]);
    intros H u'; try discriminate.
  intros [= <-]. exact (H u eq_refl).
Qed.

Lemma Process_wf_write (p : Process) it obj' (w' : World) :
  Process_wf p ->
  Process_wf {| kernel_calls := kernel_calls p;
                call_heap := <[it := obj']> (call_heap p);
                world := w' |}.
Proof.
  intros [Hb Hinj]. split; cbn [kernel_calls call_heap].
  - intros k i H. rewrite length_insert. exact (Hb _ _ H).
  - exact Hinj.
Qed.

(** A call of the entry point changes only the object of its own
    payload: the pointers of all payloads decoded before stay, the
    objects of the other payloads are untouched, and the map stays well
    formed.  When the payload cannot be decoded, the process is left as
    it was, so that nothing reaches the device. *)
Lemma TritonKernelCall_keeps fuel stream buffers (opaque : list byte)
    (p p' : Process) res :
  Process_wf p ->
  TritonKernelCall orc inflate ParseFromString driver_error_message
    fuel stream buffers opaque p = Some (res, p') ->
  Process_wf p'
  /\ (forall k i, kernel_calls p !! k = Some i ->
        kernel_calls p' !! k = Some i
        /\ (k <> opaque -> call_heap p' !! i = call_heap p !! i))
  /\ (kernel_calls p' !! opaque = None -> p' = p).
Proof.
  intros Hwf Hrun.
  destruct (TritonKernelCall_inv _ _ _ _ _ _ _ Hrun) as (r & HL & _).
  destruct (lookup_and_launch_inv _ _ _ _ _ _ _ Hwf HL)
    as [(e & _ & _ & ->)|(it & p1 & obj & obj' & w' & HG & Hobj & _ & ->)].
  { split; [exact Hwf|]. split; [|reflexivity]. intros k i H. auto. }
  destruct (GetKernelCall_decoded _ _ _ _ _ _ _ Hwf HG)
    as (Hwf1 & _ & Hit & _ & _ & Hk & Hh).
  split; [apply Process_wf_write; exact Hwf1|].
  cbn [kernel_calls call_heap]. split.
  - intros k i H. split; [exact (Hk _ _ H)|]. intros Hne.
    assert (Hi : i <> it).
    { intros ->. apply Hne. destruct Hwf1 as [_ Hinj].
      exact (Hinj _ _ _ (Hk _ _ H) Hit). }
    rewrite list_lookup_insert_ne by congruence.
    destruct Hwf as [Hb _].
    destruct (lookup_lt_is_Some_2 _ _ (Hb _ _ H)) as [o Ho].
    rewrite Ho. exact (Hh _ _ Ho).
  - rewrite Hit. discriminate.
Qed.

(** X5. A call of the entry point changes only the object of its own
    payload: the pointers of all payloads decoded before stay, the
    objects of the other payloads are untouched, and the map stays well
    formed.  When the payload cannot be decoded, the process is left as
    it was, so that nothing reaches the device. *)
Theorem TritonKernelCall_frame fuel stream buffers (opaque : list byte)
    (p p' : Process) res :
  Process_wf p ->
  TritonKernelCall orc inflate ParseFromString driver_error_message
    fuel stream buffers opaque p = Some (res, p') ->
  Process_wf p'
  /\ (forall k i, kernel_calls p !! k = Some i ->
        kernel_calls p' !! k = Some i
        /\ (k <> opaque -> call_heap p' !! i = call_heap p !! i))
  /\ (kernel_calls p' !! opaque = None -> p' = p).
Proof.
  exact (TritonKernelCall_keeps fuel stream buffers opaque p p' res).
Qed.

(** X6. After a call of the entry point that returns for a payload that
    is decoded, the stored object is settled: its tuning step, if it has
    one, has run and will not run again. *)
Theorem TritonKernelCall_settles fuel stream buffers (opaque : list byte)
    (p p' : Process) res :
  Process_wf p ->
  TritonKernelCall orc inflate ParseFromString driver_error_message
    fuel stream buffers opaque p = Some (Ret res, p') ->
  is_Some (kernel_calls p' !! opaque) ->
  tuning_settled p' opaque.
Proof.
  intros Hwf Hrun [it0 Hit0].
  destruct (TritonKernelCall_inv _ _ _ _ _ _ _ Hrun) as (r & HL & Hu).
  specialize (Hu ltac:(discriminate)).
  destruct (lookup_and_launch_inv _ _ _ _ _ _ _ Hwf HL)
    as [(e & HG & _ & ->)|(it & p1 & obj & obj' & w' & HG & Hobj & HK & ->)].
  { destruct (GetKernelCall_failed _ _ _ _ _ _ _ HG) as [_ Hf].
    destruct (Hf e eq_refl) as (_ & Hnone & _). congruence. }
  destruct (GetKernelCall_decoded _ _ _ _ _ _ _ Hwf HG)
    as (_ & _ & Hit & _).
  exists it, obj'. cbn [kernel_calls call_heap]. split; [exact Hit|].
  split.
  - apply list_lookup_insert_eq. apply lookup_lt_Some in Hobj. exact Hobj.
  - exact (KernelCallBase_Launch_settles _ _ _ _ _ _ _ HK Hu).
Qed.

(** X7. Once the object of a payload is settled, it stays settled under
    every later call of the entry point, for this or any other payload,
    and a call for the payload itself issues the events of a plain kernel
    launch only: no timer call and no log line, so no benchmarking. *)
Theorem TritonKernelCall_settled fuel stream buffers (opaque opaque' : list byte)
    (p p' : Process) res :
  Process_wf p ->
  tuning_settled p opaque ->
  TritonKernelCall orc inflate ParseFromString driver_error_message
    fuel stream buffers opaque' p = Some (res, p') ->
  tuning_settled p' opaque
  /\ (opaque' = opaque ->
      exists new,
        trace (world p') = new ++ trace (world p)
        /\ Forall launch_event new).
Proof.
  intros Hwf (it0 & obj0 & Hit0 & Hobj0 & Hs) Hrun.
  destruct (TritonKernelCall_keeps _ _ _ _ _ _ _ Hwf Hrun)
    as (_ & Hk & _).
  destruct (Hk _ _ Hit0) as [Hit0' Hother].
  destruct (TritonKernelCall_inv _ _ _ _ _ _ _ Hrun) as (r & HL & _).
  destruct (lookup_and_launch_inv _ _ _ _ _ _ _ Hwf HL)
    as [(e & HG & _ & ->)|(it & p1 & obj & obj' & w' & HG & Hobj & HK & ->)].
  { split; [exists it0, obj0; auto|]. intros ->.
    destruct (GetKernelCall_failed _ _ _ _ _ _ _ HG) as [_ Hf].
    destruct (Hf e eq_refl) as (_ & Hnone & _). congruence. }
  destruct (GetKernelCall_decoded _ _ _ _ _ _ _ Hwf HG)
    as (_ & Hw & Hit & _ & _ & Hk1 & Hh).
  cbn [kernel_calls call_heap world] in *.
  destruct (decide (opaque' = opaque)) as [->|Hne].
  - assert (it = it0) by (pose proof (Hk1 _ _ Hit0); congruence). subst it.
    assert (obj = obj0) by (pose proof (Hh _ _ Hobj0); congruence). subst obj.
    destruct (KernelCallBase_Launch_settled _ _ _ _ _ _ _ Hs HK)
      as [Hs' Hnew].
    split.
    + exists it0, obj'. cbn [kernel_calls call_heap].
      split; [exact Hit0'|]. split; [|exact Hs'].
      apply list_lookup_insert_eq. apply lookup_lt_Some in Hobj. exact Hobj.
    + intros _. rewrite <- Hw. exact Hnew.
  - split; [|congruence].
    exists it0, obj0. cbn [kernel_calls call_heap].
    split; [exact Hit0'|]. split; [|exact Hs].
    rewrite (Hother ltac:(congruence)). exact Hobj0.
Qed.

End EntryPointProperties.

Lemma TritonKernelCall_frame_witness :
  let p := new_process initial_world in
  TritonKernelCall plain_oracle run_inflate sample_parse
    sample_driver_message 64 5 [256] [Byte.x4e] p
  = Some (Ret (Some "Unknown kernel call type."), p)
  /\ Process_wf p.
Proof.
  intros p.
  assert (E : TritonKernelCall plain_oracle run_inflate sample_parse
                sample_driver_message 64 5 [256] [Byte.x4e] p
              = Some (Ret (Some "Unknown kernel call type."), p))
    by (vm_compute; reflexivity).
  split; [exact E|].
  exact (proj1 (TritonKernelCall_frame _ _ _ _ _ _ _ _ _ _ _
                  (Process_wf_new initial_world) E)).
Defined.

Lemma TritonKernelCall_settles_witness :
  exists res p',
    TritonKernelCall plain_oracle run_inflate sample_parse
      sample_driver_message 64 5 [256] [Byte.x41]
      (new_process initial_world) = Some (Ret res, p')
    /\ tuning_settled p' [Byte.x41].
Proof.
  assert (H : match TritonKernelCall plain_oracle run_inflate sample_parse
                      sample_driver_message 64 5 [256] [Byte.x41]
                      (new_process initial_world) with
              | Some (Ret _, q) =>
                  bool_decide (is_Some (kernel_calls q !! [Byte.x41]))
              | _ => false
              end = true) by (vm_compute; reflexivity).
  revert H.
  destruct (TritonKernelCall plain_oracle run_inflate sample_parse
              sample_driver_message 64 5 [256] [Byte.x41]
              (new_process initial_world)) as [[[res| |] p']|] eqn:E;
    intros H; try discriminate H.
  exists res, p'. split; [reflexivity|].
  apply (TritonKernelCall_settles _ _ _ _ _ _ _ _ _ _ _
           (Process_wf_new initial_world) E).
  apply bool_decide_eq_true in H. exact H.
Defined.

Lemma TritonKernelCall_settled_witness :
  let p := {| kernel_calls := {[ [Byte.x4b] := 0%nat ]};
              call_heap := [OfKernelCall
                              (unresolved_call (sample_call "K" 4))];
              world := initial_world |} in
  exists res p',
    TritonKernelCall plain_oracle run_inflate sample_parse
      sample_driver_message 0 5 [256] [Byte.x4b] p = Some (res, p')
    /\ tuning_settled p' [Byte.x4b]
    /\ exists new,
        trace (world p') = new ++ trace (world p)
        /\ Forall launch_event new.
Proof.
  intros p.
  assert (Hwf : Process_wf p).
  { assert (E : GetKernelCall run_inflate sample_parse 64 [Byte.x4b]
                  (new_process initial_world) = Some (Ret 0%nat, p))
      by (vm_compute; reflexivity).
    exact (proj1 (GetKernelCall_decoded _ _ _ _ _ _ _
                    (Process_wf_new initial_world) E)). }
  assert (Hs : tuning_settled p [Byte.x4b]).
  { exists 0%nat, (OfKernelCall (unresolved_call (sample_call "K" 4))).
    split; [vm_compute; reflexivity|]. split; [reflexivity|exact I]. }
  assert (H : bool_decide
                (is_Some (TritonKernelCall plain_oracle run_inflate
                            sample_parse sample_driver_message 0 5 [256]
                            [Byte.x4b] p)) = true)
    by (vm_compute; reflexivity).
  apply bool_decide_eq_true in H. destruct H as [[res p'] E].
  exists res, p'. split; [exact E|].
  destruct (TritonKernelCall_settled _ _ _ _ _ _ _ _ _ _ _ _ Hwf Hs E)
    as [H1 H2].
  split; [exact H1|]. apply H2. reflexivity.
Defined.

(* ===================================================================== *)
(** * Properties: the per-context function cache *)
(* ===================================================================== *)

Section LoaderCache.

Context `{F32 : Float32} (orc : Oracle).

Lemma Runs_setup_keeps_context shm function :
  Runs id keeps_context any_undefined
    (setup_dynamic_shared_memory orc shm function).
Proof. unfold setup_dynamic_shared_memory. cbv zeta. repeat runs_step. Qed.

(** The body that runs between the push and the pop of the context. *)
Lemma Runs_load_keeps_context this context img :
  Runs id keeps_context any_undefined
    (do module <- with_out orc (cuModuleLoadData (mi_module_image_ img));
     run update_image this (push_module module);
     do function <- with_out orc
         (cuModuleGetFunction module (c_str (mi_kernel_name_ img)));
     run update_image this (insert_function context function);
     if decide (mi_shared_mem_bytes_ img <= kMaxStaticSharedMemBytes)
     then ret function
     else setup_dynamic_shared_memory orc (mi_shared_mem_bytes_ img) function).
Proof. repeat runs_step. apply Runs_setup_keeps_context. Qed.

(** The miss path of [GetFunctionForContext], step by step. *)
Lemma GetFunctionForContext_miss this context (w : World) img :
  image_heap w !! this = Some img ->
  mi_functions_ img !! context = None ->
  GetFunctionForContext orc this context w
  = (run CUDA_RETURN_IF_ERROR orc (cuCtxPushCurrent context);
     with_cleanup (unchecked orc cuCtxPopCurrent)
       (do module <- with_out orc (cuModuleLoadData (mi_module_image_ img));
        run update_image this (push_module module);
        do function <- with_out orc
            (cuModuleGetFunction module (c_str (mi_kernel_name_ img)));
        run update_image this (insert_function context function);
        if decide (mi_shared_mem_bytes_ img <= kMaxStaticSharedMemBytes)
        then ret function
        else setup_dynamic_shared_memory orc
               (mi_shared_mem_bytes_ img) function)) w.
Proof.
  intros Himg Hctx. unfold GetFunctionForContext.
  rewrite bind_get_l, Himg, Hctx. reflexivity.
Qed.

(** X8. [GetFunctionForContext] for a context whose function is not yet
    cached pushes the context first.  If the push fails, that is the only
    driver call and its error is returned.  If it succeeds, the context is
    popped again as the last call on every path, whatever the result, and
    no call between the two pushes or pops a context. *)
Theorem GetFunctionForContext_restores_context this context (w w' : World)
    img r :
  image_heap w !! this = Some img ->
  mi_functions_ img !! context = None ->
  GetFunctionForContext orc this context w = (r, w') ->
  let rc := drv_result orc (length (trace w)) (cuCtxPushCurrent context) in
  (rc <> CUDA_SUCCESS ->
   r = Fail (DriverError rc)
   /\ trace w' = EvDriver (cuCtxPushCurrent context) rc :: trace w)
  /\ (rc = CUDA_SUCCESS ->
      exists mid rc',
        trace w'
        = EvDriver cuCtxPopCurrent rc' :: mid
          ++ EvDriver (cuCtxPushCurrent context) CUDA_SUCCESS :: trace w
        /\ Forall keeps_context mid).
Proof.
  intros Himg Hctx Hrun rc.
  rewrite (GetFunctionForContext_miss _ _ _ _ Himg Hctx) in Hrun.
  rewrite bind_CUDA in Hrun. fold rc in Hrun.
  destruct (decide (rc = CUDA_SUCCESS)) as [E|E].
  - split; [contradiction|]. intros _.
    rewrite with_cleanup_eq in Hrun.
    match type of Hrun with
    | (fst (?m ?s), _) = _ =>
        pose proof (Runs_load_keeps_context this context img s) as R;
        destruct (m s) as [r1 w1]
    end.
    cbn [fst snd id] in *. injection Hrun as <- <-.
    destruct R as (mid & T & F & _).
    exists mid, (drv_result orc (length (trace w1)) cuCtxPopCurrent).
    split; [|exact F].
    rewrite trace_unchecked, T, trace_unchecked. fold rc. rewrite E.
    reflexivity.
  - split; [|contradiction]. intros _. injection Hrun as <- <-.
    split; [reflexivity|]. apply trace_unchecked.
Qed.

Lemma GetFunctionForContext_hit this context (w : World) img function :
  image_heap w !! this = Some img ->
  mi_functions_ img !! context = Some function ->
  GetFunctionForContext orc this context w = (Ret function, w).
Proof.
  intros Himg Hctx. unfold GetFunctionForContext.
  rewrite bind_get_l, Himg, Hctx. reflexivity.
Qed.

(** The tail of the loader touches neither the map of images nor the
    images, and returns no other function than the one it was given. *)
Lemma setup_dynamic_shared_memory_inv shm function (w w' : World) r :
  setup_dynamic_shared_memory orc shm function w = (r, w') ->
  image_heap w' = image_heap w
  /\ module_images w' = module_images w
  /\ (forall f, r = Ret f -> f = function).
Proof.
  unfold setup_dynamic_shared_memory.
  repeat first
    [ rewrite bind_with_out
    | rewrite bind_CUDA
    | rewrite bind_ret_l
    | rewrite bind_undefined_l
    | progress unfold int_sub
    | progress cbv beta zeta
    | match goal with
      | |- context [decide ?P] => destruct (decide P)
      end ];
    unfold ret, fail; intros [= <- <-];
    rewrite ?image_heap_unchecked, ?module_images_unchecked;
    (split; [reflexivity|split; [reflexivity|]]);
    intros f [= <-]; reflexivity.
Qed.

(** After a call that got as far as resolving the function, the image
    holds it for the context, whatever the result of the call. *)
Lemma GetFunctionForContext_inv this context (w w' : World) r :
  GetFunctionForContext orc this context w = (r, w') ->
  (forall f, r = Ret f ->
     exists img', image_heap w' !! this = Some img'
                  /\ mi_functions_ img' !! context = Some f)
  /\ (forall msg, r = Fail (InvalidArgumentError msg) ->
        exists img' f, image_heap w' !! this = Some img'
                       /\ mi_functions_ img' !! context = Some f).
Proof.
  unfold GetFunctionForContext. rewrite bind_get_l.
  destruct (image_heap w !! this) as [img|] eqn:Himg.
  2:{ intros [= <- <-]. split; intros; discriminate. }
  destruct (mi_functions_ img !! context) as [f0|] eqn:Hctx.
  { intros [= <- <-]. split; [|intros; discriminate].
    intros f [= <-]. eauto. }
  rewrite bind_CUDA.
  destruct (decide _) as [E1|E1];
    [|intros [= <- <-]; split; intros; discriminate].
  unfold with_cleanup.
  match goal with
  | |- context [let '(_, _) := ?m ?s in _] =>
      destruct (m s) as [r1 w1] eqn:Ein
  end.
  intros [= <- <-]. rewrite image_heap_unchecked. revert Ein.
  rewrite bind_with_out.
  destruct (decide _) as [E2|E2];
    [|intros [= <- <-]; split; intros; discriminate].
  unfold bind at 1. unfold update_image at 1, modify at 1. cbv beta iota.
  rewrite bind_with_out.
  destruct (decide _) as [E3|E3];
    [|intros [= <- <-]; split; intros; discriminate].
  unfold bind at 1. unfold update_image at 1, modify at 1. cbv beta iota.
  match goal with
  | |- context [insert_function context ?f] => set (function := f)
  end.
  match goal with
  | |- context [push_module ?m] => set (module := m)
  end.
  match goal with
  | |- (_ ?s = (_, _) -> _) => set (w3 := s)
  end.
  assert (H3 : image_heap w3 !! this
               = Some (insert_function context function
                         (push_module module img))).
  { subst w3.
    repeat first [ rewrite list_lookup_alter
                 | rewrite image_heap_unchecked
                 | progress cbn [image_heap set_images] ].
    rewrite Himg. rewrite !decide_True by reflexivity. reflexivity. }
  assert (Hf : mi_functions_ (insert_function context function
                                (push_module module img)) !! context
               = Some function).
  { cbn [mi_functions_ insert_function]. apply lookup_insert_eq. }
  clearbody w3.
  destruct (decide (mi_shared_mem_bytes_ img <= kMaxStaticSharedMemBytes)).
  - intros [= <- <-].
    split; [|intros; discriminate]. intros f [= <-].
    eexists. split; [exact H3|exact Hf].
  - intros Hs. apply setup_dynamic_shared_memory_inv in Hs.
    destruct Hs as (Hh & _ & Hr). rewrite Hh.
    split.
    + intros f Hf'. rewrite (Hr f Hf').
      eexists. split; [exact H3|exact Hf].
    + intros msg _. eexists _, _. split; [exact H3|exact Hf].
Qed.

(** X9. What [GetFunctionForContext] returns for a context it returns
    again on the next call, without a driver call.  A request that is
    refused because the shared memory exceeds the device's resources is
    refused once only: the function was stored before the check, so the
    next call for the same context finds it and returns it, although its
    dynamic shared memory was never set up. *)
Theorem GetFunctionForContext_caches this context (w w' : World) r :
  GetFunctionForContext orc this context w = (r, w') ->
  (forall f, r = Ret f ->
     GetFunctionForContext orc this context w' = (Ret f, w'))
  /\ (forall msg, r = Fail (InvalidArgumentError msg) ->
        exists f, GetFunctionForContext orc this context w' = (Ret f, w')).
Proof.
  intros Hrun. apply GetFunctionForContext_inv in Hrun.
  destruct Hrun as [H1 H2]. split.
  - intros f Hf. destruct (H1 f Hf) as (img' & Hi & Hc).
    exact (GetFunctionForContext_hit _ _ _ _ _ Hi Hc).
  - intros msg Hm. destruct (H2 msg Hm) as (img' & f & Hi & Hc).
    exists f. exact (GetFunctionForContext_hit _ _ _ _ _ Hi Hc).
Qed.

End LoaderCache.

Lemma GetFunctionForContext_restores_context_witness :
  exists mid rc',
    trace (snd (GetFunctionForContext plain_oracle 0 7
                  (world_with_image 100000)))
    = EvDriver cuCtxPopCurrent rc' :: mid
      ++ [EvDriver (cuCtxPushCurrent 7) CUDA_SUCCESS]
    /\ Forall keeps_context mid.
Proof.
  refine (proj2 (GetFunctionForContext_restores_context plain_oracle 0 7
                   (world_with_image 100000) _ _ _ eq_refl eq_refl
                   (surjective_pairing _)) _).
  reflexivity.
Defined.

Lemma GetFunctionForContext_caches_witness :
  fst (GetFunctionForContext plain_oracle 0 7 (world_with_image 100000))
  = Fail (InvalidArgumentError shared_memory_message)
  /\ exists f,
      GetFunctionForContext plain_oracle 0 7
        (snd (GetFunctionForContext plain_oracle 0 7
                (world_with_image 100000)))
      = (Ret f, snd (GetFunctionForContext plain_oracle 0 7
                       (world_with_image 100000))).
Proof.
  assert (E : fst (GetFunctionForContext plain_oracle 0 7
                     (world_with_image 100000))
              = Fail (InvalidArgumentError shared_memory_message))
    by (vm_compute; reflexivity).
  split; [exact E|].
  exact (proj2 (GetFunctionForContext_caches plain_oracle 0 7
                  (world_with_image 100000) _ _ (surjective_pairing _))
           _ E).
Defined.

(* ===================================================================== *)
(** * Properties: launching a kernel *)
(* ===================================================================== *)

Section KernelLaunch.

Context `{F32 : Float32} (orc : Oracle).

(** A launch that succeeds leaves the kernel loaded for the context that
    the driver reported for the stream. *)
Lemma Kernel_Launch_loads {self : Place}
    stream grid params (k k1 : Kernel) (w w1 : World) :
  Kernel_Launch orc self stream grid params (k, w) = (Ret tt, (k1, w1)) ->
  exists n function,
    loaded_for k1 w1 (drv_out orc n (cuStreamGetCtx stream)) function.
Proof.
  unfold Kernel_Launch. rewrite bind_get_l. cbn [fst]. cbv zeta.
  intros Hrun.
  apply bind_Ret_inv in Hrun. destruct Hrun as (i & [k2 w2] & Hi & Hrun).
  assert (Hk2 : module_image_ k2 = Some i).
  { destruct (module_image_ k) as [i0|] eqn:Hm.
    - injection Hi as <- <- <-. exact Hm.
    - apply bind_Ret_inv in Hi. destruct Hi as (i0 & [k3 w3] & _ & Hi).
      rewrite bind_modify_l in Hi. injection Hi as <- <- <-. reflexivity. }
  clear Hi.
  apply bind_Ret_inv in Hrun. destruct Hrun as (ctx & [k3 w3] & Hc & Hrun).
  apply liftW_Ret_inv in Hc. destruct Hc as [-> Hc].
  unfold with_out in Hc. apply bind_Ret_inv in Hc.
  destruct Hc as (n & w3' & Hc & Hret). injection Hret as <- <-.
  apply bind_Ret_inv in Hrun. destruct Hrun as (f & [k4 w4] & Hf & Hrun).
  apply liftW_Ret_inv in Hf. destruct Hf as [-> Hf].
  apply GetFunctionForContext_inv in Hf. destruct Hf as [Hf _].
  destruct (Hf f eq_refl) as (img & Himg & Hfun).
  apply bind_Ret_inv in Hrun. destruct Hrun as (m & [k5 w5] & Hl & Hrun).
  apply liftW_Ret_inv in Hl. destruct Hl as [-> Hl].
  apply CUDA_RETURN_IF_ERROR_Ret_inv in Hl. destruct Hl as (_ & _ & ->).
  injection Hrun as <- <-.
  exists n, f, i, img. rewrite image_heap_unchecked. auto.
Qed.

(** X10. A launch of a kernel that is loaded for the stream's context
    issues two driver calls and nothing else: the query for the stream's
    context and [cuLaunchKernel] with the cached function, the grid, a
    block of [block_dim_x_] threads and the kernel's shared-memory size.
    It compiles nothing, loads nothing, returns the launch's result and
    leaves the kernel loaded.  Every launch that succeeds leaves the
    kernel loaded for the context it ran in. *)
Theorem Kernel_Launch_loaded {self : Place}
    stream grid params (k : Kernel) (w : World) :
  (forall context function,
      loaded_for k w context function ->
      let n := length (trace w) in
      drv_result orc n (cuStreamGetCtx stream) = CUDA_SUCCESS ->
      drv_out orc n (cuStreamGetCtx stream) = context ->
      let launch := cuLaunchKernel function grid (block_dim_x_ k)
                      (shared_mem_bytes_ k) stream params in
      let rc := drv_result orc (S n) launch in
      exists w',
        Kernel_Launch orc self stream grid params (k, w)
        = (if decide (rc = CUDA_SUCCESS) then Ret tt
           else Fail (DriverError rc), (k, w'))
        /\ trace w'
           = EvDriver launch rc
             :: EvDriver (cuStreamGetCtx stream) CUDA_SUCCESS :: trace w
        /\ loaded_for k w' context function)
  /\ (forall k1 w1,
      Kernel_Launch orc self stream grid params (k, w) = (Ret tt, (k1, w1)) ->
      exists n function,
        loaded_for k1 w1 (drv_out orc n (cuStreamGetCtx stream)) function).
Proof.
  split; [|intros k1 w1; apply Kernel_Launch_loads].
  intros context function (i & img & Hi & Himg & Hfun) n Hrc Hout launch rc.
  exists (unchecked orc launch (unchecked orc (cuStreamGetCtx stream) w)).
  split; [|split].
  - unfold Kernel_Launch. rewrite bind_get_l. cbn [fst]. cbv zeta.
    rewrite Hi. rewrite bind_ret_l.
    unfold bind at 1. rewrite liftW_eq.
    rewrite (with_out_ok orc _ _ Hrc). cbn [fst snd]. fold n.
    rewrite Hout.
    unfold bind at 1. rewrite liftW_eq.
    rewrite (GetFunctionForContext_hit orc i context _ img function).
    2:{ rewrite image_heap_unchecked. exact Himg. }
    2:{ exact Hfun. }
    cbn [fst snd].
    unfold bind at 1. rewrite liftW_eq. rewrite CUDA_RETURN_IF_ERROR_eq.
    rewrite trace_unchecked. cbn [length fst snd]. fold n launch rc.
    destruct (decide (rc = CUDA_SUCCESS)); reflexivity.
  - rewrite !trace_unchecked. cbn [length]. fold n launch rc.
    rewrite Hrc. reflexivity.
  - exists i, img. rewrite !image_heap_unchecked. auto.
Qed.

End KernelLaunch.

Lemma Kernel_Launch_loaded_witness :
  exists w',
    Kernel_Launch plain_oracle (Heap 0) 5 (1, 1, 1) []
        (loaded_kernel, world_with_function)
    = (Ret tt, (loaded_kernel, w'))
    /\ trace w'
       = [EvDriver (cuLaunchKernel 2 (1, 1, 1) 128 0 5 []) CUDA_SUCCESS;
          EvDriver (cuStreamGetCtx 5) CUDA_SUCCESS].
Proof.
  assert (L : loaded_for loaded_kernel world_with_function 0 2).
  { eexists 0%nat, _. split; [reflexivity|]. split; reflexivity. }
  destruct (proj1 (Kernel_Launch_loaded (self := Heap 0) plain_oracle 5
                     (1, 1, 1) []
                     loaded_kernel world_with_function)
              0 2 L eq_refl eq_refl) as (w' & H1 & H2 & _).
  exists w'. split; [exact H1|exact H2].
Defined.

(* ===================================================================== *)
(** * Properties: binding the parameters *)
(* ===================================================================== *)

Section Marshaling.

Context `{F32 : Float32} (orc : Oracle).

#[global] Instance same_memory_refl : Reflexive same_memory.
Proof. intros w. reflexivity. Qed.

#[global] Instance same_memory_trans : Transitive same_memory.
Proof. intros w1 w2 w3 H1 H2. unfold same_memory in *. congruence. Qed.

Lemma Keeps_memory_CUDA c :
  (forall n m, effect orc n c m = m) ->
  Sat (keeping same_memory) (CUDA_RETURN_IF_ERROR orc c).
Proof.
  intros He w. rewrite CUDA_RETURN_IF_ERROR_eq. unfold keeping, same_memory.
  cbn [fst snd]. rewrite dev_mem_unchecked, He.
  destruct (decide _); reflexivity.
Qed.

Lemma Keeps_memory_with_out c :
  (forall n m, effect orc n c m = m) ->
  Sat (keeping same_memory) (with_out orc c).
Proof.
  intros He. unfold with_out.
  apply Sat_bind; [typeclasses eauto|apply Keeps_memory_CUDA; exact He|].
  intros n. apply Sat_ret. typeclasses eauto.
Qed.

Lemma Keeps_memory_with_cleanup {A} (m : M World A) :
  Sat (keeping same_memory) m ->
  Sat (keeping same_memory)
    (with_cleanup (unchecked orc cuCtxPopCurrent) m).
Proof.
  intros Hm w. specialize (Hm w). rewrite with_cleanup_eq.
  unfold keeping, same_memory in *. cbn [fst snd].
  rewrite dev_mem_unchecked. cbn [effect].
  destruct (decide _); exact Hm.
Qed.

Ltac memory_step :=
  match goal with
  | |- Compositional _ => typeclasses eauto
  | |- Reflexive _ => typeclasses eauto
  | |- Transitive _ => typeclasses eauto
  | |- Sat _ (ret _) => apply Sat_ret
  | |- Sat _ get => apply Sat_get
  | |- Sat _ (fail _) => apply Keeps_fail
  | |- Sat _ (undefined _) => apply Keeps_undefined
  | |- Sat _ (int_sub _ _) => unfold int_sub
  | |- Sat _ (modify _) => apply (Keeps_modify same_memory); intros; reflexivity
  | |- Sat _ (update_image _ _) =>
      unfold update_image; apply (Keeps_modify same_memory);
      intros; reflexivity
  | |- Sat _ (CUDA_RETURN_IF_ERROR _ _) =>
      apply Keeps_memory_CUDA; intros; reflexivity
  | |- Sat _ (with_out _ _) =>
      apply Keeps_memory_with_out; intros; reflexivity
  | |- Sat _ (with_cleanup _ _) => apply Keeps_memory_with_cleanup
  | |- Sat _ (bind _ _) => apply Sat_bind; [..|intros ?]
  | |- Sat _ (if ?c then _ else _) => destruct c
  | |- Sat _ (match ?x with _ => _ end) => destruct x
  end.

Lemma Keeps_memory_CompileGpuAsm cc_major cc_minor ptx :
  Sat (keeping same_memory) (CompileGpuAsm orc cc_major cc_minor ptx).
Proof.
  intros w. unfold CompileGpuAsm, keeping, same_memory.
  destruct (asm_result orc _ _ _ _); reflexivity.
Qed.

(** Compiling, loading and configuring leave device memory alone. *)
Lemma Keeps_memory_GetModuleImage name shm ptx cc :
  Sat (keeping same_memory) (GetModuleImage orc name shm ptx cc).
Proof.
  unfold GetModuleImage. cbv zeta.
  repeat first [apply Keeps_memory_CompileGpuAsm | memory_step].
Qed.

Lemma Keeps_memory_GetFunctionForContext this context :
  Sat (keeping same_memory) (GetFunctionForContext orc this context).
Proof.
  unfold GetFunctionForContext, setup_dynamic_shared_memory. cbv zeta.
  repeat memory_step.
Qed.

Lemma mem_write_zeros (m : Memory) p n a :
  mem_write m p (replicate n zero_byte) a = m a
  \/ mem_write m p (replicate n zero_byte) a = zero_byte.
Proof.
  unfold mem_write. destruct (decide _) as [Hin|Hout]; [right|left; reflexivity].
  destruct (replicate n zero_byte !! Z.to_nat (a - p)) as [b|] eqn:Hb;
    [|reflexivity].
  apply lookup_replicate in Hb. simpl. apply Hb.
Qed.

Lemma mem_read_write_zeros (m : Memory) p n :
  mem_read (mem_write m p (replicate n zero_byte)) p n
  = replicate n zero_byte.
Proof.
  apply list_eq. intros k.
  destruct (decide (k < n)%nat) as [Hk|Hk].
  - rewrite lookup_mem_read by exact Hk.
    rewrite lookup_replicate_2 by exact Hk. f_equal.
    unfold mem_write. rewrite length_replicate.
    destruct (decide _) as [_|Hout]; [|lia].
    replace (Z.to_nat (p + Z.of_nat k - p)) with k by lia.
    rewrite lookup_replicate_2 by exact Hk. reflexivity.
  - rewrite !lookup_ge_None_2; [reflexivity| |].
    + rewrite length_replicate. lia.
    + rewrite length_mem_read. lia.
Qed.

Lemma mem_read_zeros_kept (m m' : Memory) p n :
  (forall a, m' a = m a \/ m' a = zero_byte) ->
  mem_read m p n = replicate n zero_byte ->
  mem_read m' p n = replicate n zero_byte.
Proof.
  intros Hm Hz. apply list_eq. intros k.
  destruct (decide (k < n)%nat) as [Hk|Hk].
  - rewrite lookup_mem_read by exact Hk.
    rewrite lookup_replicate_2 by exact Hk. f_equal.
    apply (f_equal (fun l => l !! k)) in Hz.
    rewrite lookup_mem_read, lookup_replicate_2 in Hz by exact Hk.
    injection Hz as Hz. destruct (Hm (p + Z.of_nat k)); congruence.
  - rewrite !lookup_ge_None_2; [reflexivity| |].
    + rewrite length_replicate. lia.
    + rewrite length_mem_read. lia.
Qed.

Lemma zero_filled_kept (m m' : Memory) params :
  (forall a, m' a = m a \/ m' a = zero_byte) ->
  forall bufs, zero_filled m params bufs -> zero_filled m' params bufs.
Proof.
  intros Hm. induction params as [|p params IH]; intros bufs; [auto|].
  destruct p; simpl; try apply IH.
  destruct bufs as [|q bufs]; [auto|]. intros [H1 H2]. split.
  - exact (mem_read_zeros_kept _ _ _ _ Hm H1).
  - apply IH. exact H2.
Qed.

(** One round of the marshaling loop that returns. *)
Lemma bind_parameter_Ret stream (i : nat) p bufs acc (w w1 : World)
    bufs1 args1 :
  bind_parameter orc stream (i, p) (bufs, acc) w = (Ret (bufs1, args1), w1) ->
  (forall a, dev_mem w1 a = dev_mem w a \/ dev_mem w1 a = zero_byte)
  /\ ((exists b d q,
          p = Array b d /\ bufs = q :: bufs1 /\ args1 = acc ++ [ArgBuffer q]
          /\ (d = 0 \/ q mod d = 0)
          /\ mem_read (dev_mem w1) q (Z.to_nat b)
             = replicate (Z.to_nat b) zero_byte)
      \/ ((forall b d, p <> Array b d)
          /\ bufs1 = bufs /\ args1 = acc ++ [ArgScalar p])).
Proof.
  assert (Hcase : (exists b d, p = Array b d) \/ (forall b d, p <> Array b d)).
  { destruct p; try (right; intros; discriminate). left. eauto. }
  destruct Hcase as [(b & d & ->)|Hp].
  2:{ rewrite bind_parameter_scalar by exact Hp. intros [= <- <- <-].
      split; [auto|]. right. auto. }
  unfold bind_parameter. destruct bufs as [|q bufs]; [discriminate|].
  destruct (decide (d <> 0 /\ q mod d <> 0)) as [|Hal]; [discriminate|].
  assert (Hd : d = 0 \/ q mod d = 0).
  { destruct (decide (d = 0)); [auto|]. right.
    destruct (decide (q mod d = 0)); [auto|]. exfalso. apply Hal. auto. }
  destruct (decide (b > 0)) as [Hb|Hb].
  - rewrite !bind_assoc, bind_CUDA.
    destruct (decide _) as [E|E]; [|discriminate].
    intros [= <- <- <-]. rewrite dev_mem_unchecked, E.
    rewrite decide_True by reflexivity. cbn [effect]. split.
    + intros a. apply mem_write_zeros.
    + left. exists b, d, q. repeat split; try reflexivity; [exact Hd|].
      apply mem_read_write_zeros.
  - intros [= <- <- <-]. split; [auto|]. left. exists b, d, q.
    repeat split; try reflexivity; [exact Hd|].
    replace (Z.to_nat b) with 0%nat by lia. reflexivity.
Qed.

(** The marshaling loop that returns: it consumed one buffer per array
    parameter, found each aligned, made one argument slot per parameter,
    and left the requested zeros in place; memory changed to zero only. *)
Lemma bind_parameter_loop_Ret stream :
  forall ps bufs (i : nat) acc (w w' : World) rest args,
    for_each (zip (seq i (length ps)) ps) (bufs, acc)
      (bind_parameter orc stream) w = (Ret (rest, args), w') ->
    exists used,
      bufs = used ++ rest
      /\ aligned_prefix ps used
      /\ args = acc ++ args_of ps used
      /\ zero_filled (dev_mem w') ps used
      /\ (forall a, dev_mem w' a = dev_mem w a \/ dev_mem w' a = zero_byte).
Proof.
  induction ps as [|p ps IH]; intros bufs i acc w w' rest args.
  - simpl. intros [= <- <- <-]. exists []. simpl.
    rewrite app_nil_r. repeat split; auto.
  - cbn [length seq zip_with for_each]. intros H.
    apply bind_Ret_inv in H. destruct H as ([bufs1 args1] & w1 & H1 & H2).
    apply bind_parameter_Ret in H1. destruct H1 as [Hm1 H1].
    apply IH in H2.
    destruct H2 as (used & -> & Hal & -> & Hz & Hm2).
    assert (Hm : forall a, dev_mem w' a = dev_mem w a
                           \/ dev_mem w' a = zero_byte).
    { intros a. destruct (Hm2 a) as [E|E]; [|auto].
      rewrite E. apply Hm1. }
    destruct H1 as [(b & d & q & -> & -> & -> & Hd & Hq)|(Hp & <- & ->)].
    + exists (q :: used). cbn [aligned_prefix args_of zero_filled app].
      rewrite <- app_assoc. repeat split; auto.
      exact (mem_read_zeros_kept _ _ _ _ Hm2 Hq).
    + exists used. rewrite <- app_assoc.
      destruct p; try (exfalso; exact (Hp _ _ eq_refl));
        cbn [aligned_prefix args_of zero_filled app]; repeat split; auto.
Qed.

Lemma Runs_GetModuleImage_no_launch name shm ptx cc :
  Runs id no_launch any_undefined (GetModuleImage orc name shm ptx cc).
Proof.
  unfold GetModuleImage. cbv zeta. repeat runs_step.
  apply Runs_CompileGpuAsm. intros; reflexivity.
Qed.

Lemma Runs_GetFunctionForContext_no_launch this context :
  Runs id no_launch any_undefined (GetFunctionForContext orc this context).
Proof.
  unfold GetFunctionForContext, setup_dynamic_shared_memory. cbv zeta.
  repeat runs_step.
Qed.

Lemma Runs_bind_parameter_no_launch stream ip acc :
  Runs id no_launch any_undefined (bind_parameter orc stream ip acc).
Proof. unfold bind_parameter. repeat runs_step. Qed.

(** The events of a run among which there is no kernel launch. *)
Lemma runs_no_launch {A} U (w w' : World) (r : Res A) :
  runs no_launch U w r w' ->
  exists new, trace w' = new ++ trace w /\ Forall no_launch new.
Proof. intros (new & T & F & _). eauto. Qed.

(** A launch of a kernel that succeeds ends with [cuLaunchKernel], issued
    on the memory that the launch found, and issues no other launch. *)
Lemma Kernel_Launch_Ret {self : Place}
    stream grid params (k k1 : Kernel) (w w1 : World) :
  Kernel_Launch orc self stream grid params (k, w) = (Ret tt, (k1, w1)) ->
  exists function w0,
    let launch := cuLaunchKernel function grid (block_dim_x_ k)
                    (shared_mem_bytes_ k) stream params in
    dev_mem w0 = dev_mem w
    /\ drv_result orc (length (trace w0)) launch = CUDA_SUCCESS
    /\ w1 = unchecked orc launch w0
    /\ exists new, trace w0 = new ++ trace w /\ Forall no_launch new.
Proof.
  unfold Kernel_Launch. rewrite bind_get_l. cbn [fst]. cbv zeta.
  intros Hrun.
  apply bind_Ret_inv in Hrun. destruct Hrun as (i & [k2 w2] & Hi & Hrun).
  assert (Hw2 : dev_mem w2 = dev_mem w
                /\ exists new, trace w2 = new ++ trace w
                               /\ Forall no_launch new).
  { destruct (module_image_ k) as [i0|].
    - injection Hi as <- <- <-. split; [reflexivity|].
      exists []. split; [reflexivity|constructor].
    - apply bind_Ret_inv in Hi. destruct Hi as (i0 & [k3 w3] & Hg & Hi).
      rewrite bind_modify_l in Hi. injection Hi as <- <- <-.
      apply liftW_Ret_inv in Hg. destruct Hg as [_ Hg].
      pose proof (Keeps_memory_GetModuleImage (kernel_name_ k)
                    (shared_mem_bytes_ k)
                    {| sv_text := ptx_ k; sv_string := self |}
                    (compute_capability_ k) w)
        as K.
      pose proof (Runs_GetModuleImage_no_launch (kernel_name_ k)
                    (shared_mem_bytes_ k)
                    {| sv_text := ptx_ k; sv_string := self |}
                    (compute_capability_ k) w)
        as R.
      rewrite Hg in K, R. split; [exact K|].
      exact (runs_no_launch _ _ _ _ R). }
  destruct Hw2 as (Hw2 & n2 & T2 & F2). clear Hi.
  apply bind_Ret_inv in Hrun. destruct Hrun as (ctx & [k3 w3] & Hc & Hrun).
  apply liftW_Ret_inv in Hc. destruct Hc as [-> Hc].
  pose proof (Keeps_memory_with_out (cuStreamGetCtx stream)
                ltac:(intros; reflexivity) w2) as K3.
  rewrite Hc in K3. unfold keeping, same_memory in K3. cbn [fst snd] in K3.
  unfold with_out in Hc. apply bind_Ret_inv in Hc.
  destruct Hc as (n & w3' & Hc & Hret). injection Hret as _ <-.
  apply CUDA_RETURN_IF_ERROR_Ret_inv in Hc. destruct Hc as (E3 & _ & ->).
  apply bind_Ret_inv in Hrun. destruct Hrun as (f & [k4 w4] & Hf & Hrun).
  apply liftW_Ret_inv in Hf. destruct Hf as [-> Hf].
  pose proof (Keeps_memory_GetFunctionForContext i ctx
                (unchecked orc (cuStreamGetCtx stream) w2)) as K4.
  pose proof (Runs_GetFunctionForContext_no_launch i ctx
                (unchecked orc (cuStreamGetCtx stream) w2)) as R4.
  rewrite Hf in K4, R4. unfold keeping, same_memory in K4.
  cbn [fst snd id] in K4, R4.
  apply runs_no_launch in R4. destruct R4 as (n4 & T4 & F4).
  apply bind_Ret_inv in Hrun. destruct Hrun as (m & [k5 w5] & Hl & Hrun).
  apply liftW_Ret_inv in Hl. destruct Hl as [-> Hl].
  apply CUDA_RETURN_IF_ERROR_Ret_inv in Hl. destruct Hl as (E & _ & ->).
  injection Hrun as <- <-.
  exists f, w4. cbv zeta. split; [congruence|]. split; [exact E|].
  split; [reflexivity|].
  exists (n4 ++ EvDriver (cuStreamGetCtx stream) CUDA_SUCCESS :: n2).
  split.
  - rewrite T4, trace_unchecked, E3, T2, <- app_assoc. reflexivity.
  - apply Forall_app. split; [exact F4|]. constructor; [reflexivity|exact F2].
Qed.

Lemma on_member_inv {S T A} (proj : S -> T) (upd : T -> S -> S)
    (m : M (T * World) A) (s s' : S) (w w' : World) r :
  on_member proj upd m (s, w) = (r, (s', w')) ->
  exists t', m (proj s, w) = (r, (t', w')) /\ s' = upd t' s.
Proof.
  unfold on_member, zoom. cbn [fst snd].
  destruct (m (proj s, w)) as [r0 [t' w0]]. cbn [fst snd].
  intros [= <- <- <-]. eauto.
Qed.

(** A [KernelCall::Launch] that succeeds: the buffers it took, the one
    launch it ends with, and the memory on which the kernel starts. *)
Lemma KernelCall_Launch_Ret {self : Place} stream buffers (kc kc' : KernelCall)
    (w w' : World) :
  KernelCall_Launch orc self stream buffers (kc, w) = (Ret tt, (kc', w')) ->
  exists used rest function w0,
    let launch := cuLaunchKernel function (grid_ kc)
                    (block_dim_x_ (kernel_ kc))
                    (shared_mem_bytes_ (kernel_ kc)) stream
                    (args_of (parameters_ kc) used) in
    buffers = used ++ rest
    /\ aligned_prefix (parameters_ kc) used
    /\ length (args_of (parameters_ kc) used) = length (parameters_ kc)
    /\ zero_filled (dev_mem w0) (parameters_ kc) used
    /\ (forall a, dev_mem w0 a = dev_mem w a \/ dev_mem w0 a = zero_byte)
    /\ trace w' = EvDriver launch CUDA_SUCCESS :: trace w0
    /\ dev_mem w' = launch_effect orc (length (trace w0)) launch (dev_mem w0)
    /\ exists new, trace w0 = new ++ trace w /\ Forall no_launch new.
Proof.
  unfold KernelCall_Launch. rewrite bind_get_l. cbn [fst]. cbv zeta.
  intros Hrun.
  apply bind_Ret_inv in Hrun.
  destruct Hrun as ([rest args] & [kc1 w1] & Hloop & Hrun).
  apply liftW_Ret_inv in Hloop. destruct Hloop as [-> Hloop].
  pose proof (Runs_for_each id no_launch any_undefined
                (indexed (parameters_ kc)) (buffers, [])
                (bind_parameter orc stream)
                (fun ip acc => Runs_bind_parameter_no_launch stream ip acc) w)
    as Rl.
  rewrite Hloop in Rl. cbn [fst snd id] in Rl.
  apply runs_no_launch in Rl. destruct Rl as (nl & Tl & Fl).
  apply (bind_parameter_loop_Ret stream (parameters_ kc) buffers 0 [])
    in Hloop.
  destruct Hloop as (used & -> & Hal & -> & Hz & Hm). cbn [app snd] in Hrun.
  apply on_member_inv in Hrun. destruct Hrun as (k1 & Hrun & ->).
  apply Kernel_Launch_Ret in Hrun.
  destruct Hrun as (function & w0 & H0 & E & -> & n0 & T0 & F0).
  exists used, rest, function, w0. cbv zeta.
  split; [reflexivity|]. split; [exact Hal|]. split.
  { clear -Hal. revert used Hal.
    induction (parameters_ kc) as [|p ps IH]; intros used Hal; [reflexivity|].
    destruct p; simpl in *; try (f_equal; apply IH; exact Hal).
    destruct used as [|q used]; [contradiction|]. simpl. f_equal.
    apply IH. apply Hal. }
  rewrite H0. split; [exact Hz|]. split; [exact Hm|].
  rewrite trace_unchecked, dev_mem_unchecked, E.
  rewrite decide_True by reflexivity. split; [reflexivity|].
  split; [cbn [effect]; rewrite H0; reflexivity|].
  exists (n0 ++ nl). split.
  - rewrite T0, Tl, app_assoc. reflexivity.
  - apply Forall_app. auto.
Qed.

(** X11. A [KernelCall::Launch] that succeeds has taken one buffer per
    array parameter, in order, each at an address that its divisor
    divides; it ends with one [cuLaunchKernel] that carries the grid, the
    block width and the shared-memory size of the call and one argument
    per parameter, in order: the buffer of an array parameter, the value
    of a scalar one.  The kernel starts on a memory in which the leading
    [bytes_to_zero] bytes of every array buffer are zero and which
    otherwise differs from the memory before the call by zeroed bytes
    only.  No other kernel launch is issued. *)
Theorem KernelCall_Launch_success {self : Place}
    stream buffers (kc kc' : KernelCall)
    (w w' : World) :
  KernelCall_Launch orc self stream buffers (kc, w) = (Ret tt, (kc', w')) ->
  exists used rest function w0,
    let launch := cuLaunchKernel function (grid_ kc)
                    (block_dim_x_ (kernel_ kc))
                    (shared_mem_bytes_ (kernel_ kc)) stream
                    (args_of (parameters_ kc) used) in
    buffers = used ++ rest
    /\ aligned_prefix (parameters_ kc) used
    /\ length (args_of (parameters_ kc) used) = length (parameters_ kc)
    /\ zero_filled (dev_mem w0) (parameters_ kc) used
    /\ (forall a, dev_mem w0 a = dev_mem w a \/ dev_mem w0 a = zero_byte)
    /\ trace w' = EvDriver launch CUDA_SUCCESS :: trace w0
    /\ dev_mem w' = launch_effect orc (length (trace w0)) launch (dev_mem w0)
    /\ exists new, trace w0 = new ++ trace w /\ Forall no_launch new.
Proof. exact (KernelCall_Launch_Ret (self := self) stream buffers kc kc' w w').
    Qed.

End Marshaling.

Lemma KernelCall_Launch_success_witness :
  fst (KernelCall_Launch plain_oracle (Heap 0) 5 [256]
         (sample_call "A" 4, initial_world)) = Ret tt
  /\ exists used rest,
      [256] = used ++ rest
      /\ aligned_prefix (parameters_ (sample_call "A" 4)) used
      /\ length (args_of (parameters_ (sample_call "A" 4)) used) = 2%nat.
Proof.
  assert (H : fst (KernelCall_Launch plain_oracle (Heap 0) 5 [256]
                     (sample_call "A" 4, initial_world)) = Ret tt)
    by (vm_compute; reflexivity).
  split; [exact H|]. revert H.
  destruct (KernelCall_Launch plain_oracle (Heap 0) 5 [256]
              (sample_call "A" 4, initial_world)) as [r [kc' w']] eqn:E.
  cbn [fst]. intros ->.
  destruct (KernelCall_Launch_success _ _ _ _ _ _ _ E)
    as (used & rest & _ & _ & H1 & H2 & H3 & _).
  exists used, rest. auto.
Defined.

(* ===================================================================== *)
(** * Properties: Benchmark *)
(* ===================================================================== *)

Section Benchmarking.

Context `{F32 : Float32} (orc : Oracle).

Lemma launches_app (a b : list Event) :
  launches (a ++ b) = (launches a + launches b)%nat.
Proof. induction a as [|e a IH]; simpl; [reflexivity|]. rewrite IH. lia. Qed.

Lemma launches_no_launch (new : list Event) :
  Forall no_launch new -> launches new = 0%nat.
Proof.
  induction 1 as [|e new He _ IH]; simpl; [reflexivity|].
  unfold no_launch in He. rewrite He, IH. reflexivity.
Qed.

(** A launch of a call that succeeds issues exactly one kernel launch. *)
Lemma KernelCall_Launch_one_launch {self : Place}
    stream buffers (s s' : KernelCall * World) :
  KernelCall_Launch orc self stream buffers s = (Ret tt, s') ->
  exists new,
    trace (snd s') = new ++ trace (snd s)
    /\ launches new = 1%nat
    /\ Forall launch_event new.
Proof.
  destruct s as [kc w], s' as [kc' w']. intros Hrun.
  pose proof (Runs_KernelCall_Launch (self := self) orc stream buffers (kc, w))
      as R.
  rewrite Hrun in R. cbn [fst snd] in *.
  destruct R as (new & T & F & _).
  apply KernelCall_Launch_Ret in Hrun.
  destruct Hrun as (used & rest & f & w0 & _ & _ & _ & _ & _ & T1 & _
                    & n0 & T0 & F0).
  exists new. split; [exact T|]. split; [|exact F].
  rewrite T0, app_comm_cons in T1. rewrite T in T1.
  apply app_inv_tail in T1. rewrite T1. simpl.
  rewrite (launches_no_launch _ F0). reflexivity.
Qed.

Lemma repeat_Launch_launches {self : Place} stream buffers (k : nat) :
  forall s s' : KernelCall * World,
    repeat_n k (KernelCall_Launch orc self stream buffers) s = (Ret tt, s') ->
    exists new,
      trace (snd s') = new ++ trace (snd s)
      /\ launches new = k
      /\ Forall launch_event new.
Proof.
  induction k as [|k IH]; intros s s'; simpl.
  - intros [= <-]. exists []. repeat split. constructor.
  - intros H. apply bind_Ret_inv in H. destruct H as ([] & s1 & H1 & H2).
    apply KernelCall_Launch_one_launch in H1.
    destruct H1 as (n1 & T1 & L1 & F1).
    apply IH in H2. destruct H2 as (n2 & T2 & L2 & F2).
    exists (n2 ++ n1). split; [rewrite T2, T1, app_assoc; reflexivity|].
    split; [rewrite launches_app; lia|]. apply Forall_app. auto.
Qed.

(** A checked call of the timer, from an object's method. *)
Lemma liftW_CUDA_Ret {T} c (t t' : T) (w w' : World) n :
  liftW (CUDA_RETURN_IF_ERROR orc c) (t, w) = (Ret n, (t', w')) ->
  t' = t /\ n = length (trace w)
  /\ trace w' = EvDriver c CUDA_SUCCESS :: trace w.
Proof.
  intros H. apply liftW_Ret_inv in H. destruct H as [-> H].
  apply CUDA_RETURN_IF_ERROR_Ret_inv in H. destruct H as (E & -> & ->).
  rewrite trace_unchecked, E. auto.
Qed.

Lemma liftW_with_out_Ret {T} c (t t' : T) (w w' : World) x :
  liftW (with_out orc c) (t, w) = (Ret x, (t', w')) ->
  t' = t /\ x = drv_out orc (length (trace w)) c
  /\ trace w' = EvDriver c CUDA_SUCCESS :: trace w.
Proof.
  intros H. apply liftW_Ret_inv in H. destruct H as [-> H].
  unfold with_out in H. apply bind_Ret_inv in H.
  destruct H as (n & w1 & H & Hret). injection Hret as <- <-.
  apply CUDA_RETURN_IF_ERROR_Ret_inv in H. destruct H as (E & -> & ->).
  rewrite trace_unchecked, E. auto.
Qed.

(** A [Benchmark] that returns, event by event. *)
Lemma Benchmark_Ret {self : Place}
    stream buffers num_iterations (kc kc' : KernelCall)
    (w w' : World) t :
  Benchmark orc self stream buffers num_iterations (kc, w) = (Ret t, (kc', w'))
      ->
  exists start stop warm timed pos,
    trace w'
    = EvDriver (cuEventDestroy stop) CUDA_SUCCESS
      :: EvDriver (cuEventDestroy start) CUDA_SUCCESS
      :: EvDriver (cuEventElapsedTime start stop) CUDA_SUCCESS
      :: EvDriver (cuEventSynchronize stop) CUDA_SUCCESS
      :: EvDriver (cuEventRecord stop stream) CUDA_SUCCESS
      :: timed
      ++ EvDriver (cuEventRecord start stream) CUDA_SUCCESS
      :: warm
      ++ EvDriver cuEventCreate CUDA_SUCCESS
      :: EvDriver cuEventCreate CUDA_SUCCESS
      :: trace w
    /\ Forall launch_event warm /\ launches warm = 1%nat
    /\ Forall launch_event timed
    /\ launches timed = Z.to_nat num_iterations
    /\ t = drv_elapsed orc pos (cuEventElapsedTime start stop).
Proof.
  unfold Benchmark. intros H.
  apply bind_Ret_inv in H. destruct H as (start & [k1 w1] & H1 & H).
  apply liftW_with_out_Ret in H1. destruct H1 as (-> & -> & T1).
  apply bind_Ret_inv in H. destruct H as (stop & [k2 w2] & H2 & H).
  apply liftW_with_out_Ret in H2. destruct H2 as (-> & -> & T2).
  apply bind_Ret_inv in H. destruct H as ([] & [k3 w3] & H3 & H).
  apply KernelCall_Launch_one_launch in H3.
  destruct H3 as (warm & T3 & L3 & F3). cbn [snd] in T3.
  apply bind_Ret_inv in H. destruct H as (? & [k4 w4] & H4 & H).
  apply liftW_CUDA_Ret in H4. destruct H4 as (-> & _ & T4).
  apply bind_Ret_inv in H. destruct H as ([] & [k5 w5] & H5 & H).
  apply repeat_Launch_launches in H5.
  destruct H5 as (timed & T5 & L5 & F5). cbn [snd] in T5.
  apply bind_Ret_inv in H. destruct H as (? & [k6 w6] & H6 & H).
  apply liftW_CUDA_Ret in H6. destruct H6 as (-> & _ & T6).
  apply bind_Ret_inv in H. destruct H as (? & [k7 w7] & H7 & H).
  apply liftW_CUDA_Ret in H7. destruct H7 as (-> & _ & T7).
  apply bind_Ret_inv in H. destruct H as (pos & [k8 w8] & H8 & H).
  apply liftW_CUDA_Ret in H8. destruct H8 as (-> & _ & T8).
  cbv zeta in H.
  apply bind_Ret_inv in H. destruct H as (? & [k9 w9] & H9 & H).
  apply liftW_CUDA_Ret in H9. destruct H9 as (-> & _ & T9).
  apply bind_Ret_inv in H. destruct H as (? & [k10 w10] & H10 & H).
  apply liftW_CUDA_Ret in H10. destruct H10 as (-> & _ & T10).
  injection H as <- <- <-.
  exists (drv_out orc (length (trace w)) cuEventCreate),
    (drv_out orc (length (trace w1)) cuEventCreate), warm, timed, pos.
  split.
  { rewrite T10, T9, T8, T7, T6, T5, T4, T3, T2, T1. reflexivity. }
  repeat split; first [assumption | reflexivity].
Qed.

(** X12. A [Benchmark] that returns has created two timer events and
    destroyed both, has run one warm-up launch before recording the start
    event and exactly [num_iterations] launches (none when the number is
    not positive) between recording the start and the stop event, and
    returns the time that the driver reports between these two events
    after synchronizing on the stop event. *)
Theorem Benchmark_brackets_launches {self : Place} stream buffers num_iterations
    (kc kc' : KernelCall) (w w' : World) t :
  Benchmark orc self stream buffers num_iterations (kc, w) = (Ret t, (kc', w'))
      ->
  exists start stop warm timed pos,
    trace w'
    = EvDriver (cuEventDestroy stop) CUDA_SUCCESS
      :: EvDriver (cuEventDestroy start) CUDA_SUCCESS
      :: EvDriver (cuEventElapsedTime start stop) CUDA_SUCCESS
      :: EvDriver (cuEventSynchronize stop) CUDA_SUCCESS
      :: EvDriver (cuEventRecord stop stream) CUDA_SUCCESS
      :: timed
      ++ EvDriver (cuEventRecord start stream) CUDA_SUCCESS
      :: warm
      ++ EvDriver cuEventCreate CUDA_SUCCESS
      :: EvDriver cuEventCreate CUDA_SUCCESS
      :: trace w
    /\ Forall launch_event warm /\ launches warm = 1%nat
    /\ Forall launch_event timed
    /\ launches timed = Z.to_nat num_iterations
    /\ t = drv_elapsed orc pos (cuEventElapsedTime start stop).
Proof.
  exact (Benchmark_Ret (self := self) stream buffers num_iterations kc kc' w w'
      t).
Qed.

End Benchmarking.

Lemma Benchmark_brackets_launches_witness :
  exists t,
    fst (Benchmark plain_oracle (Heap 0) 5 [256] 3
           (sample_call "A" 4, initial_world)) = Ret t
    /\ exists timed warm,
        launches timed = 3%nat /\ launches warm = 1%nat.
Proof.
  assert (H : exists t, fst (Benchmark plain_oracle (Heap 0) 5 [256] 3
                               (sample_call "A" 4, initial_world)) = Ret t)
    by (vm_compute; eauto).
  destruct H as [t H]. exists t. split; [exact H|]. revert H.
  destruct (Benchmark plain_oracle (Heap 0) 5 [256] 3
              (sample_call "A" 4, initial_world)) as [r [kc' w']] eqn:E.
  cbn [fst]. intros ->.
  destruct (Benchmark_brackets_launches _ _ _ _ _ _ _ _ _ E)
    as (start & stop & warm & timed & pos & T & _ & L1 & _ & L2 & _).
  exists timed, warm. split; [exact L2|exact L1].
Defined.

Lemma surjective_pairing_2 {A B C} (p : A * (B * C)) :
  p = (fst p, (fst (snd p), snd (snd p))).
Proof. destruct p as [a [b c]]. reflexivity. Defined.

(* ===================================================================== *)
(** * Properties: an object with a single config *)
(* ===================================================================== *)

Section SingleConfig.

Context `{F32 : Float32} (orc : Oracle).

(** With at most one config the once-flag body only sets the flag. *)
Lemma Launch_skips_tuning {self : Place}
    stream buffers (a : AutotunedKernelCall)
    (w : World) :
  autotune_once_ a = false ->
  (length (configs_ a) <= 1)%nat ->
  AutotunedKernelCall_Launch orc self stream buffers (a, w)
  = AutotunedKernelCall_Launch orc self stream buffers
      (set_autotuned (autotune_status_ a) a, w).
Proof.
  intros Honce Hlen. unfold AutotunedKernelCall_Launch.
  unfold bind at 1 3. unfold autotune_once. cbn [fst snd autotune_once_
    set_autotuned]. rewrite Honce.
  destruct (decide (1 < length (configs_ a))%nat); [lia|]. reflexivity.
Qed.

(** X13. The first [Launch] of an object with a single config does not
    benchmark: it sets the once-flag, keeps the stored status and the
    config, and issues the events of a plain kernel launch only, no timer
    call and no log line.  With no failure stored, its result and its
    effect on the process are those of [KernelCall::Launch] on that
    config. *)
Theorem Launch_single_config {self : Place}
    stream buffers (a a1 : AutotunedKernelCall)
    (w w1 : World) r :
  autotune_once_ a = false ->
  (length (configs_ a) <= 1)%nat ->
  AutotunedKernelCall_Launch orc self stream buffers (a, w) = (r, (a1, w1)) ->
  autotune_once_ a1 = true
  /\ autotune_status_ a1 = autotune_status_ a
  /\ map unresolved_config (configs_ a1) = map unresolved_config (configs_ a)
  /\ (exists new, trace w1 = new ++ trace w /\ Forall launch_event new)
  /\ (forall c, configs_ a = [c] -> autotune_status_ a = OkStatus ->
        r = fst (KernelCall_Launch orc (Element self 0) stream buffers
                   (kernel_call c, w))
        /\ w1 = snd (snd (KernelCall_Launch orc (Element self 0) stream
                            buffers (kernel_call c, w)))).
Proof.
  intros Honce Hlen Hrun.
  rewrite (Launch_skips_tuning _ _ _ _ Honce Hlen) in Hrun.
  destruct (Launch_tuned (self := self) orc stream buffers
              (set_autotuned (autotune_status_ a) a) a1 w w1 r
              eq_refl Hrun) as [K R].
  destruct K as (_ & _ & Ko & Ks & Kc). cbn [fst snd] in *.
  split; [exact Ko|]. split; [exact Ks|]. split; [exact Kc|].
  split.
  { destruct R as (new & T & F & _). exists new. auto. }
  intros c Hc Hok. revert Hrun.
  unfold AutotunedKernelCall_Launch. unfold bind at 1.
  unfold autotune_once. cbn [fst snd autotune_once_ set_autotuned].
  rewrite bind_get_l. cbn [fst autotune_status_ set_autotuned].
  rewrite Hok. unfold JAX_RETURN_IF_ERROR. cbn [ok]. rewrite bind_ret_l.
  unfold on_config. cbn [fst snd configs_ set_autotuned]. rewrite Hc.
  cbn [lookup list_lookup].
  destruct (KernelCall_Launch orc (Element self 0) stream buffers
              (kernel_call c, w)) as [r0 [kc0 w0]].
  cbn [fst snd]. intros [= <- _ <-]. auto.
Qed.

End SingleConfig.

Lemma Launch_single_config_witness :
  autotune_once_
    (fst (snd (AutotunedKernelCall_Launch plain_oracle (Heap 0) 5 [256]
                 (single_autotuned, initial_world)))) = true
  /\ fst (AutotunedKernelCall_Launch plain_oracle (Heap 0) 5 [256]
            (single_autotuned, initial_world))
     = fst (KernelCall_Launch plain_oracle (Element (Heap 0) 0) 5 [256]
              (sample_call "A" 4, initial_world)).
Proof.
  destruct
      (Launch_single_config (self := Heap 0) plain_oracle 5 [256]
      single_autotuned
              _ initial_world _ _ eq_refl ltac:(simpl; lia)
              (surjective_pairing_2 _)) as (H1 & _ & _ & _ & H5).
  split; [exact H1|].
  exact (proj1 (H5 (sample_config "A" 4) eq_refl eq_refl)).
Defined.

(* ===================================================================== *)
(** * Properties: the cost of the tuning step *)
(* ===================================================================== *)

Section TuningCost.

Context `{F32 : Float32} (orc : Oracle).

















End TuningCost.


(* ===================================================================== *)
(** * Properties: a launch that fails *)
(* ===================================================================== *)

Section FailedLaunch.

Context `{F32 : Float32} (orc : Oracle).

#[global] Instance zeroing_refl : Reflexive zeroing.
Proof. intros w a. auto. Qed.

#[global] Instance zeroing_trans : Transitive zeroing.
Proof.
  intros w1 w2 w3 H1 H2 a. destruct (H2 a) as [E|E]; [|auto].
  rewrite E. apply H1.
Qed.

Lemma no_launch_not_successful (e : Event) :
  no_launch e -> no_successful_launch e.
Proof.
  destruct e as [c rc| |]; simpl; auto. unfold no_launch. simpl.
  intros H1 H2. congruence.
Qed.

Lemma Keeps_zeroing_bind_parameter stream ip acc :
  Sat (keeping zeroing) (bind_parameter orc stream ip acc).
Proof.
  destruct ip as [i p], acc as [bufs params]. unfold bind_parameter.
  destruct p as [b d| | | | |];
    try (intros w; unfold keeping; simpl; reflexivity).
  destruct bufs as [|q bufs]; [intros w; unfold keeping; simpl; reflexivity|].
  destruct (decide _); [intros w; unfold keeping; simpl; reflexivity|].
  destruct (decide (b > 0)); [|intros w; unfold keeping; simpl; reflexivity].
  intros w. rewrite !bind_assoc, bind_CUDA. unfold keeping.
  destruct (decide _) as [E|E]; cbn [fst snd ret bind];
    intros a; rewrite dev_mem_unchecked;
    destruct (decide _); try contradiction; auto.
  cbn [effect]. apply mem_write_zeros.
Qed.

(** Where a sequence that does not return stopped. *)
Lemma bind_not_Ret {S A B} (m : M S A) (k : A -> M S B) s r s' :
  bind m k s = (r, s') ->
  (forall x, r <> Ret x) ->
  (exists a s1, m s = (Ret a, s1) /\ k a s1 = (r, s'))
  \/ (exists r0, m s = (r0, s') /\ forall a, r0 <> Ret a).
Proof.
  unfold bind. destruct (m s) as [[a|e|u] s1]; intros H Hr.
  - left. eauto.
  - injection H as <- <-. right. eexists. split; [reflexivity|discriminate].
  - injection H as <- <-. right. eexists. split; [reflexivity|discriminate].
Qed.

(** What a run of a call on the process that issues no launch and keeps
    memory tells about a method that makes it. *)
Lemma liftW_quiet {T A} (m : M World A) (t t' : T) (w w' : World) r :
  Runs id no_launch any_undefined m ->
  Sat (keeping same_memory) m ->
  liftW m (t, w) = (r, (t', w')) ->
  t' = t /\ dev_mem w' = dev_mem w
  /\ exists new, trace w' = new ++ trace w /\ Forall no_launch new.
Proof.
  intros R K. specialize (R w). specialize (K w). rewrite liftW_eq.
  destruct (m w) as [r0 w0]. cbn [fst snd id] in *.
  intros [= <- <- <-]. split; [reflexivity|]. split; [exact K|].
  exact (runs_no_launch _ _ _ _ R).
Qed.

(** The part of [Kernel::Launch] after the image is resolved, when it
    does not succeed. *)
Lemma launch_tail_not_Ret stream grid bdx shm params image
    (k k' : Kernel) (w w' : World) r :
  (do context <- liftW (with_out orc (cuStreamGetCtx stream));
   do kernel <- liftW (GetFunctionForContext orc image context);
   run liftW (CUDA_RETURN_IF_ERROR orc
                (cuLaunchKernel kernel grid bdx shm stream params));
   ret tt) (k, w) = (r, (k', w')) ->
  r <> Ret tt ->
  dev_mem w' = dev_mem w
  /\ exists new, trace w' = new ++ trace w
                 /\ Forall no_successful_launch new.
Proof.
  intros H Hr.
  assert (Hr' : forall x : unit, r <> Ret x) by (intros []; exact Hr).
  apply bind_not_Ret in H; [|exact Hr'].
  destruct H as [(ctx & [k1 w1] & H1 & H)|(r0 & H1 & _)].
  2:{ apply liftW_quiet in H1.
      - destruct H1 as (_ & M & new & T & F). split; [exact M|].
        exists new. split; [exact T|].
        eapply Forall_impl; [exact F|exact no_launch_not_successful].
      - repeat runs_step.
      - apply Keeps_memory_with_out. intros; reflexivity. }
  apply liftW_quiet in H1;
    [|repeat runs_step|apply Keeps_memory_with_out; intros; reflexivity].
  destruct H1 as (-> & M1 & n1 & T1 & F1).
  apply bind_not_Ret in H; [|exact Hr'].
  destruct H as [(f & [k2 w2] & H2 & H)|(r0 & H2 & _)].
  2:{ apply liftW_quiet in H2;
        [|apply Runs_GetFunctionForContext_no_launch
         |apply Keeps_memory_GetFunctionForContext].
      destruct H2 as (_ & M2 & n2 & T2 & F2). split; [congruence|].
      exists (n2 ++ n1). split; [rewrite T2, T1, app_assoc; reflexivity|].
      eapply Forall_impl; [|exact no_launch_not_successful].
      apply Forall_app. auto. }
  apply liftW_quiet in H2;
    [|apply Runs_GetFunctionForContext_no_launch
     |apply Keeps_memory_GetFunctionForContext].
  destruct H2 as (-> & M2 & n2 & T2 & F2).
  apply bind_not_Ret in H; [|exact Hr'].
  destruct H as [(x & s3 & _ & H)|(r0 & H3 & Hr0)].
  { injection H as <- _. exfalso. apply Hr. reflexivity. }
  rewrite liftW_eq, CUDA_RETURN_IF_ERROR_eq in H3. cbn [fst snd] in H3.
  destruct (decide _) as [E|E]; injection H3 as <- <- <-;
    [exfalso; exact (Hr0 _ eq_refl)|].
  split.
  { rewrite dev_mem_unchecked. destruct (decide _); [contradiction|].
    congruence. }
  pose proof (trace_unchecked orc
                (cuLaunchKernel f grid bdx shm stream params) w2) as T3.
  set (rc := drv_result orc (length (trace w2))
               (cuLaunchKernel f grid bdx shm stream params)) in *.
  clearbody rc.
  exists (EvDriver (cuLaunchKernel f grid bdx shm stream params) rc
          :: n2 ++ n1).
  split; [rewrite T3, T2, T1, app_assoc; reflexivity|].
  constructor; [intros _; exact E|].
  eapply Forall_impl; [|exact no_launch_not_successful].
  apply Forall_app. auto.
Qed.

Lemma Kernel_Launch_not_Ret {self : Place} stream grid params (k k' : Kernel)
    (w w' : World) r :
  Kernel_Launch orc self stream grid params (k, w) = (r, (k', w')) ->
  r <> Ret tt ->
  dev_mem w' = dev_mem w
  /\ exists new, trace w' = new ++ trace w
                 /\ Forall no_successful_launch new.
Proof.
  unfold Kernel_Launch. rewrite bind_get_l. cbn [fst]. cbv zeta.
  intros H Hr.
  assert (Hr' : forall x : unit, r <> Ret x) by (intros []; exact Hr).
  destruct (module_image_ k) as [i|].
  { rewrite bind_ret_l in H. exact (launch_tail_not_Ret _ _ _ _ _ _ _ _ _ _ _ H Hr). }
  apply bind_not_Ret in H; [|exact Hr'].
  destruct H as [(i & [k1 w1] & H1 & H)|(r0 & H1 & Hr0)].
  - apply bind_Ret_inv in H1. destruct H1 as (i0 & [k2 w2] & H1 & H2).
    rewrite bind_modify_l in H2. injection H2 as <- <- <-.
    apply liftW_quiet in H1;
      [|apply Runs_GetModuleImage_no_launch|apply Keeps_memory_GetModuleImage].
    destruct H1 as (-> & M1 & n1 & T1 & F1).
    apply launch_tail_not_Ret in H; [|exact Hr].
    destruct H as (M & n & T & F). split; [congruence|].
    exists (n ++ n1). split; [rewrite T, T1, app_assoc; reflexivity|].
    apply Forall_app. split; [exact F|].
    eapply Forall_impl; [exact F1|exact no_launch_not_successful].
  - apply bind_not_Ret in H1; [|exact Hr0].
    destruct H1 as [(i0 & s1 & _ & H2)|(r1 & H1 & _)].
    { rewrite bind_modify_l in H2. injection H2 as <- _.
      exfalso. exact (Hr0 _ eq_refl). }
    apply liftW_quiet in H1;
      [|apply Runs_GetModuleImage_no_launch|apply Keeps_memory_GetModuleImage].
    destruct H1 as (_ & M1 & n1 & T1 & F1). split; [exact M1|].
    exists n1. split; [exact T1|].
    eapply Forall_impl; [exact F1|exact no_launch_not_successful].
Qed.

Lemma Keeps_zeroing_bind_parameters stream l acc :
  Sat (keeping zeroing) (for_each l acc (bind_parameter orc stream)).
Proof.
  apply Sat_for_each; [typeclasses eauto|].
  intros ip acc'. apply Keeps_zeroing_bind_parameter.
Qed.

(** X15. A [KernelCall::Launch] that does not succeed has run no kernel:
    among the events it issued there is no [cuLaunchKernel] that the
    driver accepted, and device memory differs from the memory before
    the call by bytes set to zero only (the zero-fills of the array
    parameters bound before the failure). *)
Theorem KernelCall_Launch_failure {self : Place}
    stream buffers (kc kc' : KernelCall)
    (w w' : World) r :
  KernelCall_Launch orc self stream buffers (kc, w) = (r, (kc', w')) ->
  r <> Ret tt ->
  zeroing w w'
  /\ exists new, trace w' = new ++ trace w
                 /\ Forall no_successful_launch new.
Proof.
  unfold KernelCall_Launch. rewrite bind_get_l. cbn [fst]. cbv zeta.
  intros H Hr.
  assert (Hr' : forall x : unit, r <> Ret x) by (intros []; exact Hr).
  assert (Hloop : forall r0 (s1 : KernelCall * World),
             liftW (for_each (indexed (parameters_ kc)) (buffers, [])
                      (bind_parameter orc stream)) (kc, w) = (r0, s1) ->
             zeroing w (snd s1)
             /\ exists new, trace (snd s1) = new ++ trace w
                            /\ Forall no_successful_launch new).
  { intros r0 [k1 w1]. rewrite liftW_eq.
    pose proof (Keeps_zeroing_bind_parameters stream
                  (indexed (parameters_ kc)) (buffers, []) w) as K.
    pose proof (Runs_for_each id no_launch any_undefined
                  (indexed (parameters_ kc)) (buffers, [])
                  (bind_parameter orc stream)
                  (fun ip acc => Runs_bind_parameter_no_launch orc stream ip acc)
                  w) as R.
    destruct (for_each _ _ _ w) as [r1 w0]. cbn [fst snd id] in *.
    intros [= <- <- <-]. split; [exact K|].
    destruct R as (new & T & F & _). exists new. split; [exact T|].
    eapply Forall_impl; [exact F|exact no_launch_not_successful]. }
  apply bind_not_Ret in H; [|exact Hr'].
  destruct H as [(acc & [k1 w1] & H1 & H)|(r0 & H1 & _)].
  2:{ exact (Hloop _ _ H1). }
  pose proof (Hloop _ _ H1) as (Z1 & n1 & T1 & F1). cbn [snd] in *.
  apply liftW_Ret_inv in H1. destruct H1 as [-> _].
  unfold on_member, zoom in H. cbn [fst snd] in H.
  destruct (Kernel_Launch orc self stream (grid_ kc) (snd acc) (kernel_ kc, w1))
    as [r2 [k2 w2]] eqn:HK.
  cbn [fst snd] in H. injection H as -> _ <-.
  apply Kernel_Launch_not_Ret in HK; [|exact Hr].
  destruct HK as (M & n & T & F).
  split.
  { intros a. rewrite M. apply Z1. }
  exists (n ++ n1). split; [rewrite T, T1, app_assoc; reflexivity|].
  apply Forall_app. auto.
Qed.

End FailedLaunch.

Lemma KernelCall_Launch_failure_witness :
  fst (KernelCall_Launch (failing_oracle is_launch) (Heap 0) 5 [256]
         (sample_call "A" 4, initial_world)) = Fail (DriverError 700)
  /\ zeroing initial_world
       (snd (snd (KernelCall_Launch (failing_oracle is_launch) (Heap 0) 5 [256]
                    (sample_call "A" 4, initial_world)))).
Proof.
  assert (H : fst (KernelCall_Launch (failing_oracle is_launch) (Heap 0) 5 [256]
                     (sample_call "A" 4, initial_world))
              = Fail (DriverError 700)) by (vm_compute; reflexivity).
  split; [exact H|]. revert H.
  destruct (KernelCall_Launch (failing_oracle is_launch) (Heap 0) 5 [256]
              (sample_call "A" 4, initial_world)) as [r [kc' w']] eqn:E.
  cbn [fst snd]. intros ->.
  exact (proj1 (KernelCall_Launch_failure _ _ _ _ _ _ _ _ E
                  ltac:(discriminate))).
Defined.

(* ===================================================================== *)
(** * Properties: the timer events of Benchmark *)
(* ===================================================================== *)

Section TimerEvents.

Context `{F32 : Float32} (orc : Oracle).

Lemma accepted_app f (a b : list Event) :
  accepted f (a ++ b) = (accepted f a + accepted f b)%nat.
Proof.
  induction a as [|[c rc| |] a IH]; simpl; rewrite ?IH; lia.
Qed.

Lemma accepted_launch_event f (new : list Event) :
  (forall c, f c = true -> is_timer c = true) ->
  Forall launch_event new -> accepted f new = 0%nat.
Proof.
  intros Hf. induction 1 as [|e new He _ IH]; [reflexivity|].
  destruct e as [c rc| |]; simpl in *; [|exact IH|contradiction].
  destruct (f c) eqn:Hc.
  - rewrite (Hf c Hc) in He. discriminate.
  - simpl. exact IH.
Qed.

Lemma timer_events_refl (w : World) : timer_events w w 0 0.
Proof. exists []. auto. Qed.

Lemma timer_events_trans (w w1 w2 : World) c1 d1 c2 d2 :
  timer_events w w1 c1 d1 -> timer_events w1 w2 c2 d2 ->
  timer_events w w2 (c1 + c2) (d1 + d2).
Proof.
  intros (n1 & T1 & C1 & D1) (n2 & T2 & C2 & D2). exists (n2 ++ n1).
  split; [rewrite T2, T1, app_assoc; reflexivity|].
  rewrite !accepted_app. lia.
Qed.

(** A stage that only launches touches no timer event. *)
Lemma timer_events_launches (w w' : World) new :
  trace w' = new ++ trace w -> Forall launch_event new ->
  timer_events w w' 0 0.
Proof.
  intros T F. exists new. split; [exact T|].
  split; apply accepted_launch_event; try exact F;
    intros c Hc; destruct c; try discriminate; reflexivity.
Qed.

(** One checked driver call, from a method: what it adds to the count,
    by its result. *)
Lemma timer_events_call {T A} (m : M World A) c (t t' : T) (w w' : World) r :
  (forall w0, trace (snd (m w0))
              = EvDriver c (drv_result orc (length (trace w0)) c) :: trace w0) ->
  (forall w0 x, fst (m w0) = Ret x ->
                drv_result orc (length (trace w0)) c = CUDA_SUCCESS) ->
  (forall w0, drv_result orc (length (trace w0)) c = CUDA_SUCCESS ->
              exists x, fst (m w0) = Ret x) ->
  liftW m (t, w) = (r, (t', w')) ->
  t' = t
  /\ ((exists x, r = Ret x)
      /\ timer_events w w' (if is_event_create c then 1 else 0)
           (if is_event_destroy c then 1 else 0)
      \/ (forall x, r <> Ret x) /\ timer_events w w' 0 0).
Proof.
  intros Ht Hok Hret. rewrite liftW_eq. intros [= <- <- <-].
  split; [reflexivity|].
  destruct (decide (drv_result orc (length (trace w)) c = CUDA_SUCCESS))
    as [E|E].
  - left. split; [exact (Hret w E)|].
    eexists [_]. split; [apply Ht|]. simpl. rewrite E.
    rewrite bool_decide_eq_true_2 by reflexivity.
    rewrite !andb_true_r. split; destruct c; reflexivity.
  - right. split.
    + intros x Hx. exact (E (Hok w x Hx)).
    + eexists [_]. split; [apply Ht|]. simpl.
      rewrite bool_decide_eq_false_2 by exact E.
      rewrite !andb_false_r. auto.
Qed.

Lemma timer_events_CUDA {T} c (t t' : T) (w w' : World) r :
  liftW (CUDA_RETURN_IF_ERROR orc c) (t, w) = (r, (t', w')) ->
  t' = t
  /\ ((exists x, r = Ret x)
      /\ timer_events w w' (if is_event_create c then 1 else 0)
           (if is_event_destroy c then 1 else 0)
      \/ (forall x, r <> Ret x) /\ timer_events w w' 0 0).
Proof.
  apply timer_events_call.
  - intros w0. rewrite CUDA_RETURN_IF_ERROR_eq. apply trace_unchecked.
  - intros w0 x. rewrite CUDA_RETURN_IF_ERROR_eq. cbn [fst].
    destruct (decide _); [auto|discriminate].
  - intros w0 E. rewrite CUDA_RETURN_IF_ERROR_eq. cbn [fst].
    rewrite decide_True by exact E. eauto.
Qed.

Lemma timer_events_with_out {T} c (t t' : T) (w w' : World) r :
  liftW (with_out orc c) (t, w) = (r, (t', w')) ->
  t' = t
  /\ ((exists x, r = Ret x)
      /\ timer_events w w' (if is_event_create c then 1 else 0)
           (if is_event_destroy c then 1 else 0)
      \/ (forall x, r <> Ret x) /\ timer_events w w' 0 0).
Proof.
  apply timer_events_call.
  - intros w0. unfold with_out. rewrite bind_CUDA.
    destruct (decide _); apply trace_unchecked.
  - intros w0 x. unfold with_out. rewrite bind_CUDA.
    destruct (decide _); [auto|discriminate].
  - intros w0 E. unfold with_out. rewrite bind_CUDA.
    rewrite decide_True by exact E. cbn [fst ret]. eauto.
Qed.

(** The launches of [Benchmark] touch no timer event. *)
Lemma timer_events_Launch {self : Place}
    stream buffers (s s' : KernelCall * World) r :
  KernelCall_Launch orc self stream buffers s = (r, s') ->
  timer_events (snd s) (snd s') 0 0.
Proof.
  intros H. pose proof
      (Runs_KernelCall_Launch (self := self) orc stream buffers s) as R.
  rewrite H in R. cbn [fst snd] in R. destruct R as (new & T & F & _).
  exact (timer_events_launches _ _ _ T F).
Qed.

Lemma timer_events_repeat_Launch {self : Place} stream buffers (n : nat)
    (s s' : KernelCall * World) r :
  repeat_n n (KernelCall_Launch orc self stream buffers) s = (r, s') ->
  timer_events (snd s) (snd s') 0 0.
Proof.
  intros H.
  pose proof (Runs_repeat_n snd launch_event in_range n _
                (Runs_KernelCall_Launch (self := self) orc stream buffers) s) as
                    R.
  rewrite H in R. cbn [fst snd] in R. destruct R as (new & T & F & _).
  exact (timer_events_launches _ _ _ T F).
Qed.

(** One stage of a sequence that does not return: either the stage
    returned and the count goes on, or the sequence stopped here and the
    count is final.  [stage] tells what the stage adds to the count. *)
Ltac timer_stage stage :=
  match goal with
  | H : bind _ _ _ = (_, _), Hr : forall t, _ <> Ret t,
    TE0 : timer_events _ _ _ _ |- _ =>
      let H1 := fresh "H" in
      let TE := fresh "TE" in
      let TEn := fresh "TE" in
      apply bind_not_Ret in H; [|exact Hr];
      destruct H as [(? & [? ?] & H1 & H)|(? & H1 & ?)];
      [ stage H1 TE;
        pose proof (timer_events_trans _ _ _ _ _ _ _ TE0 TE) as TEn;
        simpl in TEn; clear TE TE0
      | stage H1 TE;
        pose proof (timer_events_trans _ _ _ _ _ _ _ TE0 TE) as TEn;
        eexists _, _; split; [exact TEn|]; simpl; lia ]
  end.

(** A checked timer call as a stage. *)
Ltac timer_call lem H1 TE :=
  apply lem in H1;
  destruct H1 as (? & [((? & ?) & TE)|(? & TE)]); subst;
  try match goal with
      | Hx : forall a, Ret _ <> Ret a |- _ => exfalso; exact (Hx _ eq_refl)
      | Hx : forall a, Fail _ <> Fail a |- _ => exfalso; exact (Hx _ eq_refl)
      end.

(** X16. A [Benchmark] that does not return a time leaves a timer event
    behind whenever it created one: it destroys fewer events than it
    created, because the events are destroyed on the path to the result
    only.  A [Benchmark] that returns created two events and destroyed
    two. *)
Theorem Benchmark_failure_leaks {self : Place} stream buffers num_iterations
    (kc kc' : KernelCall) (w w' : World) r :
  Benchmark orc self stream buffers num_iterations (kc, w) = (r, (kc', w')) ->
  ((forall t, r <> Ret t) ->
   exists c d, timer_events w w' c d /\ (c = 0 /\ d = 0 \/ d < c)%nat)
  /\ ((exists t, r = Ret t) -> timer_events w w' 2 2).
Proof.
  intros Hrun. split.
  - revert Hrun. unfold Benchmark. intros H Hr.
    pose proof (timer_events_refl w) as TE0.
    do 2 timer_stage ltac:(timer_call (@timer_events_with_out)).
    timer_stage ltac:(fun H1 TE =>
      apply timer_events_Launch in H1; cbn [snd] in H1; rename H1 into TE).
    timer_stage ltac:(timer_call (@timer_events_CUDA)).
    timer_stage ltac:(fun H1 TE =>
      apply timer_events_repeat_Launch in H1; cbn [snd] in H1;
      rename H1 into TE).
    do 3 timer_stage ltac:(timer_call (@timer_events_CUDA)).
    cbv zeta in H.
    do 2 timer_stage ltac:(timer_call (@timer_events_CUDA)).
    injection H as <- _. exfalso. exact (Hr _ eq_refl).
  - intros [t ->]. apply Benchmark_Ret in Hrun.
    destruct Hrun as (start & stop & warm & timed & pos & T & F1 & _ & F2 & _).
    exists ([EvDriver (cuEventDestroy stop) CUDA_SUCCESS;
             EvDriver (cuEventDestroy start) CUDA_SUCCESS;
             EvDriver (cuEventElapsedTime start stop) CUDA_SUCCESS;
             EvDriver (cuEventSynchronize stop) CUDA_SUCCESS;
             EvDriver (cuEventRecord stop stream) CUDA_SUCCESS]
            ++ timed
            ++ [EvDriver (cuEventRecord start stream) CUDA_SUCCESS]
            ++ warm
            ++ [EvDriver cuEventCreate CUDA_SUCCESS;
                EvDriver cuEventCreate CUDA_SUCCESS]).
    split; [rewrite T, <- !app_assoc; reflexivity|].
    rewrite !accepted_app.
    rewrite !(accepted_launch_event _ warm), !(accepted_launch_event _ timed);
      try assumption;
      try (intros c Hc; destruct c; try discriminate; reflexivity).
    split; reflexivity.
Qed.

End TimerEvents.

Lemma Benchmark_failure_leaks_witness :
  fst (Benchmark (failing_oracle is_launch) (Heap 0) 5 [256] 3
         (sample_call "A" 4, initial_world)) = Fail (DriverError 700)
  /\ exists c d,
      timer_events initial_world
        (snd (snd (Benchmark (failing_oracle is_launch) (Heap 0) 5 [256] 3
                     (sample_call "A" 4, initial_world)))) c d
      /\ (c = 0 /\ d = 0 \/ d < c)%nat.
Proof.
  assert (H : fst (Benchmark (failing_oracle is_launch) (Heap 0) 5 [256] 3
                     (sample_call "A" 4, initial_world))
              = Fail (DriverError 700)) by (vm_compute; reflexivity).
  split; [exact H|]. revert H.
  destruct (Benchmark (failing_oracle is_launch) (Heap 0) 5 [256] 3
              (sample_call "A" 4, initial_world)) as [r [kc' w']] eqn:E.
  cbn [fst snd]. intros ->.
  exact (proj1 (Benchmark_failure_leaks _ _ _ _ _ _ _ _ _ E)
           ltac:(discriminate)).
Defined.

(** On a device that refuses kernel launches, [Benchmark] creates its two
    events, fails in the warm-up and destroys neither. *)
Example Benchmark_leaks_both_events :
  let new := trace
      (snd (snd (Benchmark (failing_oracle is_launch) (Heap 0) 5 [256] 3
                                (sample_call "A" 4, initial_world)))) in
  accepted is_event_create new = 2%nat
  /\ accepted is_event_destroy new = 0%nat.
Proof. split; vm_compute; reflexivity. Qed.

(* ===================================================================== *)
(** * Properties: what is undefined in a launch *)
(* ===================================================================== *)

Section Safety.

Context `{F32 : Float32} (orc : Oracle).

#[global] Instance same_images_refl : Reflexive same_images.
Proof. intros w. repeat split; reflexivity. Qed.

#[global] Instance same_images_trans : Transitive same_images.
Proof.
  intros w1 w2 w3 (A1 & B1 & C1) (A2 & B2 & C2). repeat split; congruence.
Qed.





















End Safety.


(** With no buffer, the launch of a call with an array parameter is
    undefined. *)
Example KernelCall_Launch_no_buffer :
  fst (KernelCall_Launch plain_oracle (Heap 0) 5 []
         (sample_call "A" 4, initial_world)) = UB BufferIndexOutOfRange.
Proof. vm_compute. reflexivity. Qed.

(* ===================================================================== *)
(** * Properties: the views that the cache keeps *)
(* ===================================================================== *)

Section ViewLifetime.

Context `{F32 : Float32} (orc : Oracle).




#[global] Instance views_kept_refl {T} : Reflexive (views_kept (T := T)).
Proof. intros s. reflexivity. Qed.

#[global] Instance views_kept_trans {T} : Transitive (views_kept (T := T)).
Proof. intros s1 s2 s3 H1 H2. unfold views_kept in *. congruence. Qed.






End ViewLifetime.


